(** * SQL_Subqueries.ipynb: the notebook, the statements it submits and the
    engine that answers them

    The notebook has nine code cells: one imports [pandas] and [sqlite3], one
    opens a connection on ['flights.db'], and seven hand a literal SQL text to
    [pd.read_sql].  The Python glue is embedded shallowly, as programs of a
    state-and-exception monad over the kernel's state.  The SQL texts are data
    for the program; they are kept verbatim, parsed by a small parser for the
    fragment of SQL they use, and evaluated by a reference semantics of that
    fragment over stored tables. *)

From Stdlib Require Import ZArith QArith List Ascii String Permutation Sorted.
From stdpp Require Import base option list gmap strings pretty.

Close Scope Q_scope.
Local Open Scope Z_scope.

(** ** Stored values

    SQLite is dynamically typed: a cell holds NULL, an integer, a real or a
    text.  Reals only arise here as the result of [AVG]; they are kept as
    reduced fractions, so the rounding to binary64 is not modelled. *)

Inductive value : Type :=
| VNull
| VInt (z : Z)
| VReal (q : Q)
| VText (s : string).

#[global] Instance Q_eq_dec : EqDecision Q.
Proof. solve_decision. Defined.

#[global] Instance value_eq_dec : EqDecision value.
Proof. solve_decision. Defined.

(** A table, stored or computed: column names and rows in storage (or
    production) order. *)
Record table : Type := Table {
  t_cols : list string;
  t_rows : list (list value)
}.

#[global] Instance table_eq_dec : EqDecision table.
Proof. solve_decision. Defined.

#[global] Instance table_inhabited : Inhabited table := populate (Table [] []).

(** The content of a database file: its tables by name.  The schema of
    flights.db (airports, routes, airlines) is not part of the repository, so
    nothing is assumed about which tables or columns a database has. *)
Abbreviation database := (gmap string table).

Inductive sqlite_error : Type :=
| OperationalError (msg : string)
| ProgrammingError (msg : string).

#[global] Instance sqlite_error_eq_dec : EqDecision sqlite_error.
Proof. solve_decision. Defined.

(** ** Syntax of the SQL fragment *)

Set Warnings "-register-all".

Inductive join_kind : Type := InnerJoin | LeftJoin.

Inductive expr : Type :=
| ECol (qual : option string) (col : string)
| EDq (s : string)
| EStr (s : string)
| ENum (z : Z)
| ECount
| EAvg (e : expr)
| EEq (a b : expr)
| EOr (a b : expr)
| EInList (e : expr) (items : list expr)
| EInSelect (e : expr) (q : select)
| EInTable (e : expr) (t : string)
with select : Type :=
| Select (ctes : list (string * select))
         (distinct : bool)
         (cols : list (expr * option string))
         (from : from_item)
         (joins : list (join_kind * from_item * expr))
         (where_ : option expr)
         (group_by : list expr)
         (order_by : list (expr * bool))
         (limit : option nat)
with from_item : Type :=
| FTable (name : string) (alias : option string)
| FSub (q : select) (alias : option string).

Inductive statement : Type :=
| SSelect (q : select)
| SCreateTable (t : string) (cols : list string)
| SInsert (t : string) (vals : list value)
| SUpdate (t : string) (col : string) (v : value)
| SDelete (t : string)
| SDropTable (t : string).

Definition sel_ctes (q : select) : list (string * select) :=
  match q with Select c _ _ _ _ _ _ _ _ => c end.
Definition sel_distinct (q : select) : bool :=
  match q with Select _ d _ _ _ _ _ _ _ => d end.
Definition sel_cols (q : select) : list (expr * option string) :=
  match q with Select _ _ c _ _ _ _ _ _ => c end.

(** ** Lexer *)

Inductive token : Type :=
| TKw (k : string)
| TIdent (s : string)
| TDq (s : string)
| TSq (s : string)
| TNum (n : N)
| TLParen | TRParen | TComma | TDot | TEq | TStar | TSemi.

#[global] Instance token_eq_dec : EqDecision token.
Proof. solve_decision. Defined.

Definition nl : string := String "010"%char EmptyString.
Definition dq : string := String "034"%char EmptyString.

Definition is_space (c : ascii) : bool :=
  let n := nat_of_ascii c in
  (n =? 32)%nat || (n =? 10)%nat || (n =? 9)%nat || (n =? 13)%nat.
Definition is_digit (c : ascii) : bool :=
  let n := nat_of_ascii c in (48 <=? n)%nat && (n <=? 57)%nat.
Definition is_alpha (c : ascii) : bool :=
  let n := nat_of_ascii c in
  ((65 <=? n)%nat && (n <=? 90)%nat) || ((97 <=? n)%nat && (n <=? 122)%nat)
  || (n =? 95)%nat.

Definition upper_char (c : ascii) : ascii :=
  let n := nat_of_ascii c in
  if (97 <=? n)%nat && (n <=? 122)%nat then ascii_of_nat (n - 32) else c.
Fixpoint upper (s : string) : string :=
  match s with
  | EmptyString => EmptyString
  | String c s' => String (upper_char c) (upper s')
  end.

Definition keywords : list string :=
  ["SELECT"; "DISTINCT"; "FROM"; "AS"; "LEFT"; "INNER"; "JOIN"; "ON"; "WHERE";
   "IN"; "OR"; "GROUP"; "BY"; "ORDER"; "ASC"; "DESC"; "LIMIT"; "WITH";
   "CREATE"; "TABLE"; "INSERT"; "INTO"; "VALUES"; "UPDATE"; "SET"; "DELETE";
   "DROP"; "NULL"].

Definition word_token (w : string) : token :=
  if bool_decide (upper w ∈ keywords) then TKw (upper w) else TIdent w.

(** Longest prefix of [s] whose characters satisfy [p], and the rest. *)
Fixpoint span (p : ascii -> bool) (s : string) : string * string :=
  match s with
  | EmptyString => (EmptyString, EmptyString)
  | String c s' =>
      if p c then let '(a, b) := span p s' in (String c a, b)
      else (EmptyString, s)
  end.

Fixpoint digits_value (s : string) (acc : N) : N :=
  match s with
  | EmptyString => acc
  | String c s' => digits_value s' (10 * acc + N.of_nat (nat_of_ascii c - 48))%N
  end.

(** Text up to the closing quote [q]; [None] when the quote is never closed. *)
Fixpoint quoted (q : ascii) (s : string) : option (string * string) :=
  match s with
  | EmptyString => None
  | String c s' =>
      if bool_decide (c = q) then Some (EmptyString, s')
      else '(a, b) ← quoted q s'; Some (String c a, b)
  end.

Fixpoint skip_line (s : string) : string :=
  match s with
  | EmptyString => EmptyString
  | String c s' => if bool_decide (c = "010"%char) then s' else skip_line s'
  end.

Definition punct (c : ascii) : option token :=
  if bool_decide (c = "("%char) then Some TLParen
  else if bool_decide (c = ")"%char) then Some TRParen
  else if bool_decide (c = ","%char) then Some TComma
  else if bool_decide (c = "."%char) then Some TDot
  else if bool_decide (c = "="%char) then Some TEq
  else if bool_decide (c = "*"%char) then Some TStar
  else if bool_decide (c = ";"%char) then Some TSemi
  else None.

(** [tokens fuel s]: the tokens of [s]; [None] on a character that starts no
    token or on an unclosed quote.  Every step consumes a character, so
    [String.length s] steps of fuel and one more are always enough. *)
Fixpoint tokens (fuel : nat) (s : string) : option (list token) :=
  match fuel with
  | O => None
  | S fuel' =>
      match s with
      | EmptyString => Some []
      | String c s' =>
          if is_space c then tokens fuel' s'
          else if bool_decide (c = "-"%char) then
            match s' with
            | String "-"%char s'' => tokens fuel' (skip_line s'')
            | _ => None
            end
          else if is_alpha c then
            let '(w, rest) := span (fun x => is_alpha x || is_digit x) s in
            ts ← tokens fuel' rest; Some (word_token w :: ts)
          else if is_digit c then
            let '(w, rest) := span is_digit s in
            ts ← tokens fuel' rest; Some (TNum (digits_value w 0) :: ts)
          else if bool_decide (c = "034"%char) then
            '(w, rest) ← quoted c s'; ts ← tokens fuel' rest; Some (TDq w :: ts)
          else if bool_decide (c = "'"%char) then
            '(w, rest) ← quoted c s'; ts ← tokens fuel' rest; Some (TSq w :: ts)
          else
            t ← punct c; ts ← tokens fuel' s'; Some (t :: ts)
      end
  end.

Definition lex (s : string) : option (list token) :=
  tokens (S (String.length s)) s.

(** ** Parser

    Recursive descent over the token list.  The functions are mutually
    recursive through parenthesised subqueries, so they descend on a fuel
    argument; [parse_statement] supplies enough of it for the texts of the
    notebook.  A text outside the fragment does not parse, and the engine
    answers it with a syntax error. *)

Definition strip (pre ts : list token) : option (list token) :=
  if bool_decide (take (length pre) ts = pre) then Some (drop (length pre) ts)
  else None.

Definition expect (t : token) (ts : list token) : option (list token) :=
  strip [t] ts.

Definition opt_alias (ts : list token) : option string * list token :=
  match strip [TKw "AS"] ts with
  | Some (TIdent a :: r) => (Some a, r)
  | _ => (None, ts)
  end.

Definition starts_select (ts : list token) : bool :=
  match ts with
  | t :: _ => bool_decide (t = TKw "SELECT") || bool_decide (t = TKw "WITH")
  | [] => false
  end.

Fixpoint parse_expr (fuel : nat) (ts : list token) {struct fuel}
  : option (expr * list token) :=
  match fuel with
  | O => None
  | S n => '(a, r) ← parse_cmp n ts; parse_or_tail n a r
  end

with parse_or_tail (fuel : nat) (a : expr) (ts : list token) {struct fuel}
  : option (expr * list token) :=
  match fuel with
  | O => None
  | S n =>
      match strip [TKw "OR"] ts with
      | Some r => '(b, r') ← parse_cmp n r; parse_or_tail n (EOr a b) r'
      | None => Some (a, ts)
      end
  end

with parse_cmp (fuel : nat) (ts : list token) {struct fuel}
  : option (expr * list token) :=
  match fuel with
  | O => None
  | S n =>
      '(a, r) ← parse_prim n ts;
      match strip [TEq] r, strip [TKw "IN"] r with
      | Some r1, _ => '(b, r2) ← parse_prim n r1; Some (EEq a b, r2)
      | None, Some (TIdent t :: r1) => Some (EInTable a t, r1)
      | None, Some (TLParen :: r1) =>
          if starts_select r1 then
            '(q, r2) ← parse_select n r1;
            r3 ← expect TRParen r2; Some (EInSelect a q, r3)
          else
            '(items, r2) ← parse_expr_list n r1;
            r3 ← expect TRParen r2; Some (EInList a items, r3)
      | None, Some _ => None
      | None, None => Some (a, r)
      end
  end

with parse_prim (fuel : nat) (ts : list token) {struct fuel}
  : option (expr * list token) :=
  match fuel with
  | O => None
  | S n =>
      match ts with
      | TIdent f :: TLParen :: r =>
          if bool_decide (upper f = "COUNT") then
            match strip [TRParen] r, strip [TStar; TRParen] r with
            | Some r1, _ => Some (ECount, r1)
            | None, Some r1 => Some (ECount, r1)
            | None, None => None
            end
          else if bool_decide (upper f = "AVG") then
            '(e, r1) ← parse_expr n r;
            r2 ← expect TRParen r1; Some (EAvg e, r2)
          else None
      | TIdent q :: TDot :: TIdent c :: r => Some (ECol (Some q) c, r)
      | TIdent c :: r => Some (ECol None c, r)
      | TDq s :: r => Some (EDq s, r)
      | TSq s :: r => Some (EStr s, r)
      | TNum k :: r => Some (ENum (Z.of_N k), r)
      | TLParen :: r =>
          '(e, r1) ← parse_expr n r; r2 ← expect TRParen r1; Some (e, r2)
      | _ => None
      end
  end

with parse_expr_list (fuel : nat) (ts : list token) {struct fuel}
  : option (list expr * list token) :=
  match fuel with
  | O => None
  | S n =>
      '(e, r) ← parse_expr n ts;
      match strip [TComma] r with
      | Some r1 => '(es, r2) ← parse_expr_list n r1; Some (e :: es, r2)
      | None => Some ([e], r)
      end
  end

with parse_result_cols (fuel : nat) (ts : list token) {struct fuel}
  : option (list (expr * option string) * list token) :=
  match fuel with
  | O => None
  | S n =>
      '(e, r) ← parse_expr n ts;
      let '(a, r0) := opt_alias r in
      match strip [TComma] r0 with
      | Some r1 => '(cs, r2) ← parse_result_cols n r1; Some ((e, a) :: cs, r2)
      | None => Some ([(e, a)], r0)
      end
  end

with parse_order_list (fuel : nat) (ts : list token) {struct fuel}
  : option (list (expr * bool) * list token) :=
  match fuel with
  | O => None
  | S n =>
      '(e, r) ← parse_expr n ts;
      let '(desc, r0) :=
        match strip [TKw "DESC"] r, strip [TKw "ASC"] r with
        | Some r1, _ => (true, r1)
        | None, Some r1 => (false, r1)
        | None, None => (false, r)
        end in
      match strip [TComma] r0 with
      | Some r1 => '(os, r2) ← parse_order_list n r1; Some ((e, desc) :: os, r2)
      | None => Some ([(e, desc)], r0)
      end
  end

with parse_from_item (fuel : nat) (ts : list token) {struct fuel}
  : option (from_item * list token) :=
  match fuel with
  | O => None
  | S n =>
      match ts with
      | TIdent t :: r => let '(a, r1) := opt_alias r in Some (FTable t a, r1)
      | TLParen :: r =>
          '(q, r1) ← parse_select n r;
          r2 ← expect TRParen r1;
          let '(a, r3) := opt_alias r2 in Some (FSub q a, r3)
      | _ => None
      end
  end

with parse_joins (fuel : nat) (ts : list token) {struct fuel}
  : option (list (join_kind * from_item * expr) * list token) :=
  match fuel with
  | O => None
  | S n =>
      let head :=
        match strip [TKw "LEFT"; TKw "JOIN"] ts,
              strip [TKw "INNER"; TKw "JOIN"] ts,
              strip [TKw "JOIN"] ts with
        | Some r, _, _ => Some (LeftJoin, r)
        | None, Some r, _ => Some (InnerJoin, r)
        | None, None, Some r => Some (InnerJoin, r)
        | None, None, None => None
        end in
      match head with
      | None => Some ([], ts)
      | Some (k, r) =>
          '(f, r1) ← parse_from_item n r;
          r2 ← expect (TKw "ON") r1;
          '(e, r3) ← parse_expr n r2;
          '(js, r4) ← parse_joins n r3;
          Some ((k, f, e) :: js, r4)
      end
  end

with parse_ctes (fuel : nat) (ts : list token) {struct fuel}
  : option (list (string * select) * list token) :=
  match fuel with
  | O => None
  | S n =>
      match ts with
      | TIdent c :: r =>
          r1 ← strip [TKw "AS"; TLParen] r;
          '(q, r2) ← parse_select n r1;
          r3 ← expect TRParen r2;
          match strip [TComma] r3 with
          | Some r4 => '(cs, r5) ← parse_ctes n r4; Some ((c, q) :: cs, r5)
          | None => Some ([(c, q)], r3)
          end
      | _ => None
      end
  end

with parse_select (fuel : nat) (ts : list token) {struct fuel}
  : option (select * list token) :=
  match fuel with
  | O => None
  | S n =>
      '(ctes, r1) ← match strip [TKw "WITH"] ts with
                    | Some r => parse_ctes n r
                    | None => Some ([], ts)
                    end;
      r2 ← expect (TKw "SELECT") r1;
      let '(d, r3) := match strip [TKw "DISTINCT"] r2 with
                      | Some r => (true, r)
                      | None => (false, r2)
                      end in
      '(cols, r4) ← parse_result_cols n r3;
      r5 ← expect (TKw "FROM") r4;
      '(f, r6) ← parse_from_item n r5;
      '(js, r7) ← parse_joins n r6;
      '(w, r8) ← match strip [TKw "WHERE"] r7 with
                 | Some r => '(e, r') ← parse_expr n r; Some (Some e, r')
                 | None => Some (None, r7)
                 end;
      '(g, r9) ← match strip [TKw "GROUP"; TKw "BY"] r8 with
                 | Some r => parse_expr_list n r
                 | None => Some ([], r8)
                 end;
      '(o, r10) ← match strip [TKw "ORDER"; TKw "BY"] r9 with
                  | Some r => parse_order_list n r
                  | None => Some ([], r9)
                  end;
      '(l, r11) ← match strip [TKw "LIMIT"] r10 with
                  | Some (TNum k :: r) => Some (Some (N.to_nat k), r)
                  | Some _ => None
                  | None => Some (None, r10)
                  end;
      Some (Select ctes d cols f js w g o l, r11)
  end.

Definition parse_literal (t : token) : option value :=
  match t with
  | TNum k => Some (VInt (Z.of_N k))
  | TSq s => Some (VText s)
  | TKw k => if bool_decide (k = "NULL") then Some VNull else None
  | _ => None
  end.

Fixpoint parse_literals (ts : list token) : option (list value) :=
  match ts with
  | [t; TRParen] => v ← parse_literal t; Some [v]
  | t :: TComma :: r => v ← parse_literal t; vs ← parse_literals r; Some (v :: vs)
  | _ => None
  end.

Fixpoint parse_names (ts : list token) : option (list string) :=
  match ts with
  | [TIdent c; TRParen] => Some [c]
  | TIdent c :: TComma :: r => cs ← parse_names r; Some (c :: cs)
  | _ => None
  end.

(** A statement may end in one semicolon. *)
Definition chop_semi (ts : list token) : list token :=
  match reverse ts with
  | TSemi :: r => reverse r
  | _ => ts
  end.

Definition parse_statement (ts : list token) : option statement :=
  match strip [TKw "DELETE"; TKw "FROM"] ts,
        strip [TKw "DROP"; TKw "TABLE"] ts,
        strip [TKw "CREATE"; TKw "TABLE"] ts,
        strip [TKw "INSERT"; TKw "INTO"] ts,
        strip [TKw "UPDATE"] ts with
  | Some r, _, _, _, _ =>
      match r with [TIdent t] => Some (SDelete t) | _ => None end
  | _, Some r, _, _, _ =>
      match r with [TIdent t] => Some (SDropTable t) | _ => None end
  | _, _, Some r, _, _ =>
      match r with
      | TIdent t :: TLParen :: r' => cs ← parse_names r'; Some (SCreateTable t cs)
      | _ => None
      end
  | _, _, _, Some r, _ =>
      match r with
      | TIdent t :: r' =>
          r'' ← strip [TKw "VALUES"; TLParen] r';
          vs ← parse_literals r''; Some (SInsert t vs)
      | _ => None
      end
  | _, _, _, _, Some r =>
      match r with
      | [TIdent t; s; TIdent c; TEq; l] =>
          if bool_decide (s = TKw "SET") then v ← parse_literal l; Some (SUpdate t c v)
          else None
      | _ => None
      end
  | None, None, None, None, None =>
      '(q, r) ← parse_select (8 + 4 * length ts) ts;
      match r with [] => Some (SSelect q) | _ => None end
  end.

Definition parse_sql (sql : string) : option statement :=
  ts ← lex sql; parse_statement (chop_semi ts).

(** ** Reference semantics of the fragment

    The engine is not part of the repository; this is its documented behaviour
    on the fragment, with these choices spelled out:
    - names of columns and their qualifiers are compared without regard to
      the case of the letters A to Z; names of tables, and the names of
      result columns in ORDER BY, are compared as written;
    - columns carry no declared type, so no value is converted on comparison;
    - a text counts as the number 0 where a number is needed;
    - rows without ORDER BY keep the order in which they were read or
      produced; the order of rows that tie under ORDER BY is left open by SQL
      and is the engine's choice, its [plan]: two plans are modelled, and the
      names without [_under] stand for the engine under the plan [AsRead];
    - a common table expression is computed where it is defined.
    Failures are values of [sqlite_error + A]. *)

Abbreviation result := (sum sqlite_error).

#[global] Instance result_ret : MRet result := λ A a, inr a.
#[global] Instance result_bind : MBind result :=
  λ A B f m, match m with inl e => inl e | inr a => f a end.

Definition fail {A} (msg : string) : result A := inl (OperationalError msg).

(** *** Values: comparison, truth, equality, membership *)

Definition num_of (v : value) : option Q :=
  match v with
  | VNull => None
  | VInt z => Some (inject_Z z)
  | VReal q => Some q
  | VText _ => Some (inject_Z 0)
  end.

(** Storage classes sort as NULL, then numbers, then text; texts compare
    byte-wise (the BINARY collation). *)
Definition value_compare (a b : value) : comparison :=
  match a, b with
  | VNull, VNull => Eq
  | VNull, _ => Lt
  | _, VNull => Gt
  | VText s, VText t => String.compare s t
  | VText _, _ => Gt
  | _, VText _ => Lt
  | VInt x, VInt y => Z.compare x y
  | VInt x, VReal q => Qcompare (inject_Z x) q
  | VReal q, VInt y => Qcompare q (inject_Z y)
  | VReal p, VReal q => Qcompare p q
  end.

Definition same_value (a b : value) : bool :=
  if value_compare a b is Eq then true else false.

Fixpoint same_row (r1 r2 : list value) : bool :=
  match r1, r2 with
  | [], [] => true
  | a :: r1', b :: r2' => same_value a b && same_row r1' r2'
  | _, _ => false
  end.

Definition of_bool (b : bool) : value := VInt (if b then 1 else 0).

(** [None] is SQL's unknown. *)
Definition truth (v : value) : option bool :=
  q ← num_of v; Some (negb (Qeq_bool q (inject_Z 0))).

Definition sql_eq (a b : value) : value :=
  match a, b with
  | VNull, _ | _, VNull => VNull
  | _, _ => of_bool (same_value a b)
  end.

Definition sql_or (a b : value) : value :=
  match truth a, truth b with
  | Some true, _ | _, Some true => of_bool true
  | Some false, Some false => of_bool false
  | _, _ => VNull
  end.

Definition is_null (v : value) : bool := if v is VNull then true else false.

Definition sql_in (x : value) (vs : list value) : value :=
  match vs with
  | [] => of_bool false
  | _ =>
      if is_null x then VNull
      else if existsb (same_value x) vs then of_bool true
      else if existsb is_null vs then VNull
      else of_bool false
  end.

Definition avg (vs : list value) : value :=
  match omap num_of vs with
  | [] => VNull
  | q :: qs =>
      VReal (Qred (Qdiv (fold_left Qplus qs q)
                        (inject_Z (Z.of_nat (S (length qs))))))
  end.

(** *** Rows in flight

    While a SELECT runs, a row carries the values of every column in scope;
    [rel_names] gives, position by position, the qualifier (table name or
    alias) and the column name. *)

Record rel : Type := Rel {
  rel_names : list (string * string);
  rel_rows : list (list value)
}.

(** Names of columns, and the table names or aliases that qualify them, are
    compared without regard to the case of the letters A to Z. *)
Definition lower_ascii (c : ascii) : ascii :=
  let n := N_of_ascii c in
  if (65 <=? n)%N && (n <=? 90)%N then ascii_of_N (n + 32) else c.

Fixpoint lower (s : string) : string :=
  match s with
  | EmptyString => EmptyString
  | String c s' => String (lower_ascii c) (lower s')
  end.

Definition same_name (a b : string) : bool := String.eqb (lower a) (lower b).

Definition matches (q : option string) (c : string) (n : string * string) : bool :=
  same_name n.2 c
  && match q with Some q' => same_name n.1 q' | None => true end.

Definition resolve (names : list (string * string)) (row : list value)
    (q : option string) (c : string) : result value :=
  match List.filter (λ nv, matches q c nv.1) (zip names row) with
  | [] => fail ("no such column: " +:+ c)
  | [(_, v)] => mret v
  | _ => fail ("ambiguous column name: " +:+ c)
  end.

Definition lookup_table (db : database) (t : string) : result table :=
  match db !! t with
  | Some tb => mret tb
  | None => fail ("no such table: " +:+ t)
  end.

(** A stored row read to the width of its table. *)
Definition fit (n : nat) (r : list value) : list value :=
  take n (r ++ replicate n VNull).

Definition scan (qual : string) (tb : table) : rel :=
  Rel (map (λ c, (qual, c)) (t_cols tb))
      (map (fit (length (t_cols tb))) (t_rows tb)).

Definition single_column (tb : table) : result (list value) :=
  match t_cols tb with
  | [_] => mret (map (λ r, hd VNull r) (t_rows tb))
  | _ => fail "sub-select returns more than one column"
  end.

(** The meaning of an expression: given the tables in scope, the names of the
    row, the group being aggregated (if any) and the row, a value. *)
Definition row_fn : Type :=
  list (string * string) → option (list (list value)) → list value → result value.

Definition in_table (de : database → row_fn) (tb : database → result table)
  : database → row_fn :=
  λ db names g r,
    v ← de db names g r; t ← tb db; vs ← single_column t; mret (sql_in v vs).

(** *** The stages of a SELECT, over the meanings of its parts *)

(** WITH: each common table expression is computed and put in scope under its
    name for what follows; the scope is local to the statement. *)
Fixpoint with_ctes (ctes : list (string * (database → result table)))
    (db : database) : result database :=
  match ctes with
  | [] => mret db
  | (n, q) :: cs => t ← q db; with_ctes cs (<[n := t]> db)
  end.

(** A condition holds on a row when it is true; unknown counts as false. *)
Definition holds (f : row_fn) (names : list (string * string))
    (r : list value) : result bool :=
  v ← f names None r; mret (default false (truth v)).

Definition filterM {A} (p : A → result bool) : list A → result (list A) :=
  fix go l :=
    match l with
    | [] => mret []
    | x :: l' => b ← p x; xs ← go l'; mret (if b : bool then x :: xs else xs)
    end.

Definition join_one (k : join_kind) (on : list value → result bool)
    (width : nat) (rrows : list (list value)) (l : list value)
  : result (list (list value)) :=
  ms ← filterM on (map (app l) rrows);
  mret (match k, ms with
        | LeftJoin, [] => [l ++ replicate width VNull]
        | _, _ => ms
        end).

Definition join_rel (k : join_kind) (on : row_fn) (L R : rel) : result rel :=
  let names := rel_names L ++ rel_names R in
  rows ← mapM (join_one k (holds on names) (length (rel_names R)) (rel_rows R))
              (rel_rows L);
  mret (Rel names (concat rows)).

Fixpoint apply_joins
    (joins : list (join_kind * (database → result rel) * (database → row_fn)))
    (db : database) (L : rel) : result rel :=
  match joins with
  | [] => mret L
  | (k, fr, on) :: js =>
      R ← fr db; L' ← join_rel k (on db) L R; apply_joins js db L'
  end.

(** Which of several rows that tie under ORDER BY comes first is the engine's
    choice: it depends on how the engine reads and sorts, which changes with
    the indexes a database has.  Two choices are modelled: ties in the order
    in which the rows were produced, and ties in the opposite order. *)
Inductive plan : Type :=
| AsRead
| Reversed.

#[global] Instance plan_eq_dec : EqDecision plan.
Proof. solve_decision. Defined.

(** The rows as the sorter of ORDER BY takes them in; without ORDER BY there
    is no sorter. *)
Definition arrange {A} (p : plan) (dirs : list bool) (rows : list A) : list A :=
  match p, dirs with
  | Reversed, _ :: _ => rev rows
  | _, _ => rows
  end.

(** Sorting compares key by key, a descending key reversed; rows whose keys
    are all equal keep the order in which the sorter took them in. *)
Fixpoint keys_le (dirs : list bool) (k1 k2 : list value) : bool :=
  match dirs, k1, k2 with
  | d :: ds, a :: k1', b :: k2' =>
      match value_compare a b with
      | Eq => keys_le ds k1' k2'
      | Lt => negb d
      | Gt => d
      end
  | _, _, _ => true
  end.

Fixpoint insert_by {A} (le : A → A → bool) (x : A) (l : list A) : list A :=
  match l with
  | [] => [x]
  | y :: l' => if le x y then x :: l else y :: insert_by le x l'
  end.

Definition sort_by {A} (le : A → A → bool) (l : list A) : list A :=
  foldr (insert_by le) [] l.

(** GROUP BY: rows with the same key form a group, its rows in the order in
    which they were read; the groups come out in ascending order of key (the
    engine sorts its input on the grouping terms). *)
Fixpoint add_to_group (key : list value) (r : list value)
    (gs : list (list value * list (list value)))
  : list (list value * list (list value)) :=
  match gs with
  | [] => [(key, [r])]
  | (k, rs) :: gs' =>
      if same_row k key then (k, rs ++ [r]) :: gs'
      else (k, rs) :: add_to_group key r gs'
  end.

Definition group_rows (keys : list row_fn) (names : list (string * string))
    (rows : list (list value)) : result (list (list (list value))) :=
  keyed ← mapM (λ r, k ← mapM (λ f : row_fn, f names None r) keys; mret (k, r)) rows;
  let groups := foldl (λ gs kr, add_to_group kr.1 kr.2 gs) [] keyed in
  mret (map snd (sort_by (λ a b, keys_le (map (λ _, false) keys) a.1 b.1) groups)).

(** What the result columns are computed from: one row and no group for a
    plain query, each group with its first row for an aggregate query, the
    whole input as one group when aggregates are used without GROUP BY. *)
Definition units (aggregated : bool) (keys : list row_fn) (R : rel)
  : result (list (list value * option (list (list value)))) :=
  if aggregated then
    match keys with
    | [] => mret [(hd (replicate (length (rel_names R)) VNull) (rel_rows R),
                   Some (rel_rows R))]
    | _ => gs ← group_rows keys (rel_names R) (rel_rows R);
           mret (map (λ rs, (hd [] rs, Some rs)) gs)
    end
  else mret (map (λ r, (r, None)) (rel_rows R)).

(** DISTINCT keeps the first of the rows that compare equal. *)
Fixpoint distinct_rows {A} (seen : list (list value))
    (us : list (list value * A)) : list (list value * A) :=
  match us with
  | [] => []
  | (r, k) :: us' =>
      if existsb (same_row r) seen then distinct_rows seen us'
      else (r, k) :: distinct_rows (r :: seen) us'
  end.

Definition apply_limit {A} (l : option nat) (xs : list A) : list A :=
  match l with Some n => take n xs | None => xs end.

Fixpoint assoc {A} (c : string) (l : list (string * A)) : option A :=
  match l with
  | [] => None
  | (n, v) :: l' => if bool_decide (n = c) then Some v else assoc c l'
  end.

(** An ORDER BY term that is the name of a result column sorts by that column;
    any other term is an expression over the row. *)
Definition order_key (e : expr) (de : database → row_fn)
    (out_names : list string) (out : list value) : database → row_fn :=
  match e with
  | ECol None c =>
      match assoc c (zip out_names out) with
      | Some v => λ _ _ _ _, mret v
      | None => de
      end
  | _ => de
  end.

Definition run_select_under (p : plan)
    (ctes : list (string * (database → result table)))
    (distinct : bool)
    (out_names : list string)
    (cols : list (database → row_fn))
    (from : database → result rel)
    (joins : list (join_kind * (database → result rel) * (database → row_fn)))
    (where_ : option (database → row_fn))
    (aggregated : bool)
    (group_by : list (database → row_fn))
    (order_by : list ((list string → list value → database → row_fn) * bool))
    (limit : option nat)
    (db0 : database) : result table :=
  db ← with_ctes ctes db0;
  R0 ← from db;
  R1 ← apply_joins joins db R0;
  let names := rel_names R1 in
  rows ← match where_ with
         | Some w => filterM (holds (w db) names) (rel_rows R1)
         | None => mret (rel_rows R1)
         end;
  us ← units aggregated (map (λ f, f db) group_by) (Rel names rows);
  outs ← mapM (λ u : list value * option (list (list value)),
                 out ← mapM (λ c : database → row_fn, c db names u.2 u.1) cols;
                 keys ← mapM (λ o : (list string → list value → database → row_fn) * bool,
                                o.1 out_names out db names u.2 u.1) order_by;
                 mret (out, keys)) us;
  let kept := if distinct then distinct_rows [] outs else outs in
  let sorted := sort_by (λ x y, keys_le (map snd order_by) x.2 y.2)
                        (arrange p (map snd order_by) kept) in
  mret (Table out_names (map fst (apply_limit limit sorted))).

Abbreviation run_select := (run_select_under AsRead).

(** *** Syntax-directed part *)

Fixpoint has_agg (e : expr) : bool :=
  match e with
  | ECount | EAvg _ => true
  | EEq a b | EOr a b => has_agg a || has_agg b
  | EInList a items => has_agg a || existsb has_agg items
  | EInSelect a _ | EInTable a _ => has_agg a
  | _ => false
  end.

Fixpoint show_expr (e : expr) : string :=
  match e with
  | ECol (Some q) c => q +:+ "." +:+ c
  | ECol None c => c
  | EDq s => dq +:+ s +:+ dq
  | EStr s => "'" +:+ s +:+ "'"
  | ENum z => pretty z
  | ECount => "COUNT()"
  | EAvg a => "AVG(" +:+ show_expr a +:+ ")"
  | EEq a b => show_expr a +:+ " = " +:+ show_expr b
  | EOr a b => show_expr a +:+ " OR " +:+ show_expr b
  | EInList a items =>
      show_expr a +:+ " IN (" +:+ String.concat ", " (map show_expr items) +:+ ")"
  | EInSelect a _ => show_expr a +:+ " IN (...)"
  | EInTable a t => show_expr a +:+ " IN " +:+ t
  end.

(** The name of a result column: its alias, else the column it reads, else
    the text of the expression. *)
Definition out_name (c : expr * option string) : string :=
  match c with
  | (_, Some a) => a
  | (ECol _ n, None) => n
  | (e, None) => show_expr e
  end.

Definition is_aggregate (cols : list (expr * option string))
    (g : list expr) (o : list (expr * bool)) : bool :=
  negb (bool_decide (g = [])) || existsb (λ c, has_agg c.1) cols
  || existsb (λ c, has_agg c.1) o.

Fixpoint denote_expr_under (p : plan) (e : expr) : database → row_fn :=
  match e with
  | ECol q c => λ _ names _ r, resolve names r q c
  | EDq s => λ _ names _ r,
      if existsb (matches None s) names then resolve names r None s
      else mret (VText s)
  | EStr s => λ _ _ _ _, mret (VText s)
  | ENum z => λ _ _ _ _, mret (VInt z)
  | ECount => λ _ _ g _,
      match g with
      | Some rows => mret (VInt (Z.of_nat (length rows)))
      | None => fail "misuse of aggregate function COUNT()"
      end
  | EAvg a => λ db names g _,
      match g with
      | Some rows =>
          vs ← mapM (λ r, denote_expr_under p a db names None r) rows;
          mret (avg vs)
      | None => fail "misuse of aggregate function AVG()"
      end
  | EEq a b => λ db names g r,
      x ← denote_expr_under p a db names g r;
      y ← denote_expr_under p b db names g r;
      mret (sql_eq x y)
  | EOr a b => λ db names g r,
      x ← denote_expr_under p a db names g r;
      y ← denote_expr_under p b db names g r;
      mret (sql_or x y)
  | EInList a items => λ db names g r,
      x ← denote_expr_under p a db names g r;
      vs ← mapM (λ f : database → row_fn, f db names g r)
                (map (denote_expr_under p) items);
      mret (sql_in x vs)
  | EInSelect a q => in_table (denote_expr_under p a) (denote_select_under p q)
  | EInTable a t => in_table (denote_expr_under p a) (λ db, lookup_table db t)
  end

with denote_select_under (p : plan) (q : select) : database → result table :=
  match q with
  | Select ctes d cols f js w g o l =>
      run_select_under p
        (map (λ c, (c.1, denote_select_under p c.2)) ctes)
        d
        (map out_name cols)
        (map (λ c, denote_expr_under p c.1) cols)
        (denote_from_under p f)
        (map (λ j, (j.1.1, denote_from_under p j.1.2, denote_expr_under p j.2))
             js)
        (match w with Some e => Some (denote_expr_under p e) | None => None end)
        (is_aggregate cols g o)
        (map (denote_expr_under p) g)
        (map (λ c, (order_key c.1 (denote_expr_under p c.1), c.2)) o)
        l
  end

with denote_from_under (p : plan) (f : from_item) : database → result rel :=
  match f with
  | FTable t a => λ db, tb ← lookup_table db t; mret (scan (default t a) tb)
  | FSub q a => λ db,
      tb ← denote_select_under p q db; mret (scan (default "" a) tb)
  end.

Abbreviation denote_expr := (denote_expr_under AsRead).
Abbreviation denote_select := (denote_select_under AsRead).
Abbreviation denote_from := (denote_from_under AsRead).

(** ** Statements and the engine's entry point *)

Definition no_rows : table := Table [] [].

Definition set_column (cols : list string) (c : string) (v : value)
    (r : list value) : list value :=
  zip_with (λ n x, if bool_decide (n = c) then v else x) cols
           (fit (length cols) r).

Definition exec_statement_under (p : plan) (s : statement) (db : database)
  : result table * database :=
  match s with
  | SSelect q => (denote_select_under p q db, db)
  | SCreateTable t cols =>
      match db !! t with
      | Some _ => (fail ("table " +:+ t +:+ " already exists"), db)
      | None => (mret no_rows, <[t := Table cols []]> db)
      end
  | SInsert t vals =>
      match db !! t with
      | Some tb =>
          if bool_decide (length vals = length (t_cols tb)) then
            (mret no_rows, <[t := Table (t_cols tb) (t_rows tb ++ [vals])]> db)
          else (fail ("wrong number of values for table " +:+ t), db)
      | None => (fail ("no such table: " +:+ t), db)
      end
  | SUpdate t c v =>
      match db !! t with
      | Some tb =>
          if bool_decide (c ∈ t_cols tb) then
            (mret no_rows,
             <[t := Table (t_cols tb) (map (set_column (t_cols tb) c v) (t_rows tb))]> db)
          else (fail ("no such column: " +:+ c), db)
      | None => (fail ("no such table: " +:+ t), db)
      end
  | SDelete t =>
      match db !! t with
      | Some tb => (mret no_rows, <[t := Table (t_cols tb) []]> db)
      | None => (fail ("no such table: " +:+ t), db)
      end
  | SDropTable t =>
      match db !! t with
      | Some _ => (mret no_rows, delete t db)
      | None => (fail ("no such table: " +:+ t), db)
      end
  end.

Abbreviation exec_statement := (exec_statement_under AsRead).

(** [sqlite_execute_under p sql db]: what the engine answers to the text [sql]
    on the database [db] under the plan [p], and the database afterwards. *)
Definition sqlite_execute_under (p : plan) (sql : string) (db : database)
  : result table * database :=
  match parse_sql sql with
  | Some s => exec_statement_under p s db
  | None => (fail "syntax error", db)
  end.

Abbreviation sqlite_execute := (sqlite_execute_under AsRead).

(** ** The notebook's SQL texts

    Each text is the string literal of its cell, character for character; a
    literal is written here as its lines, joined by newlines ([dq] is the
    double quote). *)

Definition sql_lines (ls : list string) : string := String.concat nl ls.

Definition sql_departures : string := sql_lines
  ["";
   "    SELECT ";
   "        source AS depart_airport";
   "        , COUNT() AS number_of_departures";
   "    FROM";
   "        routes";
   "    GROUP BY";
   "        source";
   ""].

Definition sql_avg_departures : string := sql_lines
  ["";
   "    SELECT AVG(number_of_departures)";
   "    FROM ";
   "        (SELECT ";
   "            source AS depart_airport";
   "            , COUNT() AS number_of_departures";
   "        FROM";
   "            routes";
   "        GROUP BY";
   "            source)";
   ""].

Definition sql_top_countries : string := sql_lines
  ["";
   "    SELECT ";
   "        country,  ";
   "        COUNT() AS number_of_airports_in_country";
   "    FROM";
   "        airports";
   "    GROUP BY";
   "        country";
   "    ORDER BY";
   "        number_of_airports_in_country DESC";
   "    LIMIT 5";
   ""].

Definition sql_routes_listed : string := sql_lines
  ["";
   "    SELECT ";
   "        rt.source AS depart_airport, ";
   "        rt.dest AS destination_airport, ";
   "        ap.country AS depart_country";
   "    FROM";
   "        routes AS rt";
   "    LEFT JOIN airports AS ap";
   "        ON rt.source_id = ap.id";
   ("    WHERE ap.country IN (" +:+ dq +:+ "United States" +:+ dq +:+ ", " +:+ dq +:+ "Canada" +:+ dq +:+ ", " +:+ dq +:+ "Germany" +:+ dq +:+ ", " +:+ dq +:+ "Australia" +:+ dq +:+ ", " +:+ dq +:+ "Russia" +:+ dq +:+ ")");
   "    ORDER BY depart_country";
   ""].

Definition sql_routes_subquery : string := sql_lines
  ["";
   "    SELECT ";
   "        rt.source AS depart_airport, ";
   "        rt.dest AS destination_airport, ";
   "        ap.country AS depart_country";
   "    FROM";
   "        routes AS rt";
   "    LEFT JOIN airports AS ap";
   "        ON rt.source_id = ap.id";
   "    WHERE ap.country IN ";
   "    -- Subquery to get the 5 countries with the most airports";
   "    ";
   "        (SELECT country ";
   "         FROM airports";
   "         GROUP BY country";
   "         ORDER BY COUNT() DESC";
   "         LIMIT 5)";
   "    ";
   "    ORDER BY depart_country";
   ""].

Definition sql_routes_cte : string := sql_lines
  ["";
   "";
   "    WITH top_5_countries AS ";
   "        (SELECT country ";
   "         FROM airports";
   "         GROUP BY country";
   "         ORDER BY COUNT() DESC";
   "         LIMIT 5) ";
   "    ";
   "    SELECT ";
   "        rt.source AS depart_airport, ";
   "        rt.dest AS destination_airport, ";
   "        ap.country AS depart_country";
   "    FROM";
   "        routes AS rt";
   "    LEFT JOIN airports AS ap";
   "        ON rt.source_id = ap.id";
   "    WHERE ap.country IN top_5_countries";
   "    ";
   "    ORDER BY depart_country";
   ""].

Definition sql_exercise : string := sql_lines
  ["";
   "        WITH top_3_airports AS";
   "            (SELECT source_id";
   "            FROM routes";
   "            GROUP BY source_id";
   "            ORDER BY COUNT() DESC";
   "            LIMIT 3)";
   "        ";
   "        SELECT DISTINCT a.name";
   "        FROM airlines AS a";
   "        JOIN routes AS r";
   "            ON a.id = r.airline_id";
   "        WHERE r.source_id IN top_3_airports OR r.dest_id IN top_3_airports";
   "        ;";
   "        "].

Arguments sql_departures : simpl never.
Arguments sql_avg_departures : simpl never.
Arguments sql_top_countries : simpl never.
Arguments sql_routes_listed : simpl never.
Arguments sql_routes_subquery : simpl never.
Arguments sql_routes_cte : simpl never.
Arguments sql_exercise : simpl never.

(** ** The Python kernel

    What persists between cells: the module-level names, the database files on
    disk, the connections that were opened, and (for stating what the notebook
    did) the calls it made into [sqlite3] and [pandas], in order.  What the
    kernel finds around it and does not change: the modules that are
    installed, and whether it may create files in its directory. *)

Inductive builtin : Type :=
| Fn_connect
| Fn_read_sql
| Fn_close (h : nat).

Inductive pyval : Type :=
| PyNone
| PyStr (s : string)
| PyModule (m : string)
| PyConn (h : nat)
| PyFrame (t : table)
| PyFn (f : builtin).

(** The exceptions a cell can end with.  [SqliteError e] is the exception of
    [sqlite3] for the engine's error [e], raised as such.  [DatabaseError sql
    e] is the exception [pandas] raises in its place when the engine fails
    while [pd.read_sql] has it execute [sql]: another class, whose message
    quotes the text [sql] before the engine's message. *)
Inductive exn : Type :=
| NameError (x : string)
| AttributeError (a : string)
| TypeError (msg : string)
| ModuleNotFoundError (m : string)
| SqliteError (e : sqlite_error)
| DatabaseError (sql : string) (cause : sqlite_error).

#[global] Instance builtin_eq_dec : EqDecision builtin.
Proof. solve_decision. Defined.
#[global] Instance pyval_eq_dec : EqDecision pyval.
Proof. solve_decision. Defined.
#[global] Instance exn_eq_dec : EqDecision exn.
Proof. solve_decision. Defined.

Record connection : Type := Connection {
  conn_path : string;
  conn_open : bool
}.

Inductive event : Type :=
| Connect (path : string) (h : nat)
| ReadSql (sql : string) (h : nat) (answer : result table)
| Close (h : nat).

Record kernel : Type := Kernel {
  globals : gmap string pyval;
  files : gmap string database;
  conns : list connection;
  trace : list event;
  installed : list string;
  writable : bool
}.

(** A freshly started kernel where the two modules of the notebook are
    installed, in a directory that holds the files [fs] and in which it may
    create files. *)
Definition boot (fs : gmap string database) : kernel :=
  Kernel ∅ fs [] [] ["pandas"; "sqlite3"] true.

(** Python code: it may change the kernel and ends with a value or an
    exception; what it changed before raising stays changed. *)
Definition py (A : Type) : Type := kernel → (exn + A) * kernel.

#[global] Instance py_ret : MRet py := λ A a k, (inr a, k).
#[global] Instance py_bind : MBind py :=
  λ A B f m k, match m k with
               | (inr a, k') => f a k'
               | (inl e, k') => (inl e, k')
               end.

Definition raise {A} (e : exn) : py A := λ k, (inl e, k).

Definition load_name (x : string) : py pyval :=
  λ k, match globals k !! x with
       | Some v => (inr v, k)
       | None => (inl (NameError x), k)
       end.

Definition store_name (x : string) (v : pyval) : py unit :=
  λ k, (inr (), Kernel (<[x := v]> (globals k)) (files k) (conns k) (trace k)
                       (installed k) (writable k)).

Definition among (l : list string) (m : string) : bool :=
  existsb (String.eqb m) l.

Arguments among !l m /.

(** [import m as x]: the name is bound when the module is installed. *)
Definition import_as (m x : string) : py unit :=
  λ k, if among (installed k) m then store_name x (PyModule m) k
       else (inl (ModuleNotFoundError m), k).

(** [v.a], for the attributes the notebook can reach. *)
Definition getattr (v : pyval) (a : string) : py pyval :=
  match v with
  | PyModule m =>
      if String.eqb m "sqlite3" && String.eqb a "connect" then mret (PyFn Fn_connect)
      else if String.eqb m "pandas" && String.eqb a "read_sql" then mret (PyFn Fn_read_sql)
      else raise (AttributeError a)
  | PyConn h =>
      if String.eqb a "close" then mret (PyFn (Fn_close h))
      else raise (AttributeError a)
  | _ => raise (AttributeError a)
  end.

(** The database engine, as the kernel sees it, its plan being fixed: a text
    and the content of the database file in, an answer and the content
    afterwards out. *)
Class Engine : Type :=
  execute : string → database → result table * database.


Definition sqlite : Engine := sqlite_execute.

(** [sqlite3.connect(path)]: a file that is there is opened as it is; one that
    is not is created, empty, and that fails where the kernel may not create
    files.  The new connection gets the next free handle. *)
Definition sqlite3_connect (path : string) : py pyval :=
  λ k, let h := length (conns k) in
       let connected fs :=
         (inr (PyConn h),
          Kernel (globals k) fs (conns k ++ [Connection path true])
                 (trace k ++ [Connect path h]) (installed k) (writable k)) in
       match files k !! path with
       | Some _ => connected (files k)
       | None =>
           if writable k then connected (<[path := ∅]> (files k))
           else (inl (SqliteError
                        (OperationalError "unable to open database file")), k)
       end.

(** [conn.close()] *)
Definition connection_close (h : nat) : py pyval :=
  λ k, match conns k !! h with
       | Some c =>
           (inr PyNone,
            Kernel (globals k) (files k)
                   (<[h := Connection (conn_path c) false]> (conns k))
                   (trace k ++ [Close h]) (installed k) (writable k))
       | None => (inl (TypeError "not a connection"), k)
       end.

(** What [pd.read_sql] returns or raises for the engine's answer to [sql]. *)
Definition shown (sql : string) (r : result table) : exn + option pyval :=
  match r with
  | inr t => inr (Some (PyFrame t))
  | inl e => inl (DatabaseError sql e)
  end.

(** A code cell ends with the value the notebook shows under it, if any. *)
Definition cell : Type := py (option pyval).

Section Glue.
Context {E : Engine}.

(** [pd.read_sql(sql, conn)]: a cursor is taken from the connection, which a
    closed connection refuses with the exception of [sqlite3]; then the text
    goes to the engine as it is, on the database of the connection.  The rows
    come back as a frame; an error of the engine is caught and
    [DatabaseError] raised in its place. *)
Definition pd_read_sql (sql : string) (h : nat) : py pyval :=
  λ k, match conns k !! h with
       | None => (inl (TypeError "not a connection"), k)
       | Some c =>
           if conn_open c then
             match files k !! conn_path c with
             | None =>
                 (inl (DatabaseError sql
                         (OperationalError "unable to open database file")), k)
             | Some db =>
                 let '(r, db') := execute sql db in
                 (match r with
                  | inr t => inr (PyFrame t)
                  | inl e => inl (DatabaseError sql e)
                  end,
                  Kernel (globals k) (<[conn_path c := db']> (files k))
                         (conns k) (trace k ++ [ReadSql sql h r])
                         (installed k) (writable k))
             end
           else
             (inl (SqliteError
                     (ProgrammingError "Cannot operate on a closed database.")), k)
       end.

(** [f(args)] *)
Definition call (f : pyval) (args : list pyval) : py pyval :=
  match f, args with
  | PyFn Fn_connect, [PyStr path] => sqlite3_connect path
  | PyFn Fn_read_sql, [PyStr sql; PyConn h] => pd_read_sql sql h
  | PyFn (Fn_close h), [] => connection_close h
  | PyFn _, _ => raise (TypeError "bad arguments")
  | _, _ => raise (TypeError "object is not callable")
  end.

(** [import pandas as pd] / [import sqlite3] *)
Definition cell_imports : cell :=
  import_as "pandas" "pd" ;;
  import_as "sqlite3" "sqlite3" ;;
  mret None.

(** [conn = sqlite3.connect('flights.db')] *)
Definition cell_connect : cell :=
  m ← load_name "sqlite3";
  f ← getattr m "connect";
  c ← call f [PyStr "flights.db"];
  store_name "conn" c ;;
  mret None.

(** [pd.read_sql('''...''', conn)] *)
Definition read_sql_cell (sql : string) : cell :=
  m ← load_name "pd";
  f ← getattr m "read_sql";
  c ← load_name "conn";
  df ← call f [PyStr sql; c];
  mret (Some df).

Definition cell_departures : cell := read_sql_cell sql_departures.

Definition cell_avg_departures : cell := read_sql_cell sql_avg_departures.

Definition cell_top_countries : cell := read_sql_cell sql_top_countries.

Definition cell_routes_listed : cell := read_sql_cell sql_routes_listed.

Definition cell_routes_subquery : cell := read_sql_cell sql_routes_subquery.

Definition cell_routes_cte : cell := read_sql_cell sql_routes_cte.

(** [query = '''...'''] / [pd.read_sql(query, conn)] *)
Definition cell_exercise : cell :=
  store_name "query" (PyStr sql_exercise) ;;
  m ← load_name "pd";
  f ← getattr m "read_sql";
  q ← load_name "query";
  c ← load_name "conn";
  df ← call f [q; c];
  mret (Some df).

(** The cells that query, each with the text it submits. *)
Definition queries : list (cell * string) :=
  [(cell_departures, sql_departures);
   (cell_avg_departures, sql_avg_departures);
   (cell_top_countries, sql_top_countries);
   (cell_routes_listed, sql_routes_listed);
   (cell_routes_subquery, sql_routes_subquery);
   (cell_routes_cte, sql_routes_cte);
   (cell_exercise, sql_exercise)].

Definition query_cells : list cell := map fst queries.

Definition notebook : list cell :=
  cell_imports :: cell_connect :: query_cells.

(** Running cells one after the other, top to bottom; a cell that raises
    shows its exception and the next cell is run all the same. *)
Fixpoint run_all (cells : list cell) (k : kernel)
  : list (exn + option pyval) * kernel :=
  match cells with
  | [] => ([], k)
  | c :: cs =>
      let '(o, k1) := c k in
      let '(os, k2) := run_all cs k1 in
      (o :: os, k2)
  end.

(** The answers of the engine to texts submitted one after the other, and
    the database they leave. *)
Fixpoint answers (sqls : list string) (db : database) : list (result table) :=
  match sqls with
  | [] => []
  | sql :: rest => (execute sql db).1 :: answers rest (execute sql db).2
  end.

Fixpoint final_db (sqls : list string) (db : database) : database :=
  match sqls with
  | [] => db
  | sql :: rest => final_db rest (execute sql db).2
  end.
End Glue.

Definition notebook_sql : list string :=
  [sql_departures; sql_avg_departures; sql_top_countries; sql_routes_listed;
   sql_routes_subquery; sql_routes_cte; sql_exercise].

(** ** Vocabulary of the properties *)

Definition is_select (sql : string) : bool :=
  match parse_sql sql with
  | Some (SSelect _) => true
  | _ => false
  end.

(** The kernel is in a session on [db]: [pd] is pandas, [conn] an open
    connection, and the file behind it holds [db]. *)
Definition session (k : kernel) (h : nat) (p : string) (db : database) : Prop :=
  globals k !! "pd" = Some (PyModule "pandas")
  ∧ globals k !! "conn" = Some (PyConn h)
  ∧ conns k !! h = Some (Connection p true)
  ∧ files k !! p = Some db.

(** All that a querying cell looks at. *)
Definition view (k : kernel)
  : option pyval * option pyval * list connection * gmap string database :=
  (globals k !! "pd", globals k !! "conn", conns k, files k).

Definition set_query (k : kernel) : kernel :=
  Kernel (<["query" := PyStr sql_exercise]> (globals k)) (files k) (conns k)
         (trace k) (installed k) (writable k).

Definition is_pandas (v : pyval) : bool :=
  match v with PyModule m => String.eqb m "pandas" | _ => false end.

(** Every querying cell is [read_sql_cell] on its text, the last one after
    binding [query]. *)
Definition reads_as `{E : Engine} (c : cell) (sql : string) : Prop :=
  (∀ k, c k = read_sql_cell sql k)
  ∨ (∀ k, c k = read_sql_cell sql (set_query k)).

(** The kernel after the first two cells, started among the files [fs]. *)
Definition opened (fs : gmap string database) : kernel :=
  Kernel (<["conn" := PyConn 0]>
            (<["sqlite3" := PyModule "sqlite3"]>
               (<["pd" := PyModule "pandas"]> ∅)))
         (match fs !! "flights.db" with
          | Some _ => fs
          | None => <["flights.db" := ∅]> fs
          end)
         [Connection "flights.db" true]
         [Connect "flights.db" 0]
         ["pandas"; "sqlite3"] true.

(** The calls recorded in a trace. *)
Definition submitted (tr : list event) : list string :=
  omap (λ ev, match ev with ReadSql sql _ _ => Some sql | _ => None end) tr.

Definition answered (tr : list event) : list (result table) :=
  omap (λ ev, match ev with ReadSql _ _ a => Some a | _ => None end) tr.

Definition is_close (ev : event) : bool :=
  match ev with Close _ => true | _ => false end.

(** *** Names shared between cells *)

(** The kernel with the name [x] bound to [v], or unbound. *)
Definition rebind (x : string) (v : option pyval) (k : kernel) : kernel :=
  Kernel (partial_alter (λ _, v) x (globals k)) (files k) (conns k) (trace k)
         (installed k) (writable k).

(** All there is to see of a run of a cell, but for the binding of [x]. *)
Definition observe_but (x : string) (r : (exn + option pyval) * kernel)
  : (exn + option pyval) * gmap string pyval * gmap string database
    * list connection * list event :=
  (r.1, delete x (globals r.2), files r.2, conns r.2, trace r.2).

(** A cell assigns [x] when running it can change what [x] is bound to; it
    consumes [x] when what it does depends on what [x] is bound to. *)
Definition assigns (c : cell) (x : string) : Prop :=
  ∃ k, globals (c k).2 !! x ≠ globals k !! x.

Definition consumes (c : cell) (x : string) : Prop :=
  ∃ k v, observe_but x (c (rebind x v k)) ≠ observe_but x (c k).

(** [x] is shared: a cell assigns it and a later cell consumes it. *)
Definition shared `{E : Engine} (x : string) : Prop :=
  ∃ i j ci cj, (i < j)%nat
    ∧ notebook !! i = Some ci ∧ notebook !! j = Some cj
    ∧ assigns ci x ∧ consumes cj x.

(** *** References to common table expressions *)

Definition ref_count (n t : string) : nat :=
  if bool_decide (t = n) then 1%nat else 0%nat.

(** How often the table name [n] is referred to in an expression, a query or
    a FROM item. *)
Fixpoint refs_expr (n : string) (e : expr) : nat :=
  match e with
  | EAvg a => refs_expr n a
  | EEq a b | EOr a b => (refs_expr n a + refs_expr n b)%nat
  | EInList a items => (refs_expr n a + sum_list (map (refs_expr n) items))%nat
  | EInSelect a q => (refs_expr n a + refs_select n q)%nat
  | EInTable a t => (refs_expr n a + ref_count n t)%nat
  | _ => 0%nat
  end
with refs_select (n : string) (q : select) : nat :=
  match q with
  | Select ctes _ cols f js w g o _ =>
      (sum_list (map (λ c, refs_select n c.2) ctes)
       + sum_list (map (λ c, refs_expr n c.1) cols)
       + refs_from n f
       + sum_list (map (λ j, refs_from n j.1.2 + refs_expr n j.2) js)
       + match w with Some e => refs_expr n e | None => 0 end
       + sum_list (map (refs_expr n) g)
       + sum_list (map (λ c, refs_expr n c.1) o))%nat
  end
with refs_from (n : string) (f : from_item) : nat :=
  match f with
  | FTable t _ => ref_count n t
  | FSub q _ => refs_select n q
  end.

(** The query that follows the WITH clause. *)
Definition main_query (q : select) : select :=
  match q with Select _ d cols f js w g o l => Select [] d cols f js w g o l end.

(** Each common table expression of a text, with the number of references to
    it in the query that follows its definition. *)
Definition cte_uses (sql : string) : list (string * nat) :=
  match parse_sql sql with
  | Some (SSelect q) =>
      map (λ c, (c.1, refs_select c.1 (main_query q))) (sel_ctes q)
  | _ => []
  end.

Definition notebook_ctes : list (string * nat) :=
  concat (map cte_uses notebook_sql).

(** *** An example database *)

(** A small flights database for the examples: two airlines share the name
    Alpha, and five airports tie for second place in outbound routes. *)
Definition demo_flights : database :=
  <["airlines" := Table ["id"; "name"]
      [[VInt 1; VText "Alpha"]; [VInt 2; VText "Beta"]; [VInt 3; VText "Gamma"];
       [VInt 4; VText "Alpha"]; [VNull; VText "Nil"]]]>
  (<["airports" := Table ["id"; "country"]
      [[VInt 10; VText "US"]; [VInt 11; VText "US"]; [VInt 12; VText "CA"];
       [VInt 13; VText "DE"]; [VInt 14; VNull]]]>
  (<["routes" := Table ["airline_id"; "source"; "source_id"; "dest"; "dest_id"]
      [[VInt 1; VText "AAA"; VInt 10; VText "BBB"; VInt 11];
       [VInt 1; VText "AAA"; VInt 10; VText "CCC"; VInt 12];
       [VInt 2; VText "BBB"; VInt 11; VText "AAA"; VInt 10];
       [VInt 4; VText "CCC"; VInt 12; VText "DDD"; VInt 13];
       [VInt 3; VText "DDD"; VInt 13; VText "EEE"; VInt 14];
       [VInt 3; VText "EEE"; VInt 14; VText "DDD"; VInt 13];
       [VNull; VText "ZZZ"; VInt 99; VText "AAA"; VInt 10]]]> ∅)).

Definition demo_files : gmap string database := {["flights.db" := demo_flights]}.

(** ** The statements as parsed

    What the parser makes of the notebook's texts, written out; that it does
    is checked text by text below.  The three listings of routes differ in
    their WITH and WHERE clauses only. *)

(** [SELECT source AS depart_airport, COUNT() AS number_of_departures
    FROM routes GROUP BY source] *)
Definition q_departures : select :=
  Select [] false
    [(ECol None "source", Some "depart_airport");
     (ECount, Some "number_of_departures")]
    (FTable "routes" None) [] None [ECol None "source"] [] None.

(** [SELECT AVG(number_of_departures) FROM (...)], over the statement
    before. *)
Definition q_avg_departures : select :=
  Select [] false [(EAvg (ECol None "number_of_departures"), None)]
    (FSub q_departures None) [] None [] [] None.

(** [SELECT country, COUNT() AS number_of_airports_in_country FROM airports
    GROUP BY country ORDER BY number_of_airports_in_country DESC LIMIT 5] *)
Definition q_top_countries : select :=
  Select [] false
    [(ECol None "country", None);
     (ECount, Some "number_of_airports_in_country")]
    (FTable "airports" None) [] None [ECol None "country"]
    [(ECol None "number_of_airports_in_country", true)] (Some 5%nat).

(** [SELECT country FROM airports GROUP BY country ORDER BY COUNT() DESC
    LIMIT 5], the subquery and the common table expression of the listings. *)
Definition q_top5 : select :=
  Select [] false [(ECol None "country", None)] (FTable "airports" None) []
    None [ECol None "country"] [(ECount, true)] (Some 5%nat).

(** [rt.source AS depart_airport, rt.dest AS destination_airport,
    ap.country AS depart_country] *)
Definition routes_cols : list (expr * option string) :=
  [(ECol (Some "rt") "source", Some "depart_airport");
   (ECol (Some "rt") "dest", Some "destination_airport");
   (ECol (Some "ap") "country", Some "depart_country")].

(** [LEFT JOIN airports AS ap ON rt.source_id = ap.id] *)
Definition routes_joins : list (join_kind * from_item * expr) :=
  [(LeftJoin, FTable "airports" (Some "ap"),
    EEq (ECol (Some "rt") "source_id") (ECol (Some "ap") "id"))].

(** [SELECT ... FROM routes AS rt LEFT JOIN ... WHERE w
    ORDER BY depart_country], after the WITH clause [ctes]. *)
Definition routes_query (ctes : list (string * select)) (w : expr) : select :=
  Select ctes false routes_cols (FTable "routes" (Some "rt")) routes_joins
    (Some w) [] [(ECol None "depart_country", false)] None.

(** The five names the fourth query is written with. *)
Definition listed : list string :=
  ["United States"; "Canada"; "Germany"; "Australia"; "Russia"].

(** They are written in double quotes. *)
Definition listed_countries : list expr := map EDq listed.

Definition q_routes_listed : select :=
  routes_query [] (EInList (ECol (Some "ap") "country") listed_countries).

Definition q_routes_subquery : select :=
  routes_query [] (EInSelect (ECol (Some "ap") "country") q_top5).

Definition q_routes_cte : select :=
  routes_query [("top_5_countries", q_top5)]
    (EInTable (ECol (Some "ap") "country") "top_5_countries").

(** [SELECT source_id FROM routes GROUP BY source_id ORDER BY COUNT() DESC
    LIMIT 3] *)
Definition q_top3 : select :=
  Select [] false [(ECol None "source_id", None)] (FTable "routes" None) []
    None [ECol None "source_id"] [(ECount, true)] (Some 3%nat).

(** [WITH top_3_airports AS (...) SELECT DISTINCT a.name FROM airlines AS a
    JOIN routes AS r ON a.id = r.airline_id WHERE r.source_id IN
    top_3_airports OR r.dest_id IN top_3_airports] *)
Definition q_exercise : select :=
  Select [("top_3_airports", q_top3)] true [(ECol (Some "a") "name", None)]
    (FTable "airlines" (Some "a"))
    [(InnerJoin, FTable "routes" (Some "r"),
      EEq (ECol (Some "a") "id") (ECol (Some "r") "airline_id"))]
    (Some (EOr (EInTable (ECol (Some "r") "source_id") "top_3_airports")
               (EInTable (ECol (Some "r") "dest_id") "top_3_airports")))
    [] [] None.

Arguments q_top5 : simpl never.
Arguments q_top3 : simpl never.

(** ** Vocabulary of the answers *)

(** Column [i] of a table, top to bottom. *)
Definition column (i : nat) (t : table) : list value :=
  map (λ r, nth i r VNull) (t_rows t).

(** How many of [vs] equal [v], as the engine compares values. *)
Definition count_of (v : value) (vs : list value) : Z :=
  Z.of_nat (length (List.filter (same_value v) vs)).

(** The values of column [c] of the stored table [tb], one for each row. *)
Definition read_column (tbl c : string) (tb : table) : result (list value) :=
  mapM (λ r, resolve (rel_names (scan tbl tb)) r None c) (rel_rows (scan tbl tb)).

(** No two of the values occur equally often: ranked by their counts, they
    do not tie. *)
Definition untied (vs : list value) : Prop :=
  ∀ v w, v ∈ vs → w ∈ vs → count_of v vs = count_of w vs → v = w.

(** So it is with the values of column [c] of the stored table [tbl]. *)
Definition column_untied (tbl c : string) (db : database) : Prop :=
  ∀ tb vs, db !! tbl = Some tb → read_column tbl c tb = inr vs → untied vs.

(** LIMIT cuts through no tie: the third text, the subquery and the common
    table expression of the listings rank the countries of [airports] by their
    counts, the exercise ranks the airports that routes leave. *)
Definition no_cut_ties (sql : string) (db : database) : Prop :=
  (sql ∈ [sql_top_countries; sql_routes_subquery; sql_routes_cte] →
   column_untied "airports" "country" db)
  ∧ (sql = sql_exercise → column_untied "routes" "source_id" db).

(** The quotient [n / d], and NULL over nothing: what AVG gives for [d]
    whole numbers that add up to [n]. *)
Definition ratio (n d : nat) : value :=
  match d with
  | O => VNull
  | _ => VReal (Qred (Qdiv (inject_Z (Z.of_nat n)) (inject_Z (Z.of_nat d))))
  end.

(** The three texts that list routes, and the names of their columns. *)
Definition routes_texts : list string :=
  [sql_routes_listed; sql_routes_subquery; sql_routes_cte].

Definition routes_names : list string :=
  ["depart_airport"; "destination_airport"; "depart_country"].

(** The columns in scope in them, after the join. *)
Definition routes_scope (routes airports : table) : list (string * string) :=
  map (λ c, ("rt", c)) (t_cols routes) ++ map (λ c, ("ap", c)) (t_cols airports).

(** An airline [v] is shown for a route it flies that leaves or reaches one of
    the airports [top]. *)
Definition serves (airlines routes : table) (top : list value) (v : value)
  : Prop :=
  ∃ a r ida idr x,
    a ∈ rel_rows (scan "a" airlines)
    ∧ r ∈ rel_rows (scan "r" routes)
    ∧ resolve (rel_names (scan "a" airlines)) a (Some "a") "name" = inr v
    ∧ resolve (rel_names (scan "a" airlines)) a (Some "a") "id" = inr ida
    ∧ resolve (rel_names (scan "r" routes)) r (Some "r") "airline_id" = inr idr
    ∧ truth (sql_eq ida idr) = Some true
    ∧ (resolve (rel_names (scan "r" routes)) r (Some "r") "source_id" = inr x
       ∨ resolve (rel_names (scan "r" routes)) r (Some "r") "dest_id" = inr x)
    ∧ existsb (same_value x) top = true.

(** ** Grouping, as an invariant

    While GROUP BY reads its input, the groups formed so far are kept with
    their keys. *)

(** The groups formed so far, each with its key. *)
Definition keyed_groups : Type := list (list value * list (list value)).

(** Every group starts with a row whose key is the key of the group. *)
Definition headed (seen : list (list value * list value))
    (kg : list value * list (list value)) : Prop :=
  ∃ r0 rest, kg.2 = r0 :: rest ∧ (kg.1, r0) ∈ seen.

(** The rows among [seen] whose key equals [k], in the order read. *)
Definition members (seen : list (list value * list value)) (k : list value)
  : list (list value) :=
  map snd (List.filter (λ kr : list value * list value, same_row k kr.1) seen).

(** No key equals a later one. *)
Fixpoint apart (ks : list (list value)) : Prop :=
  match ks with
  | [] => True
  | k :: ks' => Forall (λ k', same_row k k' = false) ks' ∧ apart ks'
  end.

(** [gs] is the grouping of the keyed rows [seen]: the keys differ, each
    group holds the rows of its key, and every row read has its group. *)
Definition grouped (seen : list (list value * list value)) (gs : keyed_groups)
  : Prop :=
  apart (map fst gs)
  ∧ Forall (λ kg, kg.2 = members seen kg.1) gs
  ∧ Forall (λ kr, Exists (λ kg, same_row kg.1 kr.1 = true) gs) seen.

(** ** More of the example

    What the engine answers on [demo_flights], and a second small database
    whose countries are among those the fourth query names. *)

(** The departures per airport. *)
Definition demo_departures : table :=
  Table ["depart_airport"; "number_of_departures"]
    [[VText "AAA"; VInt 2]; [VText "BBB"; VInt 1]; [VText "CCC"; VInt 1];
     [VText "DDD"; VInt 1]; [VText "EEE"; VInt 1]; [VText "ZZZ"; VInt 1]].

(** The countries by number of airports: one airport has no country. *)
Definition demo_top_countries : table :=
  Table ["country"; "number_of_airports_in_country"]
    [[VText "US"; VInt 2]; [VNull; VInt 1]; [VText "CA"; VInt 1];
     [VText "DE"; VInt 1]].

(** The routes leaving those countries, as the fifth and the sixth text list
    them. *)
Definition demo_routes : table :=
  Table ["depart_airport"; "destination_airport"; "depart_country"]
    [[VText "CCC"; VText "DDD"; VText "CA"];
     [VText "DDD"; VText "EEE"; VText "DE"];
     [VText "AAA"; VText "BBB"; VText "US"];
     [VText "AAA"; VText "CCC"; VText "US"];
     [VText "BBB"; VText "AAA"; VText "US"]].

(** The airlines of the exercise. *)
Definition demo_names : table :=
  Table ["name"] [[VText "Alpha"]; [VText "Beta"]].

(** A database with country names in full; one route leaves an airport that
    is not in [airports]. *)
Definition demo_atlas : database :=
  <["airports" := Table ["id"; "country"]
      [[VInt 10; VText "Canada"]; [VInt 11; VText "France"];
       [VInt 12; VText "Germany"]]]>
  (<["routes" := Table ["source"; "source_id"; "dest"]
      [[VText "YUL"; VInt 10; VText "CDG"];
       [VText "CDG"; VInt 11; VText "YUL"];
       [VText "FRA"; VInt 12; VText "YUL"];
       [VText "XXX"; VInt 99; VText "YUL"]]]> ∅).

(** A database in which [airports] has a column named after a country. *)
Definition demo_lima : database :=
  <["airports" := Table ["id"; "country"; "canada"]
      [[VInt 10; VText "Peru"; VText "Peru"];
       [VInt 11; VText "Chile"; VText "Peru"]]]>
  (<["routes" := Table ["source"; "source_id"; "dest"]
      [[VText "LIM"; VInt 10; VText "YUL"];
       [VText "SCL"; VInt 11; VText "YUL"]]]> ∅).

(** A database in which no two countries have the same number of airports,
    and no two airports the same number of outbound routes. *)
Definition demo_ranked : database :=
  <["airlines" := Table ["id"; "name"]
      [[VInt 1; VText "Alpha"]; [VInt 2; VText "Beta"]; [VInt 3; VText "Gamma"];
       [VInt 4; VText "Delta"]]]>
  (<["airports" := Table ["id"; "country"]
      [[VInt 10; VText "US"]; [VInt 11; VText "US"]; [VInt 12; VText "US"];
       [VInt 13; VText "CA"]; [VInt 14; VText "CA"]; [VInt 15; VText "DE"]]]>
  (<["routes" := Table ["airline_id"; "source"; "source_id"; "dest"; "dest_id"]
      [[VInt 1; VText "AAA"; VInt 10; VText "BBB"; VInt 11];
       [VInt 1; VText "AAA"; VInt 10; VText "DDD"; VInt 13];
       [VInt 2; VText "AAA"; VInt 10; VText "FFF"; VInt 15];
       [VInt 2; VText "BBB"; VInt 11; VText "AAA"; VInt 10];
       [VInt 3; VText "BBB"; VInt 11; VText "DDD"; VInt 13];
       [VInt 3; VText "CCC"; VInt 12; VText "AAA"; VInt 10];
       [VInt 4; VText "EEE"; VInt 14; VText "FFF"; VInt 15];
       [VInt 4; VText "EEE"; VInt 14; VText "DDD"; VInt 13];
       [VInt 4; VText "EEE"; VInt 14; VText "CCC"; VInt 12];
       [VInt 4; VText "EEE"; VInt 14; VText "BBB"; VInt 11]]]> ∅)).

(** * Properties *)

(** ** The engine *)

Lemma notebook_sql_select : Forall (λ sql, is_select sql = true) notebook_sql.
Proof. repeat constructor; vm_compute; reflexivity. Qed.

Lemma select_read_only sql db :
  is_select sql = true → (sqlite_execute sql db).2 = db.
Proof.
  unfold is_select, sqlite_execute_under.
  destruct (parse_sql sql) as [[]|]; try discriminate; reflexivity.
Qed.

Lemma mapM_inr {A B} (f : A → result B) (l : list A) (l' : list B) :
  mapM f l = inr l' → Forall2 (λ x y, f x = inr y) l l'.
Proof.
  revert l'. induction l as [|x l IH]; intros l' H; cbn in H.
  - inversion H. constructor.
  - destruct (f x) as [e|y] eqn:Hx; [discriminate|]. cbn in H.
    destruct (mapM f l) as [e|ys]; [discriminate|]. cbn in H.
    inversion H. constructor; [exact Hx | apply IH; reflexivity].
Qed.

Lemma value_compare_refl v : value_compare v v = Eq.
Proof.
  destruct v as [|z|q|s]; cbn.
  - reflexivity.
  - apply Z.compare_refl.
  - apply Qeq_alt, Qeq_refl.
  - induction s as [|c s IH]; cbn; [reflexivity|].
    assert (Ascii.compare c c = Eq) as ->; [|exact IH].
    unfold Ascii.compare. apply N.compare_refl.
Qed.

Lemma same_row_refl r : same_row r r = true.
Proof.
  induction r as [|v r IH]; cbn; [reflexivity|].
  unfold same_value. rewrite value_compare_refl. exact IH.
Qed.

Lemma distinct_rows_sub {A} seen (us : list (list value * A)) :
  distinct_rows seen us ⊆ us.
Proof.
  revert seen. induction us as [|[r k] us IH]; intros seen; cbn; [done|].
  destruct (existsb (same_row r) seen).
  - intros x Hx. right. by apply (IH seen).
  - intros x [->|Hx]%elem_of_cons; [left|right; by apply (IH (r :: seen))].
Qed.

Lemma distinct_rows_unseen {A} seen (us : list (list value * A)) r :
  r ∈ seen → r ∉ (distinct_rows seen us).*1.
Proof.
  revert seen. induction us as [|[r' k] us IH]; intros seen Hr; cbn.
  - apply not_elem_of_nil.
  - destruct (existsb (same_row r') seen) eqn:Hex.
    + apply IH, Hr.
    + cbn. apply not_elem_of_cons; split.
      * intros ->. apply Bool.not_true_iff_false in Hex. apply Hex.
        apply existsb_exists. exists r'. split.
        -- apply list_elem_of_In, Hr.
        -- apply same_row_refl.
      * apply IH. right. exact Hr.
Qed.

Lemma distinct_rows_NoDup {A} seen (us : list (list value * A)) :
  NoDup (distinct_rows seen us).*1.
Proof.
  revert seen. induction us as [|[r k] us IH]; intros seen; cbn.
  - constructor.
  - destruct (existsb (same_row r) seen); [apply IH|].
    cbn. constructor; [|apply IH].
    apply distinct_rows_unseen. left.
Qed.

Lemma insert_by_perm {A} (le : A → A → bool) x l : insert_by le x l ≡ₚ x :: l.
Proof.
  induction l as [|y l IH]; cbn; [done|].
  destruct (le x y); [done|]. rewrite IH. apply Permutation_swap.
Qed.

Lemma sort_by_perm {A} (le : A → A → bool) l : sort_by le l ≡ₚ l.
Proof.
  induction l as [|x l IH]; cbn; [done|].
  rewrite insert_by_perm. by rewrite IH.
Qed.

Lemma apply_limit_sublist {A} l (xs : list A) : apply_limit l xs `sublist_of` xs.
Proof. destruct l; cbn; [apply sublist_take | done]. Qed.

(** Whatever its other clauses, a SELECT DISTINCT that answers at all answers
    with its columns named as written, rows as wide as its column list, and no
    row twice. *)
Lemma run_select_distinct ctes names cols from joins w agg g o l db t :
  run_select ctes true names cols from joins w agg g o l db = inr t →
  t_cols t = names
  ∧ NoDup (t_rows t)
  ∧ Forall (λ r, length r = length cols) (t_rows t).
Proof.
  unfold run_select_under. change (arrange AsRead ?d ?x) with x. intros H.
  destruct (with_ctes ctes db) as [?|db1]; [discriminate|]. cbn in H.
  destruct (from db1) as [?|R0]; [discriminate|]. cbn in H.
  destruct (apply_joins joins db1 R0) as [?|R1]; [discriminate|]. cbn in H.
  destruct (match w with Some _ => _ | None => _ end) as [?|rows];
    [discriminate|]. cbn in H.
  destruct (units _ _ _) as [?|us]; [discriminate|]. cbn in H.
  destruct (mapM _ us) as [?|outs] eqn:Houts; [discriminate|]. cbn in H.
  inversion H as [Ht]. subst t. clear H. cbn. split; [reflexivity|].
  set (sorted := sort_by _ _).
  assert (sorted ≡ₚ distinct_rows [] outs) as Hperm by apply sort_by_perm.
  assert (Forall (λ u : list value * list value, length u.1 = length cols) outs)
    as Hlen.
  { apply mapM_inr in Houts. clear -Houts.
    induction Houts as [|u out us outs Hu _ IH]; constructor; [|exact IH].
    destruct (mapM _ cols) as [?|out'] eqn:Hc; [discriminate|]. cbn in Hu.
    destruct (mapM _ o) as [?|ks]; [discriminate|]. cbn in Hu.
    inversion Hu. cbn. apply mapM_inr, Forall2_length in Hc. done. }
  split.
  - assert ((apply_limit l sorted).*1 `sublist_of` sorted.*1) as Hsub
      by apply (fmap_sublist fst), apply_limit_sublist.
    refine (sublist_NoDup _ _ _ Hsub).
    rewrite Hperm. apply distinct_rows_NoDup.
  - apply Forall_fmap, Forall_forall. intros u Hin. cbn.
    apply (sublist_subseteq _ _ (apply_limit_sublist l sorted)) in Hin.
    rewrite Hperm in Hin. apply distinct_rows_sub in Hin.
    rewrite Forall_forall in Hlen. apply Hlen, Hin.
Qed.

Lemma denote_select_under_eq p ctes d cols f js w g o l :
  denote_select_under p (Select ctes d cols f js w g o l) =
    run_select_under p
      (map (λ c, (c.1, denote_select_under p c.2)) ctes) d
      (map out_name cols)
      (map (λ c, denote_expr_under p c.1) cols)
      (denote_from_under p f)
      (map (λ j, (j.1.1, denote_from_under p j.1.2, denote_expr_under p j.2)) js)
      (match w with Some e => Some (denote_expr_under p e) | None => None end)
      (is_aggregate cols g o)
      (map (denote_expr_under p) g)
      (map (λ c, (order_key c.1 (denote_expr_under p c.1), c.2)) o)
      l.
Proof. reflexivity. Qed.

Lemma denote_select_eq ctes d cols f js w g o l :
  denote_select (Select ctes d cols f js w g o l) =
    run_select
      (map (λ c, (c.1, denote_select c.2)) ctes) d
      (map out_name cols)
      (map (λ c, denote_expr c.1) cols)
      (denote_from f)
      (map (λ j, (j.1.1, denote_from j.1.2, denote_expr j.2)) js)
      (match w with Some e => Some (denote_expr e) | None => None end)
      (is_aggregate cols g o)
      (map denote_expr g)
      (map (λ c, (order_key c.1 (denote_expr c.1), c.2)) o)
      l.
Proof. reflexivity. Qed.

Lemma distinct_select_answers q db t :
  sel_distinct q = true →
  denote_select q db = inr t →
  t_cols t = map out_name (sel_cols q)
  ∧ NoDup (t_rows t)
  ∧ Forall (λ r, length r = length (sel_cols q)) (t_rows t).
Proof.
  destruct q as [ctes d cols f js w g o l]. cbn [sel_distinct sel_cols].
  intros -> H. rewrite denote_select_eq in H.
  apply run_select_distinct in H. by rewrite length_map in H.
Qed.

Lemma exercise_is_distinct :
  ∃ q, parse_sql sql_exercise = Some (SSelect q)
       ∧ sel_distinct q = true
       ∧ map out_name (sel_cols q) = ["name"].
Proof. eexists. split; [vm_compute; reflexivity|]. split; reflexivity. Qed.

(** On the example database five airports tie behind the first; LIMIT 3 cuts
    the tie.  Under the plan that sorts the rows as they were read, the cut
    follows the order in which the rows are stored. *)
Example limit_cuts_ties :
  (sqlite_execute
     "SELECT source_id FROM routes GROUP BY source_id ORDER BY COUNT() DESC LIMIT 3"
     demo_flights).1
  = inr (Table ["source_id"] [[VInt 10]; [VInt 11]; [VInt 12]]).
Proof. vm_compute. reflexivity. Qed.

(** The same rows stored in another order are another state of the database,
    and a cut through rows that tie may fall elsewhere. *)
Example ties_follow_stored_order :
  let sql := "SELECT dest FROM routes ORDER BY source LIMIT 1" in
  let stored_backwards :=
    <["routes" := Table ["airline_id"; "source"; "source_id"; "dest"; "dest_id"]
        (reverse (t_rows (demo_flights !!! "routes")))]> demo_flights in
  (sqlite_execute sql demo_flights).1 = inr (Table ["dest"] [[VText "BBB"]])
  ∧ (sqlite_execute sql stored_backwards).1 = inr (Table ["dest"] [[VText "CCC"]]).
Proof. split; vm_compute; reflexivity. Qed.

(** The engine does write when told to; the notebook never tells it to. *)
Example delete_writes :
  (sqlite_execute "DELETE FROM routes" demo_flights).2 !! "routes"
  = Some (Table ["airline_id"; "source"; "source_id"; "dest"; "dest_id"] []).
Proof. vm_compute. reflexivity. Qed.

Example drop_writes :
  (sqlite_execute "DROP TABLE airlines;" demo_flights).2 !! "airlines" = None.
Proof. vm_compute. reflexivity. Qed.

(** ** The glue: what a cell reads, what it changes *)

Section GlueFacts.
Context {E : Engine}.

Lemma getattr_read_sql v :
  getattr v "read_sql" =
    if is_pandas v then mret (PyFn Fn_read_sql)
    else raise (AttributeError "read_sql").
Proof.
  destruct v; try reflexivity. cbn.
  rewrite andb_false_r, andb_true_r. reflexivity.
Qed.

(** [read_sql_cell], step by step. *)
Lemma read_sql_cell_unfold sql k :
  read_sql_cell sql k =
    match globals k !! "pd" with
    | None => (inl (NameError "pd"), k)
    | Some m =>
        if is_pandas m then
          match globals k !! "conn" with
          | None => (inl (NameError "conn"), k)
          | Some (PyConn h) =>
              match pd_read_sql sql h k with
              | (inr df, k') => (inr (Some df), k')
              | (inl e, k') => (inl e, k')
              end
          | Some _ => (inl (TypeError "bad arguments"), k)
          end
        else (inl (AttributeError "read_sql"), k)
    end.
Proof.
  unfold read_sql_cell, mbind, py_bind, load_name.
  destruct (globals k !! "pd") as [m|]; [|reflexivity].
  rewrite getattr_read_sql.
  destruct (is_pandas m); [|reflexivity]. cbn.
  destruct (globals k !! "conn") as [[]|]; try reflexivity.
Qed.

Lemma pd_read_sql_unfold sql h k :
  pd_read_sql sql h k =
    match conns k !! h with
    | None => (inl (TypeError "not a connection"), k)
    | Some (Connection p false) =>
        (inl (SqliteError
                (ProgrammingError "Cannot operate on a closed database.")), k)
    | Some (Connection p true) =>
        match files k !! p with
        | None =>
            (inl (DatabaseError sql
                    (OperationalError "unable to open database file")), k)
        | Some db =>
            (match (execute sql db).1 with
             | inr t => inr (PyFrame t)
             | inl e => inl (DatabaseError sql e)
             end,
             Kernel (globals k) (<[p := (execute sql db).2]> (files k))
                    (conns k) (trace k ++ [ReadSql sql h (execute sql db).1])
                    (installed k) (writable k))
        end
    end.
Proof.
  unfold pd_read_sql.
  destruct (conns k !! h) as [[p []]|]; try reflexivity. cbn.
  destruct (files k !! p) as [db|]; [|reflexivity].
  destruct (execute sql db); reflexivity.
Qed.

Lemma read_sql_cell_session sql k h p db :
  session k h p db →
  read_sql_cell sql k =
    (shown sql (execute sql db).1,
     Kernel (globals k) (<[p := (execute sql db).2]> (files k)) (conns k)
            (trace k ++ [ReadSql sql h (execute sql db).1])
            (installed k) (writable k)).
Proof.
  intros (Hpd & Hc & Hh & Hf).
  rewrite read_sql_cell_unfold, Hpd, Hc, pd_read_sql_unfold, Hh, Hf. cbn.
  destruct (execute sql db).1; reflexivity.
Qed.

Lemma cell_exercise_unfold k :
  cell_exercise k = read_sql_cell sql_exercise (set_query k).
Proof.
  rewrite read_sql_cell_unfold.
  unfold cell_exercise, mbind, py_bind, load_name, store_name, set_query. cbn.
  rewrite !lookup_insert_ne by done.
  destruct (globals k !! "pd") as [m|]; [|reflexivity].
  rewrite getattr_read_sql.
  destruct (is_pandas m); [|reflexivity]. cbn.
  rewrite lookup_insert_eq. cbn. rewrite lookup_insert_ne by done.
  destruct (globals k !! "conn") as [[]|]; try reflexivity.
Qed.

Lemma queries_read : Forall (λ cq, reads_as cq.1 cq.2) queries.
Proof.
  unfold queries.
  repeat (apply Forall_cons; split); try apply Forall_nil_2;
    try (left; reflexivity).
  right. apply cell_exercise_unfold.
Qed.

Lemma read_sql_cell_frame sql k :
  globals (read_sql_cell sql k).2 = globals k
  ∧ conns (read_sql_cell sql k).2 = conns k.
Proof.
  rewrite read_sql_cell_unfold.
  destruct (globals k !! "pd") as [m|]; [|done].
  destruct (is_pandas m); [|done].
  destruct (globals k !! "conn") as [[| | |h| |]|]; try done.
  rewrite pd_read_sql_unfold.
  destruct (conns k !! h) as [[p []]|]; try done.
  destruct (files k !! p) as [db|]; [|done].
  destruct (execute sql db).1; done.
Qed.

Lemma read_sql_cell_view sql k1 k2 :
  view k1 = view k2 →
  (read_sql_cell sql k1).1 = (read_sql_cell sql k2).1
  ∧ files (read_sql_cell sql k1).2 = files (read_sql_cell sql k2).2.
Proof.
  unfold view. intros [= Hpd Hc Hcs Hfs].
  rewrite !read_sql_cell_unfold, Hpd, Hc.
  destruct (globals k2 !! "pd") as [m|]; [|done].
  destruct (is_pandas m); [|done].
  destruct (globals k2 !! "conn") as [[| | |h| |]|]; try done.
  rewrite !pd_read_sql_unfold, Hcs, Hfs.
  destruct (conns k2 !! h) as [[p []]|]; try done.
  destruct (files k2 !! p) as [db|]; [|done].
  destruct (execute sql db).1; done.
Qed.

Lemma read_sql_cell_shows sql k t :
  (read_sql_cell sql k).1 = inr (Some (PyFrame t)) →
  ∃ db, (execute sql db).1 = inr t.
Proof.
  rewrite read_sql_cell_unfold.
  destruct (globals k !! "pd") as [m|]; [|done].
  destruct (is_pandas m); [|done].
  destruct (globals k !! "conn") as [[| | |h| |]|]; try done.
  rewrite pd_read_sql_unfold.
  destruct (conns k !! h) as [[p []]|]; try done.
  destruct (files k !! p) as [db|]; [|done].
  destruct (execute sql db).1 as [e|t'] eqn:He; [done|].
  cbn. intros [= ->]. by exists db.
Qed.

Lemma set_query_session k h p db :
  session k h p db → session (set_query k) h p db.
Proof.
  intros (Hpd & Hc & Hh & Hf). unfold session, set_query. cbn.
  rewrite !lookup_insert_ne by done. done.
Qed.

Lemma set_query_view k : view (set_query k) = view k.
Proof. unfold view, set_query. cbn. by rewrite !lookup_insert_ne by done. Qed.

Lemma run_all_cons c cs k :
  run_all (c :: cs) k =
    ((c k).1 :: (run_all cs (c k).2).1, (run_all cs (c k).2).2).
Proof.
  simpl. destruct (c k) as [o k1]. simpl.
  destruct (run_all cs k1). reflexivity.
Qed.

Lemma run_all_app cs1 cs2 k :
  run_all (cs1 ++ cs2) k =
    ((run_all cs1 k).1 ++ (run_all cs2 (run_all cs1 k).2).1,
     (run_all cs2 (run_all cs1 k).2).2).
Proof.
  revert k. induction cs1 as [|c cs1 IH]; intros k.
  - cbn. by destruct (run_all cs2 k).
  - rewrite <- app_comm_cons, !run_all_cons, IH. done.
Qed.

Lemma run_queries (qs : list (cell * string)) :
  Forall (λ cq, reads_as cq.1 cq.2) qs →
  ∀ k h p db, session k h p db →
    (run_all (map fst qs) k).1
    = zip_with shown (map snd qs) (answers (map snd qs) db)
    ∧ trace (run_all (map fst qs) k).2 =
        trace k ++ zip_with (λ sql a, ReadSql sql h a)
                            (map snd qs) (answers (map snd qs) db)
    ∧ conns (run_all (map fst qs) k).2 = conns k
    ∧ session (run_all (map fst qs) k).2 h p (final_db (map snd qs) db).
Proof.
  induction 1 as [|[c sql] qs Hc _ IH]; intros k h p db Hs.
  - cbn. rewrite app_nil_r. done.
  - cbn [map fst snd]. rewrite run_all_cons.
    cbn [fst snd answers final_db zip_with].
    assert (∃ k0, c k = read_sql_cell sql k0 ∧ session k0 h p db
                  ∧ conns k0 = conns k ∧ trace k0 = trace k) as (k0 & -> & Hs0 & Hc0 & Ht0).
    { destruct Hc as [Hc|Hc]; cbn in Hc.
      - exists k. by rewrite Hc.
      - exists (set_query k). rewrite Hc. by split; [|split; [apply set_query_session|]]. }
    rewrite (read_sql_cell_session _ _ _ _ _ Hs0). cbn [fst snd].
    set (k1 := Kernel _ _ _ _ _ _).
    assert (session k1 h p (execute sql db).2) as Hs1.
    { destruct Hs0 as (? & ? & ? & ?). unfold session, k1. cbn.
      rewrite lookup_insert_eq. done. }
    destruct (IH k1 h p _ Hs1) as (-> & -> & -> & Hs2).
    split; [done|]. split; [|split; [exact Hc0|exact Hs2]].
    unfold k1. cbn. rewrite Ht0, <- app_assoc. done.
Qed.

Lemma run_preamble fs :
  run_all [cell_imports; cell_connect] (boot fs) = ([inr None; inr None], opened fs).
Proof.
  rewrite !run_all_cons. cbn [run_all fst snd].
  unfold cell_imports, cell_connect, import_as, mbind, py_bind, store_name,
    load_name, boot. cbn.
  rewrite lookup_insert_eq. cbn. unfold sqlite3_connect, opened. cbn.
  destruct (fs !! "flights.db"); reflexivity.
Qed.

Lemma opened_session fs :
  session (opened fs) 0 "flights.db" (default ∅ (fs !! "flights.db")).
Proof.
  unfold session, opened. cbn.
  rewrite lookup_insert_eq, !lookup_insert_ne, lookup_insert_eq by done.
  repeat split.
  destruct (fs !! "flights.db") eqn:Hf; cbn; [done|apply lookup_insert_eq].
Qed.

Lemma notebook_split : notebook = [cell_imports; cell_connect] ++ map fst queries.
Proof. reflexivity. Qed.

Lemma submitted_reads h sqls ans :
  length ans = length sqls →
  submitted (zip_with (λ sql a, ReadSql sql h a) sqls ans) = sqls
  ∧ answered (zip_with (λ sql a, ReadSql sql h a) sqls ans) = ans
  ∧ Forall (λ ev, ∃ sql a, ev = ReadSql sql h a)
           (zip_with (λ sql a, ReadSql sql h a) sqls ans).
Proof.
  revert ans. induction sqls as [|sql sqls IH]; intros [|a ans] Hl;
    try discriminate; cbn.
  - done.
  - injection Hl as Hl. destruct (IH ans Hl) as (Hs & Ha & Hf).
    unfold submitted, answered in *. cbn. rewrite Hs, Ha.
    repeat split. constructor; eauto.
Qed.

Lemma answers_length sqls db : length (answers sqls db) = length sqls.
Proof. revert db. induction sqls; intros; cbn; auto. Qed.

Lemma queries_select c sql : (c, sql) ∈ queries → is_select sql = true.
Proof.
  intros Hin. apply (list_elem_of_fmap_2 snd) in Hin.
  change (snd <$> queries) with notebook_sql in Hin. cbn in Hin.
  exact (proj1 (Forall_forall _ _) notebook_sql_select _ Hin).
Qed.

Lemma query_cell_globals c sql k :
  (c, sql) ∈ queries →
  conns (c k).2 = conns k
  ∧ ∀ x, x ≠ "query" → globals (c k).2 !! x = globals k !! x.
Proof.
  intros Hin.
  pose proof (proj1 (Forall_forall _ _) queries_read _ Hin) as [Hc|Hc];
    cbn in Hc; rewrite Hc.
  - destruct (read_sql_cell_frame sql k) as [-> ->]. done.
  - destruct (read_sql_cell_frame sql (set_query k)) as [-> ->].
    split; [done|]. intros x Hx. cbn. by rewrite lookup_insert_ne.
Qed.

Lemma query_cell_outcome c sql k1 k2 :
  (c, sql) ∈ queries → view k1 = view k2 → (c k1).1 = (c k2).1.
Proof.
  intros Hin Hv.
  pose proof (proj1 (Forall_forall _ _) queries_read _ Hin) as [Hc|Hc];
    cbn in Hc; rewrite !Hc.
  - apply read_sql_cell_view, Hv.
  - apply read_sql_cell_view. by rewrite !set_query_view.
Qed.
End GlueFacts.

(** ** The notebook as a whole *)

(** The run on the example database, as the notebook would show it. *)
Example notebook_on_demo :
  (run_all (@notebook sqlite) (boot demo_files)).1
  = [inr None;
     inr None;
     inr (Some (PyFrame (Table ["depart_airport"; "number_of_departures"]
        [[VText "AAA"; VInt 2]; [VText "BBB"; VInt 1]; [VText "CCC"; VInt 1];
         [VText "DDD"; VInt 1]; [VText "EEE"; VInt 1]; [VText "ZZZ"; VInt 1]])));
     inr (Some (PyFrame (Table ["AVG(number_of_departures)"] [[VReal (7 # 6)]])));
     inr (Some (PyFrame (Table ["country"; "number_of_airports_in_country"]
        [[VText "US"; VInt 2]; [VNull; VInt 1]; [VText "CA"; VInt 1];
         [VText "DE"; VInt 1]])));
     inr (Some (PyFrame
        (Table ["depart_airport"; "destination_airport"; "depart_country"] [])));
     inr (Some (PyFrame
        (Table ["depart_airport"; "destination_airport"; "depart_country"]
           [[VText "CCC"; VText "DDD"; VText "CA"];
            [VText "DDD"; VText "EEE"; VText "DE"];
            [VText "AAA"; VText "BBB"; VText "US"];
            [VText "AAA"; VText "CCC"; VText "US"];
            [VText "BBB"; VText "AAA"; VText "US"]])));
     inr (Some (PyFrame
        (Table ["depart_airport"; "destination_airport"; "depart_country"]
           [[VText "CCC"; VText "DDD"; VText "CA"];
            [VText "DDD"; VText "EEE"; VText "DE"];
            [VText "AAA"; VText "BBB"; VText "US"];
            [VText "AAA"; VText "CCC"; VText "US"];
            [VText "BBB"; VText "AAA"; VText "US"]])));
     inr (Some (PyFrame (Table ["name"] [[VText "Alpha"]; [VText "Beta"]])))].
Proof. vm_compute. reflexivity. Qed.

(** In an empty directory the connection is opened on a new, empty file, and
    every query fails for want of its tables. *)
Example notebook_without_database :
  Forall (λ o, ∃ sql msg, o = inl (DatabaseError sql (OperationalError msg)))
         (drop 2 (run_all (@notebook sqlite) (boot ∅)).1).
Proof. vm_compute. repeat constructor; eexists _, _; reflexivity. Qed.

(** C1: every query the notebook executes is a constant text, handed as it is
    to the engine through [pd.read_sql]: whatever the files on disk and
    whatever the engine, the texts submitted are the seven literals, in
    order; what the engine is asked is each literal on the database as the
    literals before it left it, and what each querying cell shows is what
    [pd.read_sql] makes of the engine's answer to its literal, and nothing
    else. *)
Theorem notebook_submits_literals `{E : Engine} (fs : gmap string database) :
  let r := run_all notebook (boot fs) in
  let db := default ∅ (fs !! "flights.db") in
  submitted (trace r.2) = notebook_sql
  ∧ answered (trace r.2) = answers notebook_sql db
  ∧ r.1 = [inr None; inr None]
          ++ zip_with shown notebook_sql (answers notebook_sql db).
Proof.
  cbn zeta. rewrite notebook_split, run_all_app, run_preamble. cbn [fst snd].
  destruct (run_queries queries queries_read _ _ _ _ (opened_session fs))
    as (-> & -> & _ & _).
  destruct (submitted_reads 0 (map snd queries)
              (answers (map snd queries) (default ∅ (fs !! "flights.db")))
              (answers_length _ _)) as (Hs & Ha & _).
  unfold opened. cbn [trace].
  change (submitted ([Connect "flights.db" 0] ++ ?l)) with (submitted l).
  change (answered ([Connect "flights.db" 0] ++ ?l)) with (answered l).
  rewrite Hs, Ha. done.
Qed.

(** C3: the connection is opened exactly once, on ['flights.db'], before any
    query; the seven queries all go through that one handle, and at the end
    it is the only connection there is. *)
Theorem connection_opened_once `{E : Engine} (fs : gmap string database) :
  let k := (run_all notebook (boot fs)).2 in
  ∃ reads,
    trace k = Connect "flights.db" 0 :: reads
    ∧ Forall (λ ev, ∃ sql a, ev = ReadSql sql 0 a) reads
    ∧ length reads = 7%nat
    ∧ conns k = [Connection "flights.db" true].
Proof.
  cbn zeta. rewrite notebook_split, run_all_app, run_preamble. cbn [fst snd].
  destruct (run_queries queries queries_read _ _ _ _ (opened_session fs))
    as (_ & -> & -> & _).
  destruct (submitted_reads 0 (map snd queries)
              (answers (map snd queries) (default ∅ (fs !! "flights.db")))
              (answers_length _ _)) as (_ & _ & Hf).
  eexists. split; [reflexivity|]. split; [exact Hf|]. split; [|reflexivity].
  rewrite length_zip_with, answers_length. reflexivity.
Qed.

(** C9: no cell closes the connection: at every point of the run after the
    connect cell, [conn] is bound to the handle, that connection is open, and
    no call to [close] was made. *)
Theorem connection_stays_open `{E : Engine} (fs : gmap string database) (n : nat) :
  (2 ≤ n)%nat →
  let k := (run_all (take n notebook) (boot fs)).2 in
  globals k !! "conn" = Some (PyConn 0)
  ∧ conns k = [Connection "flights.db" true]
  ∧ Forall (λ ev, is_close ev = false) (trace k).
Proof.
  intros Hn. cbn zeta.
  destruct n as [|[|m]]; [lia|lia|].
  change (take (S (S m)) notebook)
    with ([cell_imports; cell_connect] ++ take m (map fst queries)).
  rewrite firstn_map, run_all_app, run_preamble. cbn [fst snd].
  destruct (run_queries (take m queries) (Forall_take _ _ _ queries_read)
              _ _ _ _ (opened_session fs)) as (_ & -> & -> & Hs).
  split; [apply Hs|]. split; [reflexivity|].
  apply Forall_app. split; [repeat constructor|].
  eapply Forall_impl.
  - apply submitted_reads. rewrite answers_length. reflexivity.
  - intros ev (sql & a & ->). reflexivity.
Qed.

Lemma connection_stays_open_witness :
  (2 ≤ 5)%nat
  ∧ let k := (run_all (take 5 (@notebook sqlite)) (boot demo_files)).2 in
    globals k !! "conn" = Some (PyConn 0)
    ∧ conns k = [Connection "flights.db" true]
    ∧ Forall (λ ev, is_close ev = false) (trace k).
Proof.
  split; [lia|]. apply (@connection_stays_open sqlite demo_files 5). lia.
Defined.

(** Closing is something a cell could do, and a query on a closed connection
    fails before the engine is asked, with the exception of [sqlite3] as it
    is; the notebook never gets there. *)
Example closed_connection_refuses :
  let k := (@call sqlite (PyFn (Fn_close 0)) [] (opened demo_files)).2 in
  (@cell_departures sqlite k).1
  = inl (SqliteError (ProgrammingError "Cannot operate on a closed database.")).
Proof. vm_compute. reflexivity. Qed.

(** C4, amended: when the engine raises on a query, the cell ends with the
    exception [pd.read_sql] raises in its place, which names the text and
    carries the engine's error; the text was submitted once, and no cell
    catches, retries or replaces what [pd.read_sql] raised. *)
Theorem engine_error_propagates `{E : Engine} (c : cell) (sql : string)
    (k : kernel) (h : nat) (p : string) (db : database) (e : sqlite_error) :
  (c, sql) ∈ queries →
  session k h p db →
  (execute sql db).1 = inl e →
  (c k).1 = inl (DatabaseError sql e)
  ∧ trace (c k).2 = trace k ++ [ReadSql sql h (inl e)].
Proof.
  intros Hin Hs He.
  pose proof (proj1 (Forall_forall _ _) queries_read _ Hin) as [Hc|Hc];
    cbn in Hc; rewrite Hc.
  - rewrite (read_sql_cell_session _ _ _ _ _ Hs), He. done.
  - rewrite (read_sql_cell_session _ _ _ _ _ (set_query_session _ _ _ _ Hs)), He.
    done.
Qed.

Lemma engine_error_propagates_witness :
  let k := opened ∅ in
  let e := OperationalError "no such table: routes" in
  (@cell_departures sqlite, sql_departures) ∈ @queries sqlite
  ∧ session k 0 "flights.db" ∅
  ∧ (sqlite_execute sql_departures ∅).1 = inl e
  ∧ (@cell_departures sqlite k).1 = inl (DatabaseError sql_departures e)
  ∧ trace (@cell_departures sqlite k).2
    = trace k ++ [ReadSql sql_departures 0 (inl e)].
Proof.
  cbn zeta.
  assert ((@cell_departures sqlite, sql_departures) ∈ @queries sqlite) as Hin
    by (unfold queries; left).
  assert (session (opened ∅) 0 "flights.db" ∅) as Hs.
  { pose proof (opened_session ∅) as H. rewrite lookup_empty in H. exact H. }
  assert ((sqlite_execute sql_departures ∅).1
          = inl (OperationalError "no such table: routes")) as He
    by (vm_compute; reflexivity).
  split; [exact Hin|]. split; [exact Hs|]. split; [exact He|].
  exact (@engine_error_propagates sqlite _ _ _ _ _ _ _ Hin Hs He).
Defined.

(** C4, as stated, fails: the engine's error does not reach the caller
    unchanged.  On an empty database the engine answers the first text with
    its error for a missing table, and the cell ends with the exception of
    [pandas], not with that of [sqlite3]. *)
Lemma engine_error_unchanged_fails :
  ¬ (∀ (c : cell) (sql : string) (k : kernel) (h : nat) (p : string)
       (db : database) (e : sqlite_error),
       (c, sql) ∈ @queries sqlite →
       session k h p db →
       (sqlite_execute sql db).1 = inl e →
       (c k).1 = inl (SqliteError e)).
Proof.
  intros H.
  assert ((@cell_departures sqlite, sql_departures) ∈ @queries sqlite) as Hin
    by (unfold queries; left).
  assert (session (opened ∅) 0 "flights.db" ∅) as Hs.
  { pose proof (opened_session ∅) as H0. rewrite lookup_empty in H0. exact H0. }
  specialize (H _ _ _ _ _ _ (OperationalError "no such table: routes") Hin Hs
                (eq_refl _)).
  vm_compute in H. discriminate H.
Qed.

(** ** Queries only read *)

Lemma read_sql_cell_files sql k :
  is_select sql = true → files (@read_sql_cell sqlite sql k).2 = files k.
Proof.
  intros Hsel. rewrite read_sql_cell_unfold.
  destruct (globals k !! "pd") as [m|]; [|done].
  destruct (is_pandas m); [|done].
  destruct (globals k !! "conn") as [[| | |h| |]|]; try done.
  rewrite pd_read_sql_unfold.
  destruct (conns k !! h) as [[p []]|]; try done.
  destruct (files k !! p) as [db|] eqn:Hf; [|done].
  assert (files (Kernel (globals k)
                        (<[p := (sqlite_execute sql db).2]> (files k))
                        (conns k)
                        (trace k ++ [ReadSql sql h (sqlite_execute sql db).1])
                        (installed k) (writable k))
          = files k) as Hk.
  { cbn. rewrite (select_read_only sql db Hsel). apply insert_id, Hf. }
  unfold execute, sqlite. destruct (sqlite_execute sql db).1; exact Hk.
Qed.

Lemma query_cell_files c sql k :
  (c, sql) ∈ @queries sqlite → files (c k).2 = files k.
Proof.
  intros Hin. pose proof (queries_select _ _ Hin) as Hsel.
  pose proof (proj1 (Forall_forall _ _) queries_read _ Hin) as [Hc|Hc];
    cbn in Hc; rewrite Hc; rewrite (read_sql_cell_files _ _ Hsel); reflexivity.
Qed.

(** C2: every query the notebook executes is a SELECT, and executing it
    leaves every database file, hence every table of flights.db, as it was. *)
Theorem queries_read_only (c : cell) (sql : string) (k : kernel) :
  (c, sql) ∈ @queries sqlite →
  is_select sql = true ∧ files (c k).2 = files k.
Proof.
  intros Hin. split.
  - exact (queries_select _ _ Hin).
  - exact (query_cell_files c sql k Hin).
Qed.

Lemma queries_read_only_witness :
  let k := opened demo_files in
  (@cell_exercise sqlite, sql_exercise) ∈ @queries sqlite
  ∧ is_select sql_exercise = true
  ∧ files (@cell_exercise sqlite k).2 = files k.
Proof.
  cbn zeta.
  assert ((@cell_exercise sqlite, sql_exercise) ∈ @queries sqlite) as Hin
    by (unfold queries; do 6 right; left).
  split; [exact Hin|].
  exact (queries_read_only _ _ (opened demo_files) Hin).
Defined.

(** So the whole notebook leaves every table of every database it finds as it
    found it. *)
Corollary notebook_keeps_tables (fs : gmap string database) (p : string)
    (db : database) :
  fs !! p = Some db →
  files (run_all (@notebook sqlite) (boot fs)).2 !! p = Some db.
Proof.
  intros Hp. rewrite notebook_split, run_all_app, run_preamble. cbn [fst snd].
  assert (∀ (qs : list (cell * string)) k,
            qs ⊆ @queries sqlite → files (run_all (map fst qs) k).2 = files k)
    as Hrun.
  { induction qs as [|[c sql] qs IH]; intros k Hqs; [done|].
    cbn [map fst]. rewrite run_all_cons. cbn [snd].
    rewrite IH by (intros x Hx; apply Hqs; by right).
    apply (query_cell_files c sql k), Hqs. left. }
  rewrite Hrun by done. unfold opened. cbn.
  destruct (fs !! "flights.db") eqn:Hf; [exact Hp|].
  rewrite lookup_insert_ne; [exact Hp|]. intros <-. congruence.
Qed.

(** ** Queries do not feed one another *)

Lemma query_cell_view c sql k :
  (c, sql) ∈ @queries sqlite → view (c k).2 = view k.
Proof.
  intros Hin. destruct (query_cell_globals c sql k Hin) as [Hcs Hg].
  pose proof (query_cell_files c sql k Hin) as Hf.
  unfold view. rewrite Hcs, Hf, !Hg by done. reflexivity.
Qed.

(** C8: the queries are independent of one another: whichever querying cells
    ran before, in whatever order and however often, a querying cell shows
    what it would have shown without them; the frames shown earlier are bound
    to no name, and the only name the earlier cells may have bound is
    [query]. *)
Theorem queries_independent (c : cell) (sql : string) (cs : list cell)
    (k : kernel) :
  (c, sql) ∈ @queries sqlite →
  cs ⊆ @query_cells sqlite →
  (c (run_all cs k).2).1 = (c k).1
  ∧ ∀ x, x ≠ "query" → globals (run_all cs k).2 !! x = globals k !! x.
Proof.
  intros Hin Hcs.
  assert (view (run_all cs k).2 = view k
          ∧ ∀ x, x ≠ "query" → globals (run_all cs k).2 !! x = globals k !! x)
    as [Hv Hg].
  { clear Hin. revert k. induction cs as [|c' cs IH]; intros k; [done|].
    rewrite run_all_cons. cbn [snd].
    assert (c' ∈ @query_cells sqlite) as Hc' by (apply Hcs; left).
    apply list_elem_of_fmap in Hc' as ([c0 sql'] & -> & Hq). cbn [fst].
    destruct (IH (λ x Hx, Hcs x (list_elem_of_further _ _ _ Hx)) (c0 k).2)
      as [-> Hg].
    split; [by apply query_cell_view with sql'|].
    intros x Hx. rewrite Hg by done.
    by apply (query_cell_globals c0 sql' k Hq). }
  split; [|exact Hg]. by apply (@query_cell_outcome sqlite) with sql.
Qed.

Lemma queries_independent_witness :
  let k := opened demo_files in
  let cs := [@cell_exercise sqlite; @cell_top_countries sqlite; @cell_exercise sqlite] in
  (@cell_departures sqlite, sql_departures) ∈ @queries sqlite
  ∧ cs ⊆ @query_cells sqlite
  ∧ (@cell_departures sqlite (run_all cs k).2).1 = (@cell_departures sqlite k).1
  ∧ ∀ x, x ≠ "query" → globals (run_all cs k).2 !! x = globals k !! x.
Proof.
  cbn zeta.
  assert ((@cell_departures sqlite, sql_departures) ∈ @queries sqlite) as Hin
    by (unfold queries; left).
  assert ([@cell_exercise sqlite; @cell_top_countries sqlite; @cell_exercise sqlite]
          ⊆ @query_cells sqlite) as Hcs.
  { intros x Hx. unfold query_cells, queries. cbn.
    apply elem_of_cons in Hx as [->|Hx]; [do 6 right; left|].
    apply elem_of_cons in Hx as [->|Hx]; [do 2 right; left|].
    apply elem_of_cons in Hx as [->|Hx]; [do 6 right; left|].
    by apply elem_of_nil in Hx. }
  split; [exact Hin|]. split; [exact Hcs|].
  exact (queries_independent _ _ _ (opened demo_files) Hin Hcs).
Defined.

(** ** The exercise query: DISTINCT *)

(** C10: whatever the database holds, the table the exercise cell shows has
    the one column [name] and no row twice: every airline name appears at
    most once. *)
Theorem exercise_names_distinct (k : kernel) (t : table) :
  (@cell_exercise sqlite k).1 = inr (Some (PyFrame t)) →
  t_cols t = ["name"]
  ∧ NoDup (t_rows t)
  ∧ ∃ names, t_rows t = map (λ v, [v]) names ∧ NoDup names.
Proof.
  rewrite cell_exercise_unfold. intros (db & Hdb)%read_sql_cell_shows.
  destruct exercise_is_distinct as (q & Hq & Hd & Hn).
  unfold execute, sqlite, sqlite_execute_under in Hdb. rewrite Hq in Hdb. cbn in Hdb.
  destruct (distinct_select_answers q db t Hd Hdb) as (Hc & Hnd & Hlen).
  rewrite Hn in Hc. split; [exact Hc|]. split; [exact Hnd|].
  assert (length (sel_cols q) = 1%nat) as Hone
    by (rewrite <- (length_map out_name), Hn; reflexivity).
  rewrite Hone in Hlen.
  assert (t_rows t = map (λ v, [v]) (map (hd VNull) (t_rows t))) as Hrows.
  { clear -Hlen. induction Hlen as [|r rs Hr _ IH]; [done|].
    cbn. rewrite <- IH. by destruct r as [|v [|]]. }
  exists (map (hd VNull) (t_rows t)). split; [exact Hrows|].
  rewrite Hrows in Hnd. by apply (NoDup_fmap_1 (λ v : value, [v])) in Hnd.
Qed.

Lemma exercise_names_distinct_witness :
  let k := opened demo_files in
  let t := Table ["name"] [[VText "Alpha"]; [VText "Beta"]] in
  (@cell_exercise sqlite k).1 = inr (Some (PyFrame t))
  ∧ t_cols t = ["name"]
  ∧ NoDup (t_rows t)
  ∧ ∃ names, t_rows t = map (λ v, [v]) names ∧ NoDup names.
Proof.
  cbn zeta.
  assert ((@cell_exercise sqlite (opened demo_files)).1
          = inr (Some (PyFrame (Table ["name"] [[VText "Alpha"]; [VText "Beta"]]))))
    as Hrun by (vm_compute; reflexivity).
  split; [exact Hrun|].
  exact (exercise_names_distinct _ _ Hrun).
Defined.

(** ** Common table expressions *)

(** C6, as stated, fails on the exercise query, which refers to its common
    table expression twice: once for the source and once for the
    destination. *)
Lemma cte_referenced_once_fails :
  ¬ Forall (λ u : string * nat, u.2 = 1%nat) notebook_ctes.
Proof.
  assert (notebook_ctes = [("top_5_countries", 1%nat); ("top_3_airports", 2%nat)])
    as -> by (vm_compute; reflexivity).
  intros H. apply Forall_cons in H as [_ H]. apply Forall_cons in H as [H _].
  discriminate H.
Qed.

(** C6, amended: the notebook defines two common table expressions, each named
    and referred to in the query that follows its definition, top_5_countries
    once and top_3_airports twice; both are temporary, as executing their
    statements leaves no table behind under any name. *)
Theorem cte_references :
  notebook_ctes = [("top_5_countries", 1%nat); ("top_3_airports", 2%nat)]
  ∧ Forall (λ sql, ∀ db, (sqlite_execute sql db).2 = db)
           [sql_routes_cte; sql_exercise].
Proof.
  split; [vm_compute; reflexivity|].
  repeat constructor; intros db; apply select_read_only; vm_compute; reflexivity.
Qed.

(** ** Names shared between cells *)

Section Sharing.
Context {E : Engine}.

Lemma rebind_view x v k : x ≠ "pd" → x ≠ "conn" → view (rebind x v k) = view k.
Proof.
  intros. unfold view, rebind. cbn.
  by rewrite !lookup_partial_alter_ne by done.
Qed.

Lemma read_sql_cell_rebind sql x v k :
  x ≠ "pd" → x ≠ "conn" →
  read_sql_cell sql (rebind x v k)
  = ((read_sql_cell sql k).1, rebind x v (read_sql_cell sql k).2).
Proof.
  intros Hpd Hc. rewrite !read_sql_cell_unfold. unfold rebind at 1 2. cbn.
  rewrite !lookup_partial_alter_ne by done.
  destruct (globals k !! "pd") as [m|]; [|done].
  destruct (is_pandas m); [|done].
  destruct (globals k !! "conn") as [[| | |h| |]|]; try done.
  rewrite !pd_read_sql_unfold. cbn.
  destruct (conns k !! h) as [[p []]|]; try done.
  destruct (files k !! p) as [db|]; [|done].
  destruct (execute sql db).1; done.
Qed.

Lemma observe_rebind x v o k : observe_but x (o, rebind x v k) = observe_but x (o, k).
Proof. unfold observe_but, rebind. cbn. by rewrite delete_partial_alter_eq. Qed.

Lemma read_sql_cell_ignores sql x :
  x ≠ "pd" → x ≠ "conn" → ¬ consumes (read_sql_cell sql) x.
Proof.
  intros Hpd Hc (k & v & H). apply H.
  rewrite read_sql_cell_rebind, observe_rebind by done.
  by destruct (read_sql_cell sql k).
Qed.

Lemma cell_exercise_ignores x :
  x ≠ "pd" → x ≠ "conn" → ¬ consumes cell_exercise x.
Proof.
  intros Hpd Hc (k & v & H). apply H. rewrite !cell_exercise_unfold.
  destruct (decide (x = "query")) as [->|Hq].
  - assert (set_query (rebind "query" v k) = set_query k) as ->; [|done].
    unfold set_query, rebind. cbn. by rewrite insert_partial_alter_eq.
  - assert (set_query (rebind x v k) = rebind x v (set_query k)) as ->.
    { unfold set_query, rebind. cbn. by rewrite insert_partial_alter_ne. }
    rewrite read_sql_cell_rebind, observe_rebind by done.
    by destruct (read_sql_cell sql_exercise (set_query k)).
Qed.

Lemma cell_imports_ignores x : ¬ consumes cell_imports x.
Proof.
  intros (k & v & H). apply H.
  unfold cell_imports, import_as, mbind, py_bind, store_name, observe_but,
    rebind. cbn.
  destruct (among (installed k) "pandas"); cbn;
    [|by rewrite delete_partial_alter_eq].
  destruct (among (installed k) "sqlite3"); cbn;
    f_equal; f_equal; f_equal; f_equal;
    apply map_eq; intros y;
    rewrite !lookup_delete, !lookup_insert, !lookup_partial_alter;
    repeat case_decide; congruence.
Qed.

Lemma cell_connect_ignores x : x ≠ "sqlite3" → ¬ consumes cell_connect x.
Proof.
  intros Hx (k & v & H). apply H.
  unfold cell_connect, mbind, py_bind, load_name, store_name, observe_but.
  unfold rebind at 1. cbn. rewrite lookup_partial_alter_ne by done.
  destruct (globals k !! "sqlite3") as [m|]; cbn.
  2: { by rewrite delete_partial_alter_eq. }
  destruct m; cbn; try by rewrite delete_partial_alter_eq.
  destruct (String.eqb m "sqlite3"); cbn.
  2: { destruct (String.eqb m "pandas"); cbn; by rewrite delete_partial_alter_eq. }
  unfold sqlite3_connect. cbn.
  destruct (files k !! "flights.db"); cbn;
    [|destruct (writable k); cbn; [|by rewrite delete_partial_alter_eq]];
    f_equal; f_equal; f_equal; f_equal;
    apply map_eq; intros y;
    rewrite !lookup_delete, !lookup_insert, !lookup_partial_alter;
    repeat case_decide; congruence.
Qed.

Lemma notebook_consumes c x :
  c ∈ notebook → consumes c x → x ∈ ["sqlite3"; "pd"; "conn"].
Proof.
  intros Hin Hc.
  destruct (decide (x = "sqlite3")) as [->|H1]; [left|].
  destruct (decide (x = "pd")) as [->|H2]; [right; left|].
  destruct (decide (x = "conn")) as [->|H3]; [do 2 right; left|].
  exfalso. unfold notebook, query_cells, queries in Hin. cbn in Hin.
  repeat (apply elem_of_cons in Hin as [->|Hin]).
  - by apply (cell_imports_ignores x).
  - by apply (cell_connect_ignores x).
  - by apply (read_sql_cell_ignores sql_departures x).
  - by apply (read_sql_cell_ignores sql_avg_departures x).
  - by apply (read_sql_cell_ignores sql_top_countries x).
  - by apply (read_sql_cell_ignores sql_routes_listed x).
  - by apply (read_sql_cell_ignores sql_routes_subquery x).
  - by apply (read_sql_cell_ignores sql_routes_cte x).
  - by apply (cell_exercise_ignores x).
  - by apply elem_of_nil in Hin.
Qed.

Lemma imports_assign x : x = "pd" ∨ x = "sqlite3" → assigns cell_imports x.
Proof.
  intros Hx. exists (boot ∅).
  unfold cell_imports, import_as, mbind, py_bind, store_name, boot. cbn.
  rewrite lookup_empty.
  destruct Hx as [-> | ->].
  - rewrite lookup_insert_ne, lookup_insert_eq by done. done.
  - rewrite lookup_insert_eq. done.
Qed.

Lemma connect_assigns : assigns cell_connect "conn".
Proof.
  exists (Kernel {["sqlite3" := PyModule "sqlite3"]} ∅ [] [] [] true).
  unfold cell_connect, mbind, py_bind, load_name, store_name. cbn.
  rewrite lookup_singleton_eq. cbn.
  unfold sqlite3_connect. cbn. rewrite lookup_empty. cbn.
  rewrite lookup_insert_eq, lookup_singleton_ne by done. done.
Qed.

Lemma connect_consumes : consumes cell_connect "sqlite3".
Proof.
  exists (boot ∅), (Some (PyStr "")).
  unfold cell_connect, mbind, py_bind, load_name, observe_but, rebind, boot.
  cbn. rewrite lookup_partial_alter_eq, lookup_empty. cbn. done.
Qed.

Lemma read_consumes_pd sql : consumes (read_sql_cell sql) "pd".
Proof.
  exists (boot ∅), (Some (PyStr "")).
  rewrite !read_sql_cell_unfold. unfold observe_but, rebind, boot. cbn.
  rewrite lookup_partial_alter_eq, lookup_empty. cbn. done.
Qed.

Lemma read_consumes_conn sql : consumes (read_sql_cell sql) "conn".
Proof.
  exists (Kernel {["pd" := PyModule "pandas"]} ∅ [] [] [] true),
    (Some (PyStr "")).
  rewrite !read_sql_cell_unfold. unfold observe_but, rebind. cbn.
  rewrite lookup_partial_alter_ne, lookup_singleton_eq by done. cbn.
  rewrite lookup_partial_alter_eq, lookup_singleton_ne by done. cbn. done.
Qed.

(** C7, amended: the names that one cell binds and a later cell relies on are
    exactly [conn] and the two module names [pd] and [sqlite3] bound by the
    import cell; [query] and the frames shown are not among them. *)
Theorem shared_names (x : string) :
  shared x ↔ x ∈ ["sqlite3"; "pd"; "conn"].
Proof.
  split.
  - intros (i & j & ci & cj & _ & _ & Hj & _ & Hc).
    apply (notebook_consumes cj); [|exact Hc].
    apply list_elem_of_lookup. by exists j.
  - intros Hx.
    apply elem_of_cons in Hx as [->|Hx];
      [|apply elem_of_cons in Hx as [->|Hx];
        [|apply elem_of_cons in Hx as [->|Hx]; [|by apply elem_of_nil in Hx]]].
    + exists 0%nat, 1%nat, cell_imports, cell_connect.
      split; [lia|]. split; [done|]. split; [done|].
      split; [apply imports_assign; by right | apply connect_consumes].
    + exists 0%nat, 2%nat, cell_imports, cell_departures.
      split; [lia|]. split; [done|]. split; [done|].
      split; [apply imports_assign; by left | apply read_consumes_pd].
    + exists 1%nat, 2%nat, cell_connect, cell_departures.
      split; [lia|]. split; [done|]. split; [done|].
      split; [apply connect_assigns | apply read_consumes_conn].
Qed.
End Sharing.

(** C7, as stated, fails: [conn] is not the only name shared between cells.
    The import cell binds [sqlite3] (and [pd]), and the cells after it rely on
    that binding. *)
Lemma only_conn_shared_fails :
  ¬ (∀ x, @shared sqlite x → x = "conn").
Proof.
  intros H.
  assert (@shared sqlite "sqlite3") as Hs.
  { exists 0%nat, 1%nat, cell_imports, (@cell_connect sqlite).
    split; [lia|]. split; [done|]. split; [done|].
    split; [apply imports_assign; by right | apply connect_consumes]. }
  specialize (H _ Hs). discriminate H.
Qed.

(** ** What the queries compute

    The properties above are about the cells; what follows is about the tables
    the seven texts make the engine compute, for every state of the
    database. *)

(** *** The statements as parsed *)

Lemma parse_departures : parse_sql sql_departures = Some (SSelect q_departures).
Proof. vm_compute. reflexivity. Qed.

Lemma parse_avg_departures :
  parse_sql sql_avg_departures = Some (SSelect q_avg_departures).
Proof. vm_compute. reflexivity. Qed.

Lemma parse_top_countries :
  parse_sql sql_top_countries = Some (SSelect q_top_countries).
Proof. vm_compute. reflexivity. Qed.

Lemma parse_routes_listed :
  parse_sql sql_routes_listed = Some (SSelect q_routes_listed).
Proof. vm_compute. reflexivity. Qed.

Lemma parse_routes_subquery :
  parse_sql sql_routes_subquery = Some (SSelect q_routes_subquery).
Proof. vm_compute. reflexivity. Qed.

Lemma parse_routes_cte :
  parse_sql sql_routes_cte = Some (SSelect q_routes_cte).
Proof. vm_compute. reflexivity. Qed.

Lemma parse_exercise : parse_sql sql_exercise = Some (SSelect q_exercise).
Proof. vm_compute. reflexivity. Qed.

(** *** On the example database *)

Lemma demo_departures_answer :
  (sqlite_execute sql_departures demo_flights).1 = inr demo_departures.
Proof. vm_compute. reflexivity. Qed.

Lemma demo_top_countries_answer :
  (sqlite_execute sql_top_countries demo_flights).1 = inr demo_top_countries.
Proof. vm_compute. reflexivity. Qed.

Lemma demo_routes_subquery_answer :
  (sqlite_execute sql_routes_subquery demo_flights).1 = inr demo_routes.
Proof. vm_compute. reflexivity. Qed.

Lemma demo_routes_cte_answer :
  (sqlite_execute sql_routes_cte demo_flights).1 = inr demo_routes.
Proof. vm_compute. reflexivity. Qed.

Lemma demo_names_answer :
  (sqlite_execute sql_exercise demo_flights).1 = inr demo_names.
Proof. vm_compute. reflexivity. Qed.

(** *** The stages of a SELECT that answers *)

(** A computation that succeeds went through successes only. *)
Lemma bind_inr {A B} (m : result A) (f : A → result B) b :
  m ≫= f = inr b → ∃ a, m = inr a ∧ f a = inr b.
Proof. destruct m as [e|a]; [discriminate|]. intros H. by exists a. Qed.

Lemma bind_ext {A B} (m : result A) (f g : A → result B) :
  (∀ a, f a = g a) → m ≫= f = m ≫= g.
Proof. intros H. destruct m; [reflexivity|apply H]. Qed.

Lemma filterM_ext {A} (p q : A → result bool) l :
  (∀ x, x ∈ l → p x = q x) → filterM p l = filterM q l.
Proof.
  induction l as [|x l IH]; intros H; [done|]. cbn.
  rewrite (H x) by left. rewrite IH; [done|]. intros y Hy. apply H. by right.
Qed.

(** What a filter keeps: some of the rows, in order, on each of which the
    condition is true. *)
Lemma filterM_inr {A} (p : A → result bool) l l' :
  filterM p l = inr l' →
  l' `sublist_of` l ∧ Forall (λ x, p x = inr true) l'.
Proof.
  revert l'. induction l as [|x l IH]; intros l' H; cbn in H.
  - inversion H. split; constructor.
  - apply bind_inr in H as (b & Hb & H).
    apply bind_inr in H as (xs & Hxs & H). inversion H; subst l'.
    destruct (IH xs Hxs) as [Hsub Hall].
    destruct b.
    + split; [by constructor|]. by constructor.
    + split; [by constructor|done].
Qed.

Lemma mapM_ext {A B} (f g : A → result B) l :
  (∀ x, x ∈ l → f x = g x) → mapM f l = mapM g l.
Proof.
  induction l as [|x l IH]; intros H; [done|]. cbn.
  rewrite (H x) by left. rewrite IH; [done|]. intros y Hy. apply H. by right.
Qed.

Lemma mapM_inr_map {A B} (f : A → result B) (g : A → B) l :
  (∀ x, x ∈ l → f x = inr (g x)) → mapM f l = inr (map g l).
Proof.
  induction l as [|x l IH]; intros H; [done|]. cbn.
  rewrite (H x) by left. cbn. rewrite IH; [done|]. intros y Hy. apply H. by right.
Qed.

(** What a SELECT that answers went through, stage by stage, under any plan;
    the plan and LIMIT come in after the last stage. *)
Lemma run_select_under_inv p ctes d names cols from joins w agg g o l db0 t :
  run_select_under p ctes d names cols from joins w agg g o l db0 = inr t →
  ∃ db R0 R1 rows us outs,
    with_ctes ctes db0 = inr db
    ∧ from db = inr R0
    ∧ apply_joins joins db R0 = inr R1
    ∧ match w with
      | Some f => filterM (holds (f db) (rel_names R1)) (rel_rows R1)
      | None => inr (rel_rows R1)
      end = inr rows
    ∧ units agg (map (λ f, f db) g) (Rel (rel_names R1) rows) = inr us
    ∧ mapM (λ u : list value * option (list (list value)),
              out ← mapM (λ c : database → row_fn, c db (rel_names R1) u.2 u.1) cols;
              keys ← mapM (λ k : (list string → list value → database → row_fn) * bool,
                             k.1 names out db (rel_names R1) u.2 u.1) o;
              mret (out, keys)) us = inr outs
    ∧ t = Table names
            (map fst (apply_limit l
               (sort_by (λ x y, keys_le (map snd o) x.2 y.2)
                  (arrange p (map snd o)
                     (if d then distinct_rows [] outs else outs)))))
    ∧ ∀ q l',
        run_select_under q ctes d names cols from joins w agg g o l' db0
        = inr (Table names
                 (map fst (apply_limit l'
                    (sort_by (λ x y, keys_le (map snd o) x.2 y.2)
                       (arrange q (map snd o)
                          (if d then distinct_rows [] outs else outs)))))).
Proof.
  unfold run_select_under. intros H.
  apply bind_inr in H as (db & Hdb & H).
  apply bind_inr in H as (R0 & HR0 & H).
  apply bind_inr in H as (R1 & HR1 & H).
  apply bind_inr in H as (rows & Hrows & H).
  apply bind_inr in H as (us & Hus & H).
  apply bind_inr in H as (outs & Houts & H).
  inversion H. exists db, R0, R1, rows, us, outs.
  repeat (split; [done|]). intros q l'.
  rewrite Hdb. cbn [mbind result_bind]. rewrite HR0. cbn [mbind result_bind].
  rewrite HR1. cbn [mbind result_bind]. rewrite Hrows. cbn [mbind result_bind].
  rewrite Hus. cbn [mbind result_bind]. rewrite Houts. reflexivity.
Qed.

(** What a SELECT that answers went through, stage by stage. *)
Lemma run_select_inv ctes d names cols from joins w agg g o l db0 t :
  run_select ctes d names cols from joins w agg g o l db0 = inr t →
  ∃ db R0 R1 rows us outs,
    with_ctes ctes db0 = inr db
    ∧ from db = inr R0
    ∧ apply_joins joins db R0 = inr R1
    ∧ match w with
      | Some f => filterM (holds (f db) (rel_names R1)) (rel_rows R1)
      | None => inr (rel_rows R1)
      end = inr rows
    ∧ units agg (map (λ f, f db) g) (Rel (rel_names R1) rows) = inr us
    ∧ mapM (λ u : list value * option (list (list value)),
              out ← mapM (λ c : database → row_fn, c db (rel_names R1) u.2 u.1) cols;
              keys ← mapM (λ k : (list string → list value → database → row_fn) * bool,
                             k.1 names out db (rel_names R1) u.2 u.1) o;
              mret (out, keys)) us = inr outs
    ∧ t = Table names
            (map fst (apply_limit l
               (sort_by (λ x y, keys_le (map snd o) x.2 y.2)
                  (if d then distinct_rows [] outs else outs)))).
Proof.
  intros (db & R0 & R1 & rows & us & outs & H1 & H2 & H3 & H4 & H5 & H6 & H7 & _)
    %run_select_under_inv.
  by exists db, R0, R1, rows, us, outs.
Qed.

Lemma lookup_table_inr db n tb : lookup_table db n = inr tb → db !! n = Some tb.
Proof. unfold lookup_table. destruct (db !! n); [|discriminate]. by intros [= ->]. Qed.

Lemma scan_width q tb : length (rel_rows (scan q tb)) = length (t_rows tb).
Proof. unfold scan. cbn. by rewrite length_map. Qed.

Lemma scan_rows_wide q tb r :
  r ∈ rel_rows (scan q tb) → length r = length (rel_names (scan q tb)).
Proof.
  cbn. intros (r0 & -> & _)%list_elem_of_fmap. unfold fit.
  rewrite length_map, length_take, length_app, length_replicate. lia.
Qed.

(** A row passes WHERE and ON only if the condition has a value, and that
    value counts as true. *)
Lemma holds_true f names r :
  holds f names r = inr true → ∃ v, f names None r = inr v ∧ truth v = Some true.
Proof.
  unfold holds. intros (v & Hv & H)%bind_inr. exists v. split; [exact Hv|].
  inversion H as [Ht]. destruct (truth v) as [[]|]; done.
Qed.

(** IN is true only of a value that is not NULL and equals one of the
    values on the right. *)
Lemma sql_in_true x vs :
  truth (sql_in x vs) = Some true → x ≠ VNull ∧ existsb (same_value x) vs = true.
Proof.
  unfold sql_in. destruct vs as [|v vs]; [discriminate|].
  destruct x; cbn [is_null]; try discriminate;
    (destruct (existsb _ (v :: vs)); [done|]);
    destruct (existsb is_null _); discriminate.
Qed.

Lemma sql_or_true a b :
  truth (sql_or a b) = Some true → truth a = Some true ∨ truth b = Some true.
Proof.
  unfold sql_or. destruct (truth a) as [[]|], (truth b) as [[]|]; auto;
    vm_compute; discriminate.
Qed.

(** [a IN n], for a table [n] in scope. *)
Lemma in_table_true a n db names r tb :
  db !! n = Some tb →
  holds (denote_expr (EInTable a n) db) names r = inr true →
  ∃ x, denote_expr a db names None r = inr x
       ∧ existsb (same_value x) (column 0 tb) = true.
Proof.
  intros Htb (v & Hv & Ht)%holds_true. cbn [denote_expr_under] in Hv.
  unfold in_table, lookup_table in Hv. rewrite Htb in Hv.
  apply bind_inr in Hv as (x & Hx & Hv). cbn [mbind result_bind mret result_ret] in Hv.
  apply bind_inr in Hv as (vs & Hvs & Hv).
  assert (v = sql_in x vs) as -> by (by inversion Hv).
  apply sql_in_true in Ht as [_ Hin]. exists x. split; [exact Hx|].
  unfold single_column in Hvs. destruct (t_cols tb) as [|? [|]]; try discriminate.
  inversion Hvs; subst vs. unfold column.
  erewrite map_ext; [exact Hin|]. by intros [].
Qed.

Lemma same_value_text c s : same_value c (VText s) = true → c = VText s.
Proof.
  unfold same_value. destruct c as [|x|q|s']; cbn; try discriminate.
  destruct (String.compare s' s) eqn:H; try discriminate.
  apply String.compare_eq_iff in H. by subst.
Qed.

(** *** Sorting and LIMIT *)

Lemma value_compare_antisym a b :
  value_compare a b = CompOpp (value_compare b a).
Proof.
  destruct a as [|x|p|s], b as [|y|q|t]; cbn; try reflexivity.
  - apply Z.compare_antisym.
  - symmetry. apply Qcompare_antisym.
  - symmetry. apply Qcompare_antisym.
  - symmetry. apply Qcompare_antisym.
  - apply String.compare_antisym.
Qed.

(** Any two rows compare, one way or the other. *)
Lemma keys_le_total dirs k1 k2 :
  keys_le dirs k1 k2 = false → keys_le dirs k2 k1 = true.
Proof.
  revert k1 k2. induction dirs as [|d ds IH]; intros [|a k1] [|b k2]; cbn;
    try discriminate.
  rewrite (value_compare_antisym b a).
  destruct (value_compare a b); cbn; [apply IH| |]; by destruct d.
Qed.

Lemma insert_by_sorted {A} (le : A → A → bool) x l :
  (∀ a b, le a b = false → le b a = true) →
  Sorted (λ a b, le a b = true) l → Sorted (λ a b, le a b = true) (insert_by le x l).
Proof.
  intros Htot. induction 1 as [|y l Hl IH Hhd]; cbn.
  - repeat constructor.
  - destruct (le x y) eqn:Hxy.
    + constructor; [by constructor|by constructor].
    + constructor; [exact IH|].
      destruct Hhd as [|z l' Hyz]; cbn.
      * constructor. by apply Htot.
      * destruct (le x z); constructor; [by apply Htot|exact Hyz].
Qed.

(** The sort sorts. *)
Lemma sort_by_sorted {A} (le : A → A → bool) l :
  (∀ a b, le a b = false → le b a = true) →
  Sorted (λ a b, le a b = true) (sort_by le l).
Proof.
  intros Htot. induction l as [|x l IH]; cbn; [constructor|].
  by apply insert_by_sorted.
Qed.

Lemma Sorted_take_of {A} (R : A → A → Prop) n l :
  Sorted R l → Sorted R (take n l).
Proof.
  intros H. revert n. induction H as [|x l Hl IH Hhd]; intros [|n]; cbn;
    try constructor.
  - apply IH.
  - destruct Hhd; destruct n; cbn; constructor; done.
Qed.

Lemma apply_limit_sorted {A} (R : A → A → Prop) l (xs : list A) :
  Sorted R xs → Sorted R (apply_limit l xs).
Proof. destruct l; cbn; [apply Sorted_take_of|done]. Qed.

Lemma apply_limit_length {A} n (xs : list A) :
  (length (apply_limit (Some n) xs) ≤ n)%nat.
Proof. cbn. rewrite length_take. lia. Qed.

(** LIMIT [n] leaves at most [n] rows. *)
Lemma limit_bounds ctes d cols f js w g o n db t :
  denote_select (Select ctes d cols f js w g o (Some n)) db = inr t →
  (length (t_rows t) ≤ n)%nat.
Proof.
  rewrite denote_select_eq.
  intros (db' & R0 & R1 & rows & us & outs & _ & _ & _ & _ & _ & _ & ->)
    %run_select_inv.
  cbn [t_rows]. rewrite length_map. apply apply_limit_length.
Qed.

(** Without ORDER BY the rows stay as they are. *)
Lemma sort_by_unordered {A} (l : list (A * list value)) :
  sort_by (λ x y, keys_le [] x.2 y.2) l = l.
Proof.
  unfold sort_by. induction l as [|x l IH]; cbn [foldr]; [done|].
  rewrite IH. by destruct l.
Qed.

Lemma Sorted_map_on {A B} (R : A → A → Prop) (R' : B → B → Prop)
    (P : A → Prop) (f : A → B) l :
  (∀ x y, P x → P y → R x y → R' (f x) (f y)) →
  Forall P l → Sorted R l → Sorted R' (map f l).
Proof.
  intros HR HP HS. induction HS as [|x l Hl IH Hhd]; cbn; [constructor|].
  apply Forall_cons in HP as [Hx HP]. constructor; [by apply IH|].
  destruct Hhd as [|y l' Hxy]; cbn; constructor.
  apply Forall_cons in HP as [Hy _]. by apply HR.
Qed.

Lemma insert_by_map {A B} (f : A → B) (le : A → A → bool) (le' : B → B → bool)
    x l :
  (∀ a b, le' (f a) (f b) = le a b) →
  insert_by le' (f x) (map f l) = map f (insert_by le x l).
Proof.
  intros H. induction l as [|y l IH]; [reflexivity|].
  cbn. rewrite H. destruct (le x y); [reflexivity|]. cbn. by rewrite IH.
Qed.

(** Columns that the order does not look at do not change it. *)
Lemma sort_by_map {A B} (f : A → B) (le : A → A → bool) (le' : B → B → bool) l :
  (∀ a b, le' (f a) (f b) = le a b) →
  sort_by le' (map f l) = map f (sort_by le l).
Proof.
  intros H. unfold sort_by. induction l as [|x l IH]; [reflexivity|].
  cbn [map foldr]. rewrite IH. by apply insert_by_map.
Qed.

Lemma apply_limit_map {A B} (f : A → B) l xs :
  apply_limit l (map f xs) = map f (apply_limit l xs).
Proof. destruct l; cbn; [apply firstn_map|reflexivity]. Qed.


(** *** Equal values, equal keys *)

Lemma same_value_Eq a b : same_value a b = true ↔ value_compare a b = Eq.
Proof. unfold same_value. by destruct (value_compare a b). Qed.

Lemma inject_Z_Eq x y : Qcompare (inject_Z x) (inject_Z y) = Eq ↔ x = y.
Proof.
  rewrite <- Qeq_alt. unfold Qeq. cbn. rewrite !Z.mul_1_r. reflexivity.
Qed.

Lemma same_value_sym a b : same_value a b = same_value b a.
Proof.
  unfold same_value. rewrite (value_compare_antisym a b).
  by destruct (value_compare b a).
Qed.

(** Equality of values, as the engine has it, is an equivalence: numbers
    compare by value whether stored as integers or reals. *)
Lemma same_value_trans a b c :
  same_value a b = true → same_value b c = true → same_value a c = true.
Proof.
  rewrite !same_value_Eq.
  destruct a as [|x|p|s], b as [|y|q|t], c as [|z|r|u]; cbn;
    try discriminate; try done;
    rewrite <- ?Qeq_alt, ?Z.compare_eq_iff, ?String.compare_eq_iff;
    try congruence;
    intros H1 H2; subst;
    try first [assumption
              |eapply Qeq_trans; eassumption
              |apply inject_Z_Eq, Qeq_alt; eapply Qeq_trans; eassumption].
  apply String.compare_eq_iff in H1. apply String.compare_eq_iff in H2.
  subst. exact (value_compare_refl (VText u)).
Qed.

Lemma same_row_sym r1 r2 : same_row r1 r2 = same_row r2 r1.
Proof.
  revert r2. induction r1 as [|a r1 IH]; intros [|b r2]; cbn; try reflexivity.
  by rewrite same_value_sym, IH.
Qed.

Lemma same_row_trans r1 r2 r3 :
  same_row r1 r2 = true → same_row r2 r3 = true → same_row r1 r3 = true.
Proof.
  revert r2 r3. induction r1 as [|a r1 IH]; intros [|b r2] [|c r3]; cbn;
    try discriminate; try done.
  intros [Hab H12]%andb_true_iff [Hbc H23]%andb_true_iff.
  apply andb_true_iff. split; [by eapply same_value_trans|by eapply IH].
Qed.

Lemma same_row_single v s : same_row [v] [s] = same_value v s.
Proof. cbn. apply andb_true_r. Qed.


(** *** Grouping *)

Lemma add_to_group_keys key r (gs : keyed_groups) x :
  x ∈ map fst (add_to_group key r gs) → x ∈ map fst gs ∨ x = key.
Proof.
  induction gs as [|[k rs] gs IH]; cbn.
  - intros ->%list_elem_of_singleton. by right.
  - destruct (same_row k key); cbn; [by left|].
    intros [->|Hx]%elem_of_cons; [left; left|].
    destruct (IH Hx) as [?|?]; [left; by right|by right].
Qed.

Lemma add_to_group_NoDup key r (gs : keyed_groups) :
  NoDup (map fst gs) → NoDup (map fst (add_to_group key r gs)).
Proof.
  induction gs as [|[k rs] gs IH]; cbn; intros Hnd.
  - repeat constructor. apply not_elem_of_nil.
  - destruct (same_row k key) eqn:Hk; cbn; [exact Hnd|].
    apply NoDup_cons in Hnd as [Hk' Hnd]. apply NoDup_cons. split; [|by apply IH].
    intros [?| ->]%add_to_group_keys; [done|].
    by rewrite same_row_refl in Hk.
Qed.

Lemma add_to_group_size key r (gs : keyed_groups) :
  sum_list_with (λ kg, length kg.2) (add_to_group key r gs)
  = S (sum_list_with (λ kg, length kg.2) gs).
Proof.
  induction gs as [|[k rs] gs IH]; cbn; [done|].
  destruct (same_row k key); cbn.
  - rewrite length_app. cbn. lia.
  - rewrite IH. lia.
Qed.

Lemma add_to_group_headed key r (gs : keyed_groups) seen :
  Forall (headed seen) gs →
  Forall (headed (seen ++ [(key, r)])) (add_to_group key r gs).
Proof.
  induction 1 as [|[k rs] gs (r0 & rest & Hrs & Hin) Hgs IH]; cbn.
  - repeat constructor. exists r, []. split; [done|].
    apply elem_of_app. right. left.
  - cbn in Hrs. subst rs. destruct (same_row k key).
    + constructor.
      * exists r0, (rest ++ [r]). split; [done|]. apply elem_of_app. by left.
      * eapply Forall_impl; [exact Hgs|].
        intros kg (r1 & rest1 & ? & ?). exists r1, rest1. split; [done|].
        apply elem_of_app. by left.
    + constructor; [|exact IH].
      exists r0, rest. split; [done|]. apply elem_of_app. by left.
Qed.

Lemma foldl_groups (keyed : list (list value * list value)) :
  let gs := foldl (λ gs kr, add_to_group kr.1 kr.2 gs) [] keyed in
  NoDup (map fst gs)
  ∧ Forall (headed keyed) gs
  ∧ sum_list_with (λ kg, length kg.2) gs = length keyed.
Proof.
  cbn zeta.
  assert (∀ seen (gs0 : keyed_groups),
            NoDup (map fst gs0) → Forall (headed seen) gs0 →
            sum_list_with (λ kg, length kg.2) gs0 = length seen →
            let gs := foldl (λ gs kr, add_to_group kr.1 kr.2 gs) gs0 keyed in
            NoDup (map fst gs) ∧ Forall (headed (seen ++ keyed)) gs
            ∧ sum_list_with (λ kg, length kg.2) gs = length (seen ++ keyed)) as H.
  { induction keyed as [|[k r] keyed IH]; intros seen gs0 H1 H2 H3; cbn.
    - by rewrite app_nil_r.
    - replace (seen ++ (k, r) :: keyed) with ((seen ++ [(k, r)]) ++ keyed)
        by (by rewrite <- app_assoc).
      apply IH.
      + by apply add_to_group_NoDup.
      + by apply add_to_group_headed.
      + rewrite add_to_group_size, H3, length_app. cbn. lia. }
  apply (H [] []); [constructor|constructor|done].
Qed.

(** GROUP BY, first account: groups with different keys, none empty, each
    headed by a row of the input with the key of the group; no row is lost or
    added. *)
Lemma group_rows_inv keys names rows gs :
  group_rows keys names rows = inr gs →
  ∃ kgs : keyed_groups,
    gs = map snd kgs
    ∧ NoDup (map fst kgs)
    ∧ Forall (λ kg, ∃ r0 rest, kg.2 = r0 :: rest ∧ r0 ∈ rows
                ∧ mapM (λ f : row_fn, f names None r0) keys = inr kg.1) kgs
    ∧ sum_list_with (λ kg, length kg.2) kgs = length rows.
Proof.
  unfold group_rows. intros H.
  apply bind_inr in H as (keyed & Hk & H). inversion H as [Hgs]. clear H Hgs.
  apply mapM_inr in Hk.
  assert (length keyed = length rows) as Hlen by (symmetry; by eapply Forall2_length).
  assert (Forall (λ kr : list value * list value,
                    kr.2 ∈ rows
                    ∧ mapM (λ f : row_fn, f names None kr.2) keys = inr kr.1) keyed)
    as Hkeyed.
  { clear Hlen. induction Hk as [|r kr rows keyed Hr _ IH]; [constructor|].
    apply bind_inr in Hr as (k & Hk & Hr). inversion Hr; subst kr. cbn.
    constructor; [split; [left|exact Hk]|].
    eapply Forall_impl; [exact IH|]. intros ? [? ?]. split; [by right|done]. }
  destruct (foldl_groups keyed) as (Hnd & Hhead & Hsum).
  set (gs0 := foldl _ _ _) in *.
  set (sorted := sort_by _ gs0).
  assert (sorted ≡ₚ gs0) as Hperm by apply sort_by_perm.
  exists sorted. split; [done|]. split; [by rewrite Hperm|].
  split; [|by rewrite Hperm, Hsum].
  rewrite Hperm. eapply Forall_impl; [exact Hhead|].
  intros kg (r0 & rest & Hrs & Hin). exists r0, rest. split; [done|].
  rewrite Forall_forall in Hkeyed. by apply (Hkeyed _ Hin).
Qed.

(** A row joins the first group whose key equals its key, and starts a
    group after all others when there is none. *)
Lemma add_to_group_cases key r (gs : keyed_groups) :
  (∃ g1 k rs g2,
     gs = g1 ++ (k, rs) :: g2
     ∧ Forall (λ kg, same_row kg.1 key = false) g1
     ∧ same_row k key = true
     ∧ add_to_group key r gs = g1 ++ (k, rs ++ [r]) :: g2)
  ∨ (Forall (λ kg, same_row kg.1 key = false) gs
     ∧ add_to_group key r gs = gs ++ [(key, [r])]).
Proof.
  induction gs as [|[k rs] gs IH]; cbn.
  - right. by split.
  - destruct (same_row k key) eqn:Hk.
    + left. exists [], k, rs, gs. by repeat split.
    + destruct IH as [(g1 & k' & rs' & g2 & -> & Hg1 & Hk' & ->)|[Hgs ->]].
      * left. exists ((k, rs) :: g1), k', rs', g2. repeat split; [|done].
        by constructor.
      * right. split; [by constructor|done].
Qed.

Lemma apart_snoc ks key :
  apart ks → Forall (λ k, same_row k key = false) ks → apart (ks ++ [key]).
Proof.
  induction ks as [|k ks IH]; cbn; [done|].
  intros [Hk Hks] [Hkey Hall]%Forall_cons. split; [|by apply IH].
  apply Forall_app. split; [exact Hk|by constructor].
Qed.

Lemma apart_middle l1 k l2 :
  apart (l1 ++ k :: l2) → Forall (λ k', same_row k k' = false) l2.
Proof.
  induction l1 as [|x l1 IH]; cbn; [by intros [? _]|]. intros [_ H]. by apply IH.
Qed.

Lemma members_snoc seen key r k :
  members (seen ++ [(key, r)]) k
  = members seen k ++ (if same_row k key then [r] else []).
Proof.
  unfold members. rewrite List.filter_app, map_app. cbn.
  by destruct (same_row k key).
Qed.

Lemma add_to_group_grouped key r gs seen :
  grouped seen gs → grouped (seen ++ [(key, r)]) (add_to_group key r gs).
Proof.
  intros (Hapart & Hmem & Hcov).
  destruct (add_to_group_cases key r gs)
    as [(g1 & k & rs & g2 & -> & Hg1 & Hk & ->)|[Hgs ->]].
  - split; [|split].
    + by rewrite map_app in *.
    + rewrite map_app in Hapart. cbn in Hapart.
      apply apart_middle in Hapart.
      apply Forall_app in Hmem as [Hm1 [Hm Hm2]%Forall_cons].
      apply Forall_app. split; [|constructor].
      * apply Forall_forall. intros kg Hkg. rewrite members_snoc.
        rewrite Forall_forall in Hg1, Hm1.
        rewrite (Hg1 kg Hkg), app_nil_r. by apply Hm1.
      * cbn in *. rewrite members_snoc, Hk. by rewrite Hm.
      * apply Forall_forall. intros kg Hkg. rewrite members_snoc.
        rewrite Forall_forall in Hm2. rewrite <- (Hm2 kg Hkg).
        destruct (same_row kg.1 key) eqn:Hkg'; [|by rewrite app_nil_r].
        rewrite Forall_forall in Hapart.
        assert (same_row k kg.1 = true) as Habs.
        { eapply same_row_trans; [exact Hk|]. by rewrite same_row_sym. }
        rewrite Hapart in Habs; [done|].
        apply list_elem_of_fmap. by exists kg.
    + apply Forall_app. split.
      * eapply Forall_impl; [exact Hcov|]. intros kr Hex.
        apply Exists_exists in Hex as (kg & Hkg & Hsame).
        apply Exists_exists.
        apply elem_of_app in Hkg as [Hkg|[->|Hkg]%elem_of_cons].
        -- exists kg. split; [|done]. apply elem_of_app. by left.
        -- exists (k, rs ++ [r]). split; [|done]. apply elem_of_app. right. left.
        -- exists kg. split; [|done]. apply elem_of_app. right. by right.
      * constructor; [|constructor]. apply Exists_exists.
        exists (k, rs ++ [r]). split; [|done]. apply elem_of_app. right. left.
  - split; [|split].
    + rewrite map_app. cbn. apply apart_snoc; [done|].
      by apply List.Forall_map.
    + apply Forall_app. split; [|constructor; [|constructor]].
      * apply Forall_forall. intros kg Hkg. rewrite members_snoc.
        rewrite Forall_forall in Hgs, Hmem.
        rewrite (Hgs kg Hkg), app_nil_r. by apply Hmem.
      * cbn. rewrite members_snoc, same_row_refl.
        assert (members seen key = []) as ->; [|done].
        unfold members.
        assert (List.filter (λ kr : list value * list value, same_row key kr.1)
                            seen = []) as ->; [|done].
        clear Hapart Hmem. induction Hcov as [|kr seen Hex _ IH]; [done|].
        cbn. rewrite IH. destruct (same_row key kr.1) eqn:Hkr; [|done].
        apply Exists_exists in Hex as (kg & Hkg & Hsame).
        rewrite Forall_forall in Hgs.
        assert (same_row kg.1 key = true) as Habs.
        { eapply same_row_trans; [exact Hsame|]. by rewrite same_row_sym. }
        by rewrite (Hgs kg Hkg) in Habs.
    + apply Forall_app. split.
      * eapply Forall_impl; [exact Hcov|]. intros kr Hex.
        apply Exists_app. by left.
      * constructor; [|constructor]. apply Exists_app. right. left.
        apply same_row_refl.
Qed.

Lemma foldl_grouped (keyed : list (list value * list value)) :
  grouped keyed (foldl (λ gs kr, add_to_group kr.1 kr.2 gs) [] keyed).
Proof.
  assert (∀ seen gs0, grouped seen gs0 →
            grouped (seen ++ keyed)
                    (foldl (λ gs kr, add_to_group kr.1 kr.2 gs) gs0 keyed)) as H.
  { induction keyed as [|[k r] keyed IH]; intros seen gs0 Hg; cbn.
    - by rewrite app_nil_r.
    - replace (seen ++ (k, r) :: keyed) with ((seen ++ [(k, r)]) ++ keyed)
        by (by rewrite <- app_assoc).
      by apply IH, add_to_group_grouped. }
  apply (H [] []). repeat split; constructor.
Qed.

(** GROUP BY, second account: each group holds exactly the rows of its key,
    and every row of the input has its group. *)
Lemma group_rows_exact keys names rows gs :
  group_rows keys names rows = inr gs →
  ∃ (keyed : list (list value * list value)) (kgs : keyed_groups),
    Forall2 (λ r kr, kr.2 = r ∧ mapM (λ f : row_fn, f names None r) keys = inr kr.1)
            rows keyed
    ∧ gs = map snd kgs
    ∧ NoDup (map fst kgs)
    ∧ Forall (λ kg, kg.2 = members keyed kg.1 ∧ headed keyed kg) kgs
    ∧ Forall (λ kr, Exists (λ kg, same_row kg.1 kr.1 = true) kgs) keyed.
Proof.
  unfold group_rows. intros H.
  apply bind_inr in H as (keyed & Hk & H). inversion H as [Hgs]. clear H Hgs.
  apply mapM_inr in Hk. exists keyed.
  destruct (foldl_groups keyed) as (Hnd & Hhead & _).
  destruct (foldl_grouped keyed) as (_ & Hmem & Hcov).
  set (gs0 := foldl _ _ _) in *.
  set (sorted := sort_by _ gs0).
  assert (sorted ≡ₚ gs0) as Hperm by apply sort_by_perm.
  exists sorted. split; [|split; [done|split; [by rewrite Hperm|split]]].
  - eapply Forall2_impl; [exact Hk|]. intros r kr Hr. cbn beta in Hr.
    apply bind_inr in Hr as (k & Hk' & Hr). by inversion Hr.
  - rewrite Hperm. apply Forall_forall. intros kg Hkg.
    rewrite Forall_forall in Hmem, Hhead. by split; [apply Hmem|apply Hhead].
  - eapply Forall_impl; [exact Hcov|]. intros kr Hex. by rewrite Hperm.
Qed.

(** With one grouping term, the size of a group is a count of values. *)
Lemma members_count (keyed : list (list value * list value)) vals v :
  Forall2 (λ s kr, kr.1 = [s]) vals keyed →
  Z.of_nat (length (members keyed [v])) = count_of v vals.
Proof.
  unfold count_of, members. intros H. f_equal. rewrite length_map.
  induction H as [|s kr vals keyed Hs _ IH]; [reflexivity|].
  cbn [List.filter]. rewrite Hs. cbn [same_row]. rewrite andb_true_r.
  destruct (same_value v s); cbn [length]; [f_equal|]; exact IH.
Qed.

(** The answer to [SELECT c, COUNT() FROM tbl GROUP BY c], whatever its
    ORDER BY and LIMIT clauses: one row for each group, made of the value of
    [c] in the group and the number of rows of [tbl] with that value; under every plan the same
    rows are sorted. *)
Lemma counted_answer_under p tbl c a1 a2 o l db t :
  denote_select_under p (Select [] false [(ECol None c, a1); (ECount, a2)]
                          (FTable tbl None) [] None [ECol None c] o l) db
  = inr t →
  ∃ tb vals (kgs : keyed_groups) outs,
    db !! tbl = Some tb
    ∧ mapM (λ r, resolve (rel_names (scan tbl tb)) r None c)
           (rel_rows (scan tbl tb)) = inr vals
    ∧ NoDup (map fst kgs)
    ∧ Forall (λ s, Exists (λ kg, same_row kg.1 [s] = true) kgs) vals
    ∧ Forall2 (λ kg out,
         ∃ v, kg.1 = [v] ∧ v ∈ vals
              ∧ out.1 = [v; VInt (count_of v vals)]
              ∧ mapM (λ k : (list string → list value → database → row_fn) * bool,
                        k.1 [out_name (ECol None c, a1); out_name (ECount, a2)]
                            out.1 db (rel_names (scan tbl tb))
                            (Some kg.2) (hd [] kg.2))
                     (map (λ c, (order_key c.1 (denote_expr_under p c.1), c.2)) o)
                = inr out.2) kgs outs
    ∧ t = Table [out_name (ECol None c, a1); out_name (ECount, a2)]
            (map fst (apply_limit l
               (sort_by (λ x y, keys_le (map snd o) x.2 y.2)
                  (arrange p (map snd o) outs))))
    ∧ ∀ q l',
        map (λ c, (order_key c.1 (denote_expr_under q c.1), c.2)) o
        = map (λ c, (order_key c.1 (denote_expr_under p c.1), c.2)) o →
        denote_select_under q
          (Select [] false [(ECol None c, a1); (ECount, a2)]
             (FTable tbl None) [] None [ECol None c] o l') db
        = inr (Table [out_name (ECol None c, a1); out_name (ECount, a2)]
                 (map fst (apply_limit l'
                    (sort_by (λ x y, keys_le (map snd o) x.2 y.2)
                       (arrange q (map snd o) outs))))).
Proof.
  rewrite denote_select_under_eq.
  intros (db' & R0 & R1 & rows & us & outs & Hdb & HR0 & HR1 & Hrows & Hus
          & Houts & -> & Hall)%run_select_under_inv.
  cbn in Hdb. inversion Hdb; subst db'. clear Hdb.
  cbn in HR0. apply bind_inr in HR0 as (tb & Htb%lookup_table_inr & HR0).
  inversion HR0; subst R0. clear HR0.
  cbn in HR1. inversion HR1; subst R1. clear HR1.
  inversion Hrows; subst rows. clear Hrows.
  unfold units in Hus.
  replace (is_aggregate _ _ o) with true in Hus by reflexivity.
  cbn [map] in Hus. cbn iota in Hus.
  apply bind_inr in Hus as (gs & Hgs & Hus). inversion Hus; subst us. clear Hus.
  apply group_rows_exact in Hgs as (keyed & kgs & Hkeyed & -> & Hnd & Hmem & Hcov).
  apply mapM_inr, Forall2_fmap_l in Houts.
  cbn [rel_names rel_rows] in Hkeyed.
  change (map (fit (length (t_cols tb))) (t_rows tb))
    with (rel_rows (scan tbl tb)) in Hkeyed.
  set (names := rel_names (scan tbl tb)) in *.
  assert (∃ vals,
            mapM (λ r, resolve names r None c) (rel_rows (scan tbl tb)) = inr vals
            ∧ Forall2 (λ s (kr : list value * list value), kr.1 = [s]) vals keyed
            ∧ Forall (λ kr : list value * list value,
                        ∃ s, kr.1 = [s] ∧ resolve names kr.2 None c = inr s
                             ∧ s ∈ vals) keyed)
    as (vals & Hvals & Hkv & Hks).
  { clear -Hkeyed. induction Hkeyed as [|r kr rows keyed [Hr Hk] _ IH].
    - exists []. by repeat split.
    - destruct IH as (vals & Hvals & Hkv & Hks).
      cbn [mapM denote_expr_under] in Hk.
      apply bind_inr in Hk as (s & Hs & Hk). inversion Hk as [Hk1].
      exists (s :: vals). split; [|split].
      + cbn [mapM]. by rewrite Hs, Hvals.
      + by constructor.
      + constructor.
        * exists s. split; [done|]. split; [by rewrite Hr|left].
        * eapply Forall_impl; [exact Hks|].
          intros kr' (s' & ? & ? & ?). exists s'.
          split; [done|]. split; [done|by right]. }
  exists tb, vals, kgs, outs. split; [exact Htb|]. split; [exact Hvals|].
  split; [exact Hnd|]. split; [|split; [|split]].
  4:{ intros q l' Ho. rewrite denote_select_under_eq, Ho.
      etrans; [exact (Hall q l')|]. by rewrite map_map. }
  3:{ by rewrite map_map. }
  - apply Forall_forall. intros s Hs.
    apply list_elem_of_lookup in Hs as [i Hi].
    destruct (Forall2_lookup_l _ _ _ _ _ Hkv Hi) as (kr & Hkr & Hk1).
    apply list_elem_of_lookup_2 in Hkr. rewrite Forall_forall in Hcov.
    rewrite <- Hk1. by apply Hcov.
  - clear Hnd Hcov Hall. revert outs Houts.
    induction Hmem as [|kg kgs [Hm (r0 & rest & Hrs & Hin)] _ IH];
      intros outs Houts.
    + inversion Houts. constructor.
    + inversion Houts as [|? out ? outs' Hout Houts']; subst.
      constructor; [|by apply IH].
      rewrite Forall_forall in Hks.
      destruct (Hks _ Hin) as (s & Hk1 & Hres & Hsv). cbn [fst snd] in Hk1, Hres.
      exists s. split; [exact Hk1|]. split; [exact Hsv|].
      unfold compose in Hout. cbn [map mapM fst snd denote_expr_under] in Hout.
      rewrite Hrs in Hout at 1. cbn [hd] in Hout. rewrite Hres in Hout.
      cbn [mbind result_bind mret result_ret] in Hout.
      apply bind_inr in Hout as (keys & Hkeys & Hout). inversion Hout; subst out.
      cbn [fst snd]. split.
      * do 3 f_equal. rewrite Hm, Hk1. by apply members_count.
      * exact Hkeys.
Qed.

Lemma counted_answer tbl c a1 a2 o l db t :
  denote_select (Select [] false [(ECol None c, a1); (ECount, a2)]
                   (FTable tbl None) [] None [ECol None c] o l) db = inr t →
  ∃ tb vals (kgs : keyed_groups) outs,
    db !! tbl = Some tb
    ∧ mapM (λ r, resolve (rel_names (scan tbl tb)) r None c)
           (rel_rows (scan tbl tb)) = inr vals
    ∧ NoDup (map fst kgs)
    ∧ Forall (λ s, Exists (λ kg, same_row kg.1 [s] = true) kgs) vals
    ∧ Forall2 (λ kg out,
         ∃ v, kg.1 = [v] ∧ v ∈ vals
              ∧ out.1 = [v; VInt (count_of v vals)]
              ∧ mapM (λ k : (list string → list value → database → row_fn) * bool,
                        k.1 [out_name (ECol None c, a1); out_name (ECount, a2)]
                            out.1 db (rel_names (scan tbl tb))
                            (Some kg.2) (hd [] kg.2))
                     (map (λ c, (order_key c.1 (denote_expr c.1), c.2)) o)
                = inr out.2) kgs outs
    ∧ t = Table [out_name (ECol None c, a1); out_name (ECount, a2)]
            (map fst (apply_limit l
               (sort_by (λ x y, keys_le (map snd o) x.2 y.2) outs))).
Proof.
  intros (tb & vals & kgs & outs & H1 & H2 & H3 & H4 & H5 & H6 & _)
    %counted_answer_under.
  by exists tb, vals, kgs, outs.
Qed.

(** *** Departures per airport *)

(** The answer to the first text, by groups. *)
Lemma departures_answer db t :
  (sqlite_execute sql_departures db).1 = inr t →
  ∃ tb (kgs : keyed_groups),
    db !! "routes" = Some tb
    ∧ t = Table ["depart_airport"; "number_of_departures"]
            (map (λ kg, [hd VNull kg.1; VInt (Z.of_nat (length kg.2))]) kgs)
    ∧ NoDup (map fst kgs)
    ∧ Forall (λ kg, (∃ v, kg.1 = [v]) ∧ kg.2 ≠ []) kgs
    ∧ sum_list_with (λ kg, length kg.2) kgs = length (t_rows tb).
Proof.
  unfold sqlite_execute_under. rewrite parse_departures. cbn [exec_statement_under fst].
  unfold q_departures. rewrite denote_select_eq.
  intros (db' & R0 & R1 & rows & us & outs & Hdb & HR0 & HR1 & Hrows & Hus
          & Houts & ->)%run_select_inv.
  cbn in Hdb. inversion Hdb; subst db'. clear Hdb.
  cbn in HR0. apply bind_inr in HR0 as (tb & Htb%lookup_table_inr & HR0).
  inversion HR0; subst R0. clear HR0.
  cbn in HR1. inversion HR1; subst R1. clear HR1.
  inversion Hrows; subst rows. clear Hrows.
  cbn [map is_aggregate] in Hus. unfold units in Hus.
  change (is_aggregate _ _ _) with true in Hus. cbn iota in Hus.
  apply bind_inr in Hus as (gs & Hgs & Hus). inversion Hus; subst us. clear Hus.
  apply group_rows_inv in Hgs as (kgs & -> & Hnd & Hhead & Hsum).
  apply mapM_inr, Forall2_fmap_l in Houts.
  exists tb, kgs. split; [exact Htb|].
  cbn in Hsum. rewrite length_map in Hsum.
  assert (Forall2 (λ (kg : list value * list (list value)) (o : list value * list value),
                     (∃ v, kg.1 = [v]) ∧ kg.2 ≠ []
                     ∧ o = ([hd VNull kg.1; VInt (Z.of_nat (length kg.2))], []))
                  kgs outs) as Hform.
  { clear Hsum Hnd. revert outs Houts.
    induction Hhead as [|kg kgs (r0 & rest & Hrs & _ & Hkey) _ IH];
      intros outs Houts.
    - inversion Houts. constructor.
    - inversion Houts as [|? o ? outs' Ho Houts']; subst.
      constructor; [|by apply IH].
      cbn in Hkey. apply bind_inr in Hkey as (v & Hv & Hkey).
      inversion Hkey as [Hk]. clear Hkey.
      rewrite Hrs in Ho. cbn in Ho. rewrite Hv in Ho. cbn in Ho.
      inversion Ho. rewrite Hrs. cbn. split; [by exists v|]. split; [done|].
      reflexivity. }
  assert (outs = map (λ kg : list value * list (list value),
                        ([hd VNull kg.1; VInt (Z.of_nat (length kg.2))],
                         @nil value)) kgs) as ->.
  { clear -Hform. induction Hform as [|kg o kgs outs (_ & _ & ->) _ IH]; [done|].
    cbn. by rewrite IH. }
  cbn [map snd apply_limit]. rewrite sort_by_unordered, map_map. cbn.
  split; [reflexivity|]. split; [exact Hnd|]. split; [|exact Hsum].
  clear -Hform. induction Hform as [|kg o kgs outs (? & ? & _) _ IH];
    constructor; [done|exact IH].
Qed.

(** X1: the first query shows its two columns under the names given with AS,
    and no departure airport in two rows. *)
Theorem departures_one_row_per_airport (db : database) (t : table) :
  (sqlite_execute sql_departures db).1 = inr t →
  t_cols t = ["depart_airport"; "number_of_departures"]
  ∧ NoDup (column 0 t).
Proof.
  intros (tb & kgs & _ & -> & Hnd & Hform & _)%departures_answer.
  split; [reflexivity|].
  unfold column. cbn. rewrite map_map. cbn.
  assert (map fst kgs = map (λ v : value, [v]) (map (λ kg, hd VNull kg.1) kgs))
    as Hkeys.
  { clear -Hform. induction Hform as [|kg kgs [[v Hv] _] _ IH]; [done|].
    cbn. rewrite <- IH, Hv. done. }
  rewrite Hkeys in Hnd. by apply (NoDup_fmap_1 (λ v : value, [v])) in Hnd.
Qed.

Lemma departures_one_row_per_airport_witness :
  (sqlite_execute sql_departures demo_flights).1 = inr demo_departures
  ∧ t_cols demo_departures = ["depart_airport"; "number_of_departures"]
  ∧ NoDup (column 0 demo_departures).
Proof.
  split; [exact demo_departures_answer|].
  exact (departures_one_row_per_airport _ _ demo_departures_answer).
Defined.

(** X2: the counts the first query shows are whole numbers, each at least 1,
    and they add up to the number of rows of [routes]: every route is counted
    once. *)
Theorem departures_count_every_route (db : database) (t : table) :
  (sqlite_execute sql_departures db).1 = inr t →
  ∃ (tb : table) (counts : list Z),
    db !! "routes" = Some tb
    ∧ column 1 t = map VInt counts
    ∧ Forall (λ n, 1 ≤ n) counts
    ∧ foldr Z.add 0 counts = Z.of_nat (length (t_rows tb)).
Proof.
  intros (tb & kgs & Htb & -> & _ & Hform & Hsum)%departures_answer.
  exists tb, (map (λ kg : list value * list (list value),
                     Z.of_nat (length kg.2)) kgs).
  split; [exact Htb|]. split.
  { unfold column. cbn. rewrite !map_map. done. }
  split.
  - apply Forall_fmap. eapply Forall_impl; [exact Hform|].
    intros kg [_ Hne]. cbn. destruct kg.2; [done|cbn; lia].
  - rewrite <- Hsum. clear. induction kgs as [|kg kgs IH]; [done|].
    cbn. rewrite IH. lia.
Qed.

Lemma departures_count_every_route_witness :
  (sqlite_execute sql_departures demo_flights).1 = inr demo_departures
  ∧ ∃ (tb : table) (counts : list Z),
      demo_flights !! "routes" = Some tb
      ∧ column 1 demo_departures = map VInt counts
      ∧ Forall (λ n, 1 ≤ n) counts
      ∧ foldr Z.add 0 counts = Z.of_nat (length (t_rows tb)).
Proof.
  split; [exact demo_departures_answer|].
  exact (departures_count_every_route _ _ demo_departures_answer).
Defined.

(** X3: the first query counts, for each airport that routes leave, the
    routes that leave it, and shows every such airport. *)
Theorem departures_counted (db : database) (t : table) :
  (sqlite_execute sql_departures db).1 = inr t →
  ∃ routes sources,
    db !! "routes" = Some routes
    ∧ read_column "routes" "source" routes = inr sources
    ∧ Forall (λ row, ∃ v, v ∈ sources ∧ row = [v; VInt (count_of v sources)])
             (t_rows t)
    ∧ Forall (λ s, Exists (λ v, same_value v s = true) (column 0 t)) sources.
Proof.
  unfold sqlite_execute_under. rewrite parse_departures. cbn [exec_statement_under fst].
  unfold q_departures.
  intros (tb & vals & kgs & outs & Htb & Hvals & _ & Hcov & Houts & ->)
    %counted_answer.
  exists tb, vals. split; [exact Htb|]. split; [exact Hvals|].
  cbn [t_rows map snd apply_limit]. rewrite sort_by_unordered. split.
  - apply List.Forall_map. apply Forall_forall. intros out Hout.
    apply list_elem_of_lookup in Hout as [i Hi].
    destruct (Forall2_lookup_r _ _ _ _ _ Houts Hi) as (kg & _ & v & _ & Hv & Ho & _).
    exists v. by split.
  - eapply Forall_impl; [exact Hcov|]. intros s Hex.
    apply Exists_exists in Hex as (kg & Hkg & Hsame).
    apply list_elem_of_lookup in Hkg as [i Hi].
    destruct (Forall2_lookup_l _ _ _ _ _ Houts Hi) as (out & Hout & v & Hk & _ & Ho & _).
    apply Exists_exists. exists v. split.
    + unfold column. cbn [t_rows]. rewrite map_map.
      apply list_elem_of_fmap. exists out. split; [by rewrite Ho|].
      by eapply list_elem_of_lookup_2.
    + by rewrite Hk, same_row_single in Hsame.
Qed.

Lemma departures_counted_witness :
  (sqlite_execute sql_departures demo_flights).1 = inr demo_departures
  ∧ ∃ routes sources,
      demo_flights !! "routes" = Some routes
      ∧ read_column "routes" "source" routes = inr sources
      ∧ Forall (λ row, ∃ v, v ∈ sources ∧ row = [v; VInt (count_of v sources)])
               (t_rows demo_departures)
      ∧ Forall (λ s, Exists (λ v, same_value v s = true)
                            (column 0 demo_departures)) sources.
Proof.
  split; [exact demo_departures_answer|].
  exact (departures_counted _ _ demo_departures_answer).
Defined.

(** *** The mean of the departure counts *)

(** The second text reads the answer to the first. *)
Lemma avg_departures_answer db t :
  (sqlite_execute sql_departures db).1 = inr t →
  (sqlite_execute sql_avg_departures db).1
  = inr (Table ["AVG(number_of_departures)"] [[avg (column 1 t)]]).
Proof.
  intros H. pose proof H as (tb & kgs & _ & Ht & _)%departures_answer.
  unfold sqlite_execute_under in *. rewrite parse_departures in H.
  rewrite parse_avg_departures. cbn [exec_statement_under fst] in *.
  unfold q_avg_departures. rewrite denote_select_eq. unfold run_select_under.
  cbn [with_ctes map]. change (mret db ≫= ?f) with (f db). cbn beta.
  cbn [denote_from_under]. rewrite H. subst t.
  cbn -[avg]. set (rows := map _ kgs).
  assert (map (fit 2) rows = rows) as ->.
  { unfold rows. rewrite map_map. reflexivity. }
  rewrite (mapM_inr_map _ (λ r, nth 1 r VNull)).
  - reflexivity.
  - intros r (kg & -> & _)%list_elem_of_fmap. reflexivity.
Qed.

(** X4: the second query, which reads the first as a subquery, shows the
    average of the counts the first query shows. *)
Theorem average_of_departures (db : database) (t : table) :
  (sqlite_execute sql_departures db).1 = inr t →
  (sqlite_execute sql_avg_departures db).1
  = inr (Table ["AVG(number_of_departures)"] [[avg (column 1 t)]]).
Proof. apply avg_departures_answer. Qed.

Lemma average_of_departures_witness :
  (sqlite_execute sql_departures demo_flights).1 = inr demo_departures
  ∧ (sqlite_execute sql_avg_departures demo_flights).1
    = inr (Table ["AVG(number_of_departures)"]
             [[avg (column 1 demo_departures)]]).
Proof.
  split; [exact demo_departures_answer|].
  exact (average_of_departures _ _ demo_departures_answer).
Defined.

Lemma fold_left_Qplus_ints (l : list Z) (a : Z) :
  Qeq (fold_left Qplus (map inject_Z l) (inject_Z a))
      (inject_Z (a + foldr Z.add 0 l)).
Proof.
  revert a. induction l as [|x l IH]; intros a; cbn.
  - by rewrite Z.add_0_r.
  - rewrite <- inject_Z_plus, IH. by rewrite Z.add_assoc.
Qed.

Lemma omap_num_of_ints (l : list Z) : omap num_of (map VInt l) = map inject_Z l.
Proof. induction l as [|x l IH]; [reflexivity|]. cbn. by rewrite IH. Qed.

(** AVG over whole numbers: their sum by their number. *)
Lemma avg_ints (l : list Z) :
  l ≠ [] →
  avg (map VInt l)
  = VReal (Qred (Qdiv (inject_Z (foldr Z.add 0 l))
                      (inject_Z (Z.of_nat (length l))))).
Proof.
  destruct l as [|c cs]; [done|]. intros _.
  unfold avg. rewrite omap_num_of_ints. cbn [map]. f_equal.
  apply Qred_complete. rewrite length_map.
  rewrite fold_left_Qplus_ints. reflexivity.
Qed.

(** X5: the average the second query shows is the number of routes divided
    by the number of airports that routes leave; NULL when there is no
    route. *)
Theorem average_is_routes_per_airport (db : database) (t : table) :
  (sqlite_execute sql_departures db).1 = inr t →
  ∃ routes,
    db !! "routes" = Some routes
    ∧ (sqlite_execute sql_avg_departures db).1
      = inr (Table ["AVG(number_of_departures)"]
               [[ratio (length (t_rows routes)) (length (t_rows t))]]).
Proof.
  intros H. pose proof H as (tb & kgs & Htb & Ht & _ & Hform & Hsum)%departures_answer.
  exists tb. split; [exact Htb|].
  rewrite (avg_departures_answer _ _ H). do 3 f_equal.
  subst t. unfold column. cbn [t_rows]. rewrite !map_map, length_map. cbn.
  rewrite <- Hsum. clear. destruct kgs as [|kg kgs]; [reflexivity|].
  f_equal. rewrite <- (map_map (λ x : list value * list (list value),
                                  Z.of_nat (length x.2)) VInt).
  rewrite avg_ints by done. unfold ratio. rewrite length_map. cbn [length].
  do 4 f_equal.
  induction (kg :: kgs) as [|x l IH]; [reflexivity|].
  cbn. rewrite IH. lia.
Qed.

Lemma average_is_routes_per_airport_witness :
  (sqlite_execute sql_departures demo_flights).1 = inr demo_departures
  ∧ ∃ routes,
      demo_flights !! "routes" = Some routes
      ∧ (sqlite_execute sql_avg_departures demo_flights).1
        = inr (Table ["AVG(number_of_departures)"]
                 [[ratio (length (t_rows routes))
                         (length (t_rows demo_departures))]]).
Proof.
  split; [exact demo_departures_answer|].
  exact (average_is_routes_per_airport _ _ demo_departures_answer).
Defined.

(** *** Countries by number of airports *)

(** X6: the third query shows at most five countries, none twice, with their
    counts from the highest down, each at least 1. *)
Theorem top_countries_ranked (db : database) (t : table) :
  (sqlite_execute sql_top_countries db).1 = inr t →
  (length (t_rows t) ≤ 5)%nat
  ∧ NoDup (column 0 t)
  ∧ ∃ counts : list Z,
      column 1 t = map VInt counts
      ∧ Sorted (λ a b, b ≤ a) counts
      ∧ Forall (λ n, 1 ≤ n) counts.
Proof.
  unfold sqlite_execute_under. rewrite parse_top_countries. cbn [exec_statement_under fst].
  unfold q_top_countries. rewrite denote_select_eq.
  intros (db' & R0 & R1 & rows & us & outs & Hdb & HR0 & HR1 & Hrows & Hus
          & Houts & ->)%run_select_inv.
  cbn in Hdb. inversion Hdb; subst db'. clear Hdb.
  cbn in HR0. apply bind_inr in HR0 as (tb & _ & HR0).
  inversion HR0; subst R0. clear HR0.
  cbn in HR1. inversion HR1; subst R1. clear HR1.
  inversion Hrows; subst rows. clear Hrows.
  unfold units in Hus. change (is_aggregate _ _ _) with true in Hus.
  cbn [map] in Hus. cbn iota in Hus.
  apply bind_inr in Hus as (gs & Hgs & Hus). inversion Hus; subst us. clear Hus.
  apply group_rows_inv in Hgs as (kgs & -> & Hnd & Hhead & _).
  apply mapM_inr, Forall2_fmap_l in Houts.
  assert (outs = map (λ kg : list value * list (list value),
                        ([hd VNull kg.1; VInt (Z.of_nat (length kg.2))],
                         [VInt (Z.of_nat (length kg.2))])) kgs
          ∧ Forall (λ kg : list value * list (list value),
                      (∃ v, kg.1 = [v]) ∧ kg.2 ≠ []) kgs) as [-> Hform].
  { clear Hnd. revert outs Houts.
    induction Hhead as [|[k rs] kgs (r0 & rest & Hrs & _ & Hkey) _ IH];
      intros outs Houts.
    - inversion Houts. split; constructor.
    - inversion Houts as [|? o ? outs' Ho Houts']; subst.
      destruct (IH _ Houts') as [-> Hf].
      cbn in Hkey, Hrs. apply bind_inr in Hkey as (v & Hv & Hkey).
      inversion Hkey; subst k rs. clear Hkey.
      cbn in Ho. rewrite Hv in Ho. cbn in Ho.
      inversion Ho. cbn. split; [reflexivity|].
      constructor; [|exact Hf]. split; [by exists v|done]. }
  cbn [map snd fst].
  set (outs := map _ kgs).
  set (sorted := sort_by _ outs).
  assert (sorted ≡ₚ outs) as Hperm by apply sort_by_perm.
  assert (Sorted (λ x y : list value * list value, keys_le [true] x.2 y.2 = true)
                 sorted) as Hsorted
    by (apply sort_by_sorted; intros a b; apply keys_le_total).
  set (P := λ o : list value * list value,
              ∃ v n, o = ([v; VInt n], [VInt n]) ∧ 1 ≤ n).
  assert (Forall P outs) as HP.
  { unfold outs. apply List.Forall_map. eapply Forall_impl; [exact Hform|].
    intros kg [[v Hv] Hne]. cbn. exists v, (Z.of_nat (length kg.2)).
    rewrite Hv. split; [done|]. destruct kg.2; [done|cbn; lia]. }
  assert (NoDup (map (λ o : list value * list value, nth 0 o.1 VNull) outs))
    as Hnd0.
  { unfold outs. rewrite map_map. cbn.
    assert (map fst kgs = map (λ v : value, [v]) (map (λ kg, hd VNull kg.1) kgs))
      as Hkeys.
    { clear -Hform. induction Hform as [|kg kgs [[v Hv] _] _ IH]; [done|].
      cbn. rewrite <- IH, Hv. done. }
    rewrite Hkeys in Hnd. by apply (NoDup_fmap_1 (λ v : value, [v])) in Hnd. }
  pose proof (apply_limit_sublist (Some 5%nat) sorted) as Hsub.
  set (taken := apply_limit (Some 5%nat) sorted) in *.
  assert (Forall P taken) as HPt.
  { apply Forall_forall. intros o Ho.
    apply (sublist_subseteq _ _ Hsub) in Ho. rewrite Hperm in Ho.
    rewrite Forall_forall in HP. by apply HP. }
  split; [|split].
  - cbn [t_rows]. rewrite length_map. apply apply_limit_length.
  - unfold column. cbn [t_rows]. rewrite map_map.
    refine (sublist_NoDup _ _ _ (fmap_sublist _ _ _ Hsub)).
    rewrite Hperm. exact Hnd0.
  - exists (map (λ o : list value * list value,
                   match o.2 with [VInt n] => n | _ => 0 end) taken).
    split; [|split].
    + unfold column. cbn [t_rows]. rewrite !map_map.
      apply map_ext_in. intros o Ho%list_elem_of_In.
      rewrite Forall_forall in HPt. by destruct (HPt o Ho) as (v & n & -> & _).
    + apply (Sorted_map_on
               (λ x y : list value * list value, keys_le [true] x.2 y.2 = true)
               _ P); [|exact HPt|by apply apply_limit_sorted].
      intros x y (v & n & -> & _) (v' & m & -> & _). cbn.
      destruct (Z.compare_spec n m); [lia|discriminate|lia].
    + apply List.Forall_map. eapply Forall_impl; [exact HPt|].
      by intros o (v & n & -> & ?).
Qed.

Lemma top_countries_ranked_witness :
  (sqlite_execute sql_top_countries demo_flights).1 = inr demo_top_countries
  ∧ (length (t_rows demo_top_countries) ≤ 5)%nat
  ∧ NoDup (column 0 demo_top_countries)
  ∧ ∃ counts : list Z,
      column 1 demo_top_countries = map VInt counts
      ∧ Sorted (λ a b, b ≤ a) counts
      ∧ Forall (λ n, 1 ≤ n) counts.
Proof.
  split; [exact demo_top_countries_answer|].
  exact (top_countries_ranked _ _ demo_top_countries_answer).
Defined.



(** *** Routes leaving the countries with most airports *)

(** The answer to a listing of routes: the joined rows on which the
    condition is true, each cut to its three columns, sorted on the third. *)
Lemma routes_answer ctes w db t :
  denote_select (routes_query ctes w) db = inr t →
  ∃ db' routes airports kept outs,
    with_ctes (map (λ c, (c.1, denote_select c.2)) ctes) db = inr db'
    ∧ db' !! "routes" = Some routes
    ∧ db' !! "airports" = Some airports
    ∧ Forall (λ r, holds (denote_expr w db') (routes_scope routes airports) r
                   = inr true) kept
    ∧ Forall2 (λ r (o : list value * list value),
                 ∃ a b c,
                   resolve (routes_scope routes airports) r (Some "ap") "country"
                   = inr c
                   ∧ o = ([a; b; c], [c])) kept outs
    ∧ t = Table ["depart_airport"; "destination_airport"; "depart_country"]
            (map fst (sort_by (λ x y : list value * list value,
                                 keys_le [false] x.2 y.2) outs)).
Proof.
  unfold routes_query. rewrite denote_select_eq.
  intros (db' & R0 & R1 & rows & us & outs & Hdb & HR0 & HR1 & Hrows & Hus
          & Houts & ->)%run_select_inv.
  cbn [denote_from_under] in HR0. apply bind_inr in HR0 as (routes & Hroutes & HR0).
  apply lookup_table_inr in Hroutes. inversion HR0; subst R0. clear HR0.
  unfold routes_joins in HR1. cbn [map apply_joins fst snd denote_from_under] in HR1.
  apply bind_inr in HR1 as (R & HR & HR1).
  apply bind_inr in HR as (airports & Hairports & HR).
  apply lookup_table_inr in Hairports. inversion HR; subst R. clear HR.
  apply bind_inr in HR1 as (R1' & HR1 & Heq). inversion Heq; subst R1'. clear Heq.
  unfold join_rel in HR1. apply bind_inr in HR1 as (joined & _ & HR1).
  inversion HR1; subst R1. clear HR1. cbn [rel_names rel_rows scan default] in *.
  apply filterM_inr in Hrows as [_ Hrows].
  unfold units in Hus. change (is_aggregate _ _ _) with false in Hus.
  cbn iota in Hus. inversion Hus; subst us. clear Hus.
  cbn [rel_rows] in Houts.
  apply mapM_inr, Forall2_fmap_l in Houts.
  exists db', routes, airports, rows, outs.
  split; [exact Hdb|]. split; [exact Hroutes|]. split; [exact Hairports|].
  split; [exact Hrows|]. split; [|reflexivity].
  eapply Forall2_impl; [exact Houts|]. cbn beta.
  intros r o Ho. unfold compose, routes_cols in Ho.
  cbn [map mapM fst snd denote_expr_under] in Ho.
  destruct (resolve _ r (Some "rt") "source") as [?|a]; [discriminate|].
  destruct (resolve _ r (Some "rt") "dest") as [?|b]; [discriminate|].
  unfold routes_scope.
  destruct (resolve _ r (Some "ap") "country") as [?|c]; [discriminate|].
  cbn in Ho. inversion Ho. by exists a, b, c.
Qed.

(** The three listings are [routes_query] with a condition that is an IN
    on [ap.country]. *)
Lemma routes_texts_parse sql :
  sql ∈ routes_texts →
  ∃ ctes a,
    parse_sql sql = Some (SSelect (routes_query ctes a))
    ∧ ∀ db names g r v,
        denote_expr a db names g r = inr v →
        ∃ c vs, resolve names r (Some "ap") "country" = inr c ∧ v = sql_in c vs.
Proof.
  intros H. repeat apply elem_of_cons in H as [->|H]; [| | |by apply elem_of_nil in H].
  - eexists _, _. split; [exact parse_routes_listed|].
    intros db names g r v Hv. cbn [denote_expr_under] in Hv.
    apply bind_inr in Hv as (c & Hc & Hv).
    apply bind_inr in Hv as (vs & Hvs & Hv). inversion Hv. by exists c, vs.
  - eexists _, _. split; [exact parse_routes_subquery|].
    intros db names g r v Hv. cbn [denote_expr_under] in Hv. unfold in_table in Hv.
    apply bind_inr in Hv as (c & Hc & Hv).
    apply bind_inr in Hv as (t5 & Ht5 & Hv).
    apply bind_inr in Hv as (vs & Hvs & Hv). inversion Hv. by exists c, vs.
  - eexists _, _. split; [exact parse_routes_cte|].
    intros db names g r v Hv. cbn [denote_expr_under] in Hv. unfold in_table in Hv.
    apply bind_inr in Hv as (c & Hc & Hv).
    apply bind_inr in Hv as (t5 & Ht5 & Hv).
    apply bind_inr in Hv as (vs & Hvs & Hv). inversion Hv. by exists c, vs.
Qed.

(** So their rows have three values, the third not NULL. *)
Lemma routes_texts_answer sql db t :
  sql ∈ routes_texts →
  (sqlite_execute sql db).1 = inr t →
  ∃ outs : list (list value * list value),
    Forall (λ o, ∃ a b c, o = ([a; b; c], [c]) ∧ c ≠ VNull) outs
    ∧ t = Table routes_names
            (map fst (sort_by (λ x y : list value * list value,
                                 keys_le [false] x.2 y.2) outs)).
Proof.
  intros (ctes & w & Hparse & Hw)%routes_texts_parse.
  unfold sqlite_execute_under. rewrite Hparse. cbn [exec_statement_under fst].
  intros (db' & routes & airports & kept & outs & _ & _ & _ & Hkept & Houts & ->)
    %routes_answer.
  exists outs. split; [|reflexivity].
  clear -Hw Hkept Houts. induction Houts as [|r o kept outs Ho _ IH].
  - constructor.
  - apply Forall_cons in Hkept as [Hr Hkept]. constructor; [|by apply IH].
    destruct Ho as (a & b & c & Hc & ->). exists a, b, c. split; [done|].
    apply holds_true in Hr as (v & Hv & Ht).
    apply Hw in Hv as (c' & vs & Hc' & ->).
    rewrite Hc in Hc'. inversion Hc'; subst c'.
    by apply sql_in_true in Ht as [? _].
Qed.

(** X8: each of the three listings of routes has the three columns named
    with AS, three values in every row, and its rows in ascending order of
    departure country. *)
Theorem routes_by_country (sql : string) (db : database) (t : table) :
  sql ∈ routes_texts →
  (sqlite_execute sql db).1 = inr t →
  t_cols t = routes_names
  ∧ Forall (λ r, length r = 3%nat) (t_rows t)
  ∧ Sorted (λ a b, value_compare a b ≠ Gt) (column 2 t).
Proof.
  intros Hsql (outs & Houts & ->)%(routes_texts_answer _ _ _ Hsql).
  set (sorted := sort_by _ outs).
  assert (Forall (λ o : list value * list value,
                    ∃ a b c, o = ([a; b; c], [c]) ∧ c ≠ VNull) sorted) as Hs.
  { apply Forall_forall. intros o Ho. unfold sorted in Ho.
    rewrite sort_by_perm in Ho. rewrite Forall_forall in Houts. by apply Houts. }
  split; [reflexivity|]. split.
  - cbn [t_rows]. apply List.Forall_map. eapply Forall_impl; [exact Hs|].
    by intros o (a & b & c & -> & _).
  - unfold column. cbn [t_rows]. rewrite map_map.
    apply (Sorted_map_on
             (λ x y : list value * list value, keys_le [false] x.2 y.2 = true)
             _ (λ o, ∃ a b c, o = ([a; b; c], [c]) ∧ c ≠ VNull));
      [|exact Hs|apply sort_by_sorted; intros a b; apply keys_le_total].
    intros x y (a & b & c & -> & _) (a' & b' & c' & -> & _). cbn.
    by destruct (value_compare c c').
Qed.

Lemma routes_by_country_witness :
  sql_routes_subquery ∈ routes_texts
  ∧ (sqlite_execute sql_routes_subquery demo_flights).1 = inr demo_routes
  ∧ t_cols demo_routes = routes_names
  ∧ Forall (λ r, length r = 3%nat) (t_rows demo_routes)
  ∧ Sorted (λ a b, value_compare a b ≠ Gt) (column 2 demo_routes).
Proof.
  assert (sql_routes_subquery ∈ routes_texts) as Hin by (right; left).
  split; [exact Hin|]. split; [exact demo_routes_subquery_answer|].
  exact (routes_by_country _ _ _ Hin demo_routes_subquery_answer).
Defined.

(** X9: although the join is a LEFT JOIN, a route whose departure airport is
    not in [airports], or has no country there, is left out of the three
    listings: the condition on the country is not true of it. *)
Theorem routes_country_known (sql : string) (db : database) (t : table) :
  sql ∈ routes_texts →
  (sqlite_execute sql db).1 = inr t →
  Forall (λ c, c ≠ VNull) (column 2 t).
Proof.
  intros Hsql (outs & Houts & ->)%(routes_texts_answer _ _ _ Hsql).
  unfold column. cbn [t_rows]. rewrite map_map. apply List.Forall_map.
  apply Forall_forall. intros o Ho. rewrite sort_by_perm in Ho.
  rewrite Forall_forall in Houts.
  by destruct (Houts o Ho) as (a & b & c & -> & Hc).
Qed.

Lemma routes_country_known_witness :
  sql_routes_cte ∈ routes_texts
  ∧ (sqlite_execute sql_routes_cte demo_flights).1 = inr demo_routes
  ∧ Forall (λ c, c ≠ VNull) (column 2 demo_routes).
Proof.
  assert (sql_routes_cte ∈ routes_texts) as Hin by (right; right; left).
  split; [exact Hin|]. split; [exact demo_routes_cte_answer|].
  exact (routes_country_known _ _ _ Hin demo_routes_cte_answer).
Defined.

Lemma matches_none_scope s routes airports :
  Forall (λ c, same_name c s = false) (t_cols routes ++ t_cols airports) →
  existsb (matches None s) (routes_scope routes airports) = false.
Proof.
  intros Hs. apply not_true_is_false. intros [n [Hn Hm]]%existsb_exists.
  unfold matches in Hm. rewrite andb_true_r in Hm.
  rewrite Forall_forall in Hs. rewrite Hs in Hm; [discriminate|].
  apply list_elem_of_In in Hn. unfold routes_scope in Hn.
  apply elem_of_app in Hn as [Hn|Hn]; apply elem_of_app; [left|right];
    apply list_elem_of_fmap in Hn as (c & -> & Hc); exact Hc.
Qed.

(** Names in double quotes that no column in scope bears are texts. *)
Lemma quoted_texts (l : list string) db names g r :
  Forall (λ s, existsb (matches None s) names = false) l →
  mapM (λ f : database → row_fn, f db names g r) (map denote_expr (map EDq l))
  = inr (map VText l).
Proof.
  induction 1 as [|s l Hs _ IH]; [reflexivity|].
  cbn [map mapM denote_expr_under]. rewrite Hs, IH. reflexivity.
Qed.

(** X10: the country names of the fourth query are written in double quotes,
    which name a column first and a text otherwise.  Unless a column of
    [routes] or [airports] bears the name of one of the five countries, in
    whatever case of letters, the listing shows routes leaving those five
    countries only. *)
Theorem listed_routes_countries (db : database) (routes airports t : table) :
  db !! "routes" = Some routes →
  db !! "airports" = Some airports →
  (∀ s c, s ∈ listed → c ∈ t_cols routes ++ t_cols airports →
          same_name c s = false) →
  (sqlite_execute sql_routes_listed db).1 = inr t →
  Forall (λ c, ∃ s, c = VText s ∧ s ∈ listed) (column 2 t).
Proof.
  intros Hroutes Hairports Hcols.
  unfold sqlite_execute_under. rewrite parse_routes_listed. cbn [exec_statement_under fst].
  intros (db' & routes' & airports' & kept & outs & Hdb & Hroutes' & Hairports'
          & Hkept & Houts & ->)%routes_answer.
  cbn in Hdb. inversion Hdb; subst db'. clear Hdb.
  rewrite Hroutes in Hroutes'. inversion Hroutes'; subst routes'.
  rewrite Hairports in Hairports'. inversion Hairports'; subst airports'.
  unfold column. cbn [t_rows]. rewrite map_map. apply List.Forall_map.
  apply Forall_forall. intros o Ho. rewrite sort_by_perm in Ho.
  apply list_elem_of_lookup in Ho as [i Hi].
  destruct (Forall2_lookup_r _ _ _ _ _ Houts Hi) as (r & Hr & a & b & c & Hc & ->).
  apply list_elem_of_lookup_2 in Hr. rewrite Forall_forall in Hkept.
  apply Hkept, holds_true in Hr as (v & Hv & Ht).
  cbn [denote_expr_under] in Hv. rewrite Hc in Hv. cbn [mbind result_bind] in Hv.
  unfold listed_countries in Hv. rewrite quoted_texts in Hv.
  2:{ apply Forall_forall. intros s Hs. apply matches_none_scope.
      apply Forall_forall. intros n Hn. by apply Hcols. }
  assert (v = sql_in c (map VText listed)) as -> by (by inversion Hv).
  apply sql_in_true in Ht as [_ Hin].
  apply existsb_exists in Hin as (x & Hx & Hsame).
  apply list_elem_of_In, list_elem_of_fmap in Hx as (s & -> & Hs).
  apply same_value_text in Hsame. by exists s.
Qed.

Lemma listed_routes_countries_witness :
  let t := Table routes_names
             [[VText "YUL"; VText "CDG"; VText "Canada"];
              [VText "FRA"; VText "YUL"; VText "Germany"]] in
  (sqlite_execute sql_routes_listed demo_atlas).1 = inr t
  ∧ Forall (λ c, ∃ s, c = VText s ∧ s ∈ listed) (column 2 t).
Proof.
  assert ((sqlite_execute sql_routes_listed demo_atlas).1
          = inr (Table routes_names
                   [[VText "YUL"; VText "CDG"; VText "Canada"];
                    [VText "FRA"; VText "YUL"; VText "Germany"]])) as H
    by (vm_compute; reflexivity).
  split; [exact H|].
  refine (listed_routes_countries demo_atlas
            (Table ["source"; "source_id"; "dest"] _)
            (Table ["id"; "country"] _) _ _ _ _ H).
  - reflexivity.
  - reflexivity.
  - intros s c Hs Hc. revert c Hc. apply Forall_forall.
    revert s Hs. apply Forall_forall.
    apply (bool_decide_unpack _). vm_compute. reflexivity.
Defined.

(** With a column named [canada] the quoted name is that column, and the
    listing shows a country that is none of the five. *)
Example quoted_name_reads_column :
  (sqlite_execute sql_routes_listed demo_lima).1
  = inr (Table routes_names [[VText "LIM"; VText "YUL"; VText "Peru"]]).
Proof. vm_compute. reflexivity. Qed.

(** Naming the subquery in a WITH clause does not change the answer: the
    two statements go through the same stages, on the same rows. *)
Lemma routes_cte_subquery db t :
  denote_select q_routes_cte db = inr t → denote_select q_routes_subquery db = inr t.
Proof.
  unfold q_routes_cte, q_routes_subquery, routes_query.
  rewrite !denote_select_eq. unfold run_select_under.
  cbn [with_ctes map fst snd].
  destruct (denote_select q_top5 db) as [e|t5] eqn:H5; [discriminate|].
  change (mret db ≫= ?f) with (f db).
  change (inr t5 ≫= ?f) with (f t5). cbn beta.
  change (mret ?x ≫= ?f) with (f x). cbn beta.
  intros H. rewrite <- H. clear H.
  unfold routes_joins, routes_cols. cbn [map fst snd apply_joins denote_from_under].
  unfold lookup_table. rewrite !lookup_insert_ne by done.
  destruct (db !! "routes") as [routes|]; [|reflexivity].
  destruct (db !! "airports") as [airports|]; [|reflexivity].
  cbn [mbind result_bind mret result_ret default].
  destruct (join_rel _ _ _ _) as [e|R1] eqn:HR1; [reflexivity|]. clear HR1.
  cbn [mbind result_bind mret result_ret].
  rewrite (filterM_ext
             (holds (denote_expr (EInTable (ECol (Some "ap") "country")
                                    "top_5_countries")
                       (<["top_5_countries":=t5]> db)) (rel_names R1))
             (holds (denote_expr (EInSelect (ECol (Some "ap") "country") q_top5)
                       db) (rel_names R1))).
  2:{ intros r _. unfold holds. cbn [denote_expr_under]. unfold in_table, lookup_table.
      rewrite lookup_insert_eq, H5. reflexivity. }
  destruct (filterM _ _) as [e|rows]; [reflexivity|].
  change (is_aggregate _ _ _) with false. cbn [units rel_rows rel_names].
  cbn [map mapM fst snd denote_expr_under].
  cbn [mbind result_bind mret result_ret].
  erewrite mapM_ext; [reflexivity|].
  intros u _. cbn beta.
  apply bind_ext. intros out. unfold order_key.
  by destruct (assoc _ _).
Qed.

(** X11: what the listing with the common table expression shows, the
    listing with the subquery shows as well.  (The converse needs the subquery
    to answer: a common table expression is computed where it is defined, a
    subquery when a row first needs it.) *)
Theorem cte_same_as_subquery (db : database) (t : table) :
  (sqlite_execute sql_routes_cte db).1 = inr t →
  (sqlite_execute sql_routes_subquery db).1 = inr t.
Proof.
  unfold sqlite_execute_under. rewrite parse_routes_cte, parse_routes_subquery.
  cbn [exec_statement_under fst]. apply routes_cte_subquery.
Qed.

Lemma cte_same_as_subquery_witness :
  (sqlite_execute sql_routes_cte demo_flights).1 = inr demo_routes
  ∧ (sqlite_execute sql_routes_subquery demo_flights).1 = inr demo_routes.
Proof.
  split; [exact demo_routes_cte_answer|].
  exact (cte_same_as_subquery _ _ demo_routes_cte_answer).
Defined.

(** The answer to a query that groups [airports] by country. *)
Lemma country_groups cols o l db t :
  denote_select (Select [] false cols (FTable "airports" None) []
                   None [ECol None "country"] o l) db = inr t →
  ∃ tb gs outs,
    db !! "airports" = Some tb
    ∧ group_rows [λ names _ r, resolve names r None "country"]
        (rel_names (scan "airports" tb)) (rel_rows (scan "airports" tb)) = inr gs
    ∧ Forall2 (λ rs out,
         let names := rel_names (scan "airports" tb) in
         let u := (hd [] rs, Some rs) in
         (out ← mapM (λ c : database → row_fn, c db names u.2 u.1)
                     (map (λ c, denote_expr c.1) cols);
          keys ← mapM (λ k : (list string → list value → database → row_fn) * bool,
                         k.1 (map out_name cols) out db names u.2 u.1)
                      (map (λ c, (order_key c.1 (denote_expr c.1), c.2)) o);
          mret (out, keys)) = inr out) gs outs
    ∧ t = Table (map out_name cols)
            (map fst (apply_limit l
               (sort_by (λ x y, keys_le (map snd o) x.2 y.2) outs))).
Proof.
  rewrite denote_select_eq.
  intros (db' & R0 & R1 & rows & us & outs & Hdb & HR0 & HR1 & Hrows & Hus
          & Houts & ->)%run_select_inv.
  cbn in Hdb. inversion Hdb; subst db'. clear Hdb.
  cbn in HR0. apply bind_inr in HR0 as (tb & Htb%lookup_table_inr & HR0).
  inversion HR0; subst R0. clear HR0.
  cbn in HR1. inversion HR1; subst R1. clear HR1.
  inversion Hrows; subst rows. clear Hrows.
  unfold units in Hus.
  replace (is_aggregate cols [ECol None "country"] o) with true in Hus
    by reflexivity.
  cbn [map] in Hus. cbn iota in Hus.
  apply bind_inr in Hus as (gs & Hgs & Hus). inversion Hus; subst us. clear Hus.
  apply mapM_inr, Forall2_fmap_l in Houts.
  exists tb, gs, outs. split; [exact Htb|]. split; [exact Hgs|].
  split; [exact Houts|]. by rewrite map_map.
Qed.

(** The subquery of the listings yields the first column of the third
    query's answer: it sorts the same groups on the same counts. *)
Lemma top5_of_top_countries db t3 t5 :
  denote_select q_top_countries db = inr t3 →
  denote_select q_top5 db = inr t5 →
  t5 = Table ["country"] (map (take 1) (t_rows t3)).
Proof.
  unfold q_top_countries, q_top5.
  intros (tb & gs & outs3 & Htb & Hgs & Houts3 & ->)%country_groups.
  intros (tb' & gs' & outs5 & Htb' & Hgs' & Houts5 & ->)%country_groups.
  rewrite Htb in Htb'. inversion Htb'; subst tb'. clear Htb'.
  rewrite Hgs in Hgs'. inversion Hgs'; subst gs'. clear Hgs'.
  assert (outs5 = map (λ o : list value * list value, (take 1 o.1, o.2)) outs3)
    as ->.
  { clear Hgs. revert outs5 Houts5.
    induction Houts3 as [|rs o3 gs outs3 Ho3 _ IH]; intros outs5 Houts5.
    - by inversion Houts5.
    - inversion Houts5 as [|? o5 ? outs5' Ho5 Houts5']; subst.
      rewrite (IH _ Houts5'). f_equal.
      cbn in Ho3, Ho5.
      destruct (resolve _ _ None "country") as [?|c]; [discriminate|].
      cbn in Ho3, Ho5. inversion Ho3. inversion Ho5. reflexivity. }
  cbn [t_rows map snd fst].
  rewrite (sort_by_map (λ o : list value * list value, (take 1 o.1, o.2))
             (λ x y, keys_le [true] x.2 y.2)) by reflexivity.
  rewrite apply_limit_map, !map_map. reflexivity.
Qed.

(** X12: the routes listed through the subquery, or through the common
    table expression, leave countries that the ranking of the third query
    shows: the subquery sorts the same groups on the same counts, and ties at
    the fifth place are cut alike in both. *)
Theorem routes_leave_top_countries (sql : string) (db : database)
    (top t : table) :
  sql = sql_routes_subquery ∨ sql = sql_routes_cte →
  (sqlite_execute sql_top_countries db).1 = inr top →
  (sqlite_execute sql db).1 = inr t →
  Forall (λ c, existsb (same_value c) (column 0 top) = true) (column 2 t).
Proof.
  intros Hsql Htop Ht.
  assert (denote_select q_routes_subquery db = inr t) as H.
  { destruct Hsql as [->| ->]; unfold sqlite_execute_under in Ht.
    - by rewrite parse_routes_subquery in Ht.
    - rewrite parse_routes_cte in Ht. by apply routes_cte_subquery. }
  clear Ht Hsql. unfold sqlite_execute_under in Htop.
  rewrite parse_top_countries in Htop. cbn [exec_statement_under fst] in Htop.
  apply routes_answer in H
    as (db' & routes & airports & kept & outs & Hdb & _ & _ & Hkept & Houts & ->).
  cbn in Hdb. inversion Hdb; subst db'. clear Hdb.
  unfold column at 2. cbn [t_rows]. rewrite map_map. apply List.Forall_map.
  apply Forall_forall. intros o Ho. rewrite sort_by_perm in Ho.
  apply list_elem_of_lookup in Ho as [i Hi].
  destruct (Forall2_lookup_r _ _ _ _ _ Houts Hi) as (r & Hr & a & b & c & Hc & ->).
  apply list_elem_of_lookup_2 in Hr. rewrite Forall_forall in Hkept.
  apply Hkept, holds_true in Hr as (v & Hv & Hv').
  cbn [denote_expr_under] in Hv. unfold in_table in Hv. rewrite Hc in Hv.
  cbn [mbind result_bind] in Hv.
  apply bind_inr in Hv as (t5 & Ht5 & Hv).
  rewrite (top5_of_top_countries _ _ _ Htop Ht5) in Hv.
  assert (v = sql_in c (column 0 top)) as ->.
  { cbn in Hv. inversion Hv. unfold column. rewrite map_map. f_equal.
    apply map_ext. by intros []. }
  by apply sql_in_true in Hv' as [_ ?].
Qed.

Lemma routes_leave_top_countries_witness :
  (sql_routes_cte = sql_routes_subquery ∨ sql_routes_cte = sql_routes_cte)
  ∧ (sqlite_execute sql_top_countries demo_flights).1 = inr demo_top_countries
  ∧ (sqlite_execute sql_routes_cte demo_flights).1 = inr demo_routes
  ∧ Forall (λ c, existsb (same_value c) (column 0 demo_top_countries) = true)
           (column 2 demo_routes).
Proof.
  assert (sql_routes_cte = sql_routes_subquery ∨ sql_routes_cte = sql_routes_cte)
    as Hsql by (right; reflexivity).
  split; [exact Hsql|]. split; [exact demo_top_countries_answer|].
  split; [exact demo_routes_cte_answer|].
  exact (routes_leave_top_countries _ _ _ _ Hsql demo_top_countries_answer
           demo_routes_cte_answer).
Defined.

(** *** The exercise query *)

Lemma filter_other_qualifier q c (names : list (string * string)) row :
  Forall (λ n, same_name n.1 q = false) names →
  List.filter (λ nv : string * string * value, matches (Some q) c nv.1)
              (zip names row) = [].
Proof.
  intros H. revert row. induction H as [|n names Hn _ IH]; intros [|v row];
    try reflexivity.
  cbn [zip zip_with List.filter fst]. unfold matches at 1.
  rewrite Hn, andb_false_r. apply IH.
Qed.

(** In a join, a column qualified with the alias of one side is read from
    that side. *)
Lemma resolve_app_l namesL namesR l r q c :
  length l = length namesL →
  Forall (λ n, same_name n.1 q = false) namesR →
  resolve (namesL ++ namesR) (l ++ r) (Some q) c = resolve namesL l (Some q) c.
Proof.
  intros Hlen HR. unfold resolve.
  rewrite zip_with_app by done.
  rewrite List.filter_app, (filter_other_qualifier _ _ _ _ HR), app_nil_r.
  reflexivity.
Qed.

Lemma resolve_app_r namesL namesR l r q c :
  length l = length namesL →
  Forall (λ n, same_name n.1 q = false) namesL →
  resolve (namesL ++ namesR) (l ++ r) (Some q) c = resolve namesR r (Some q) c.
Proof.
  intros Hlen HL. unfold resolve.
  rewrite zip_with_app by done.
  rewrite List.filter_app, (filter_other_qualifier _ _ _ _ HL). reflexivity.
Qed.

Lemma scan_qualifier q q' tb :
  same_name q q' = false →
  Forall (λ n : string * string, same_name n.1 q' = false)
         (rel_names (scan q tb)).
Proof. intros H. cbn. apply List.Forall_map. by apply Forall_forall. Qed.

(** The rows of an inner join: a row of the left and a row of the right put
    side by side, on which the condition holds. *)
Lemma join_rel_inner on L R J x :
  join_rel InnerJoin on L R = inr J →
  x ∈ rel_rows J →
  rel_names J = rel_names L ++ rel_names R
  ∧ ∃ l r, l ∈ rel_rows L ∧ r ∈ rel_rows R ∧ x = l ++ r
           ∧ holds on (rel_names L ++ rel_names R) x = inr true.
Proof.
  unfold join_rel. intros (rows & Hrows & HJ)%bind_inr Hx.
  inversion HJ; subst J. clear HJ. split; [reflexivity|].
  cbn [rel_rows] in Hx. apply list_elem_of_In, in_concat in Hx
    as (ms & Hms%list_elem_of_In & Hx%list_elem_of_In).
  apply mapM_inr in Hrows.
  apply list_elem_of_lookup in Hms as [i Hi].
  destruct (Forall2_lookup_r _ _ _ _ _ Hrows Hi) as (l & Hl & Hjoin).
  apply list_elem_of_lookup_2 in Hl.
  unfold join_one in Hjoin. apply bind_inr in Hjoin as (ms' & Hms' & Hjoin).
  assert (ms = ms') as <- by (inversion Hjoin; by destruct ms').
  apply filterM_inr in Hms' as [Hsub Hall].
  rewrite Forall_forall in Hall. pose proof (Hall x Hx) as Hon.
  apply (sublist_subseteq _ _ Hsub) in Hx.
  apply list_elem_of_fmap in Hx as (r & -> & Hr).
  by exists l, r.
Qed.

(** X13: every name the exercise query shows is the name of an airline that
    flies a route from or to one of at most three airports, those its common
    table expression holds. *)
Theorem exercise_names_serve_top (db : database) (t : table) :
  (sqlite_execute sql_exercise db).1 = inr t →
  ∃ airlines routes top,
    db !! "airlines" = Some airlines
    ∧ db !! "routes" = Some routes
    ∧ denote_select q_top3 db = inr top
    ∧ (length (t_rows top) ≤ 3)%nat
    ∧ Forall (serves airlines routes (column 0 top)) (column 0 t).
Proof.
  unfold sqlite_execute_under. rewrite parse_exercise. cbn [exec_statement_under fst].
  unfold q_exercise. rewrite denote_select_eq.
  intros (db' & R0 & R1 & rows & us & outs & Hdb & HR0 & HR1 & Hrows & Hus
          & Houts & ->)%run_select_inv.
  cbn [map with_ctes fst snd] in Hdb.
  apply bind_inr in Hdb as (t3 & Ht3 & Hdb). inversion Hdb; subst db'. clear Hdb.
  cbn [denote_from_under] in HR0.
  apply bind_inr in HR0 as (airlines & Ha%lookup_table_inr & HR0).
  rewrite lookup_insert_ne in Ha by done.
  inversion HR0; subst R0. clear HR0.
  cbn [map apply_joins fst snd denote_from_under] in HR1.
  apply bind_inr in HR1 as (R & HR & HR1).
  apply bind_inr in HR as (routes & Hr%lookup_table_inr & HR).
  rewrite lookup_insert_ne in Hr by done.
  inversion HR; subst R. clear HR.
  apply bind_inr in HR1 as (J & HJ & HR1). inversion HR1; subst J. clear HR1.
  cbn [default] in HJ.
  apply filterM_inr in Hrows as [Hsub Hwhere].
  unfold units in Hus. change (is_aggregate _ _ _) with false in Hus.
  cbn iota in Hus. inversion Hus; subst us. clear Hus.
  cbn [rel_rows] in Houts. apply mapM_inr, Forall2_fmap_l in Houts.
  exists airlines, routes, t3. split; [exact Ha|]. split; [exact Hr|].
  split; [exact Ht3|]. split; [exact (limit_bounds _ _ _ _ _ _ _ _ _ _ _ Ht3)|].
  unfold column at 2. cbn [t_rows map snd apply_limit].
  rewrite sort_by_unordered, map_map. apply List.Forall_map.
  apply Forall_forall. intros o Ho%distinct_rows_sub.
  apply list_elem_of_lookup in Ho as [i Hi].
  destruct (Forall2_lookup_r _ _ _ _ _ Houts Hi) as (x & Hx & Hout).
  apply list_elem_of_lookup_2 in Hx.
  rewrite Forall_forall in Hwhere. pose proof (Hwhere x Hx) as Hw.
  apply (sublist_subseteq _ _ Hsub) in Hx.
  destruct (join_rel_inner _ _ _ _ _ HJ Hx)
    as (Hnames & a & r & Hain & Hrin & -> & Hon).
  rewrite Hnames in Hout, Hw. unfold compose in Hout.
  cbn [map mapM fst snd denote_expr_under] in Hout.
  pose proof (scan_rows_wide _ _ _ Hain) as Hwide.
  rewrite resolve_app_l in Hout
    by (done || by apply scan_qualifier).
  destruct (resolve _ a (Some "a") "name") as [?|v] eqn:Hv; [discriminate|].
  cbn in Hout. inversion Hout. cbn.
  apply holds_true in Hon as (b & Hb & Htrue).
  cbn [denote_expr_under] in Hb.
  rewrite (resolve_app_l _ _ _ _ "a") in Hb by (done || by apply scan_qualifier).
  rewrite (resolve_app_r _ _ _ _ "r") in Hb by (done || by apply scan_qualifier).
  apply bind_inr in Hb as (ida & Hida & Hb).
  apply bind_inr in Hb as (idr & Hidr & Hb). inversion Hb; subst b.
  assert (∃ y, (resolve (rel_names (scan "r" routes)) r (Some "r") "source_id"
                = inr y
                ∨ resolve (rel_names (scan "r" routes)) r (Some "r") "dest_id"
                  = inr y)
               ∧ existsb (same_value y) (column 0 t3) = true) as (y & Hy & Hin).
  { apply holds_true in Hw as (w & Hw & Hwt). cbn [denote_expr_under] in Hw.
    apply bind_inr in Hw as (w1 & Hw1 & Hw).
    apply bind_inr in Hw as (w2 & Hw2 & Hw).
    assert (w = sql_or w1 w2) as -> by (by inversion Hw).
    destruct (sql_or_true _ _ Hwt) as [H1|H2].
    - destruct (in_table_true (ECol (Some "r") "source_id") "top_3_airports"
                  (<["top_3_airports":=t3]> db)
                  (rel_names (scan "a" airlines) ++ rel_names (scan "r" routes))
                  (a ++ r) t3) as (y & Hy & Hin).
      + apply lookup_insert_eq.
      + unfold holds. cbn [denote_expr_under]. rewrite Hw1. cbn. by rewrite H1.
      + cbn [denote_expr_under] in Hy.
        rewrite (resolve_app_r _ _ _ _ "r") in Hy
          by (done || by apply scan_qualifier).
        exists y. split; [by left|exact Hin].
    - destruct (in_table_true (ECol (Some "r") "dest_id") "top_3_airports"
                  (<["top_3_airports":=t3]> db)
                  (rel_names (scan "a" airlines) ++ rel_names (scan "r" routes))
                  (a ++ r) t3) as (y & Hy & Hin).
      + apply lookup_insert_eq.
      + unfold holds. cbn [denote_expr_under]. rewrite Hw2. cbn. by rewrite H2.
      + cbn [denote_expr_under] in Hy.
        rewrite (resolve_app_r _ _ _ _ "r") in Hy
          by (done || by apply scan_qualifier).
        exists y. split; [by right|exact Hin]. }
  by exists a, r, ida, idr, y.
Qed.

Lemma exercise_names_serve_top_witness :
  (sqlite_execute sql_exercise demo_flights).1 = inr demo_names
  ∧ ∃ airlines routes top,
      demo_flights !! "airlines" = Some airlines
      ∧ demo_flights !! "routes" = Some routes
      ∧ denote_select q_top3 demo_flights = inr top
      ∧ (length (t_rows top) ≤ 3)%nat
      ∧ Forall (serves airlines routes (column 0 top)) (column 0 demo_names).
Proof.
  split; [exact demo_names_answer|].
  exact (exercise_names_serve_top _ _ demo_names_answer).
Defined.

(** ** The cells outside a session *)



(** The connect cell where the file is missing and may not be created: the
    exception of [sqlite3], and [conn] is not bound. *)
Lemma cell_connect_sealed `{E : Engine} (k : kernel) :
  globals k !! "sqlite3" = Some (PyModule "sqlite3") →
  files k !! "flights.db" = None →
  writable k = false →
  cell_connect k =
    (inl (SqliteError (OperationalError "unable to open database file")), k).
Proof.
  intros Hm Hf Hw. unfold cell_connect, mbind, py_bind, load_name. rewrite Hm.
  cbn. unfold sqlite3_connect. rewrite Hf, Hw. reflexivity.
Qed.



(** X15: a querying cell run before the connect cell stops at the name
    [conn]: nothing is submitted, and neither files nor connections
    change. *)
Theorem query_before_connect `{E : Engine} (c : cell) (sql : string)
    (k : kernel) :
  (c, sql) ∈ queries →
  globals k !! "pd" = Some (PyModule "pandas") →
  globals k !! "conn" = None →
  (c k).1 = inl (NameError "conn")
  ∧ trace (c k).2 = trace k
  ∧ files (c k).2 = files k
  ∧ conns (c k).2 = conns k.
Proof.
  intros Hc Hpd Hconn.
  pose proof queries_read as Hq. rewrite Forall_forall in Hq.
  destruct (Hq _ Hc) as [Hr|Hr]; cbn [fst snd] in Hr; rewrite Hr,
    read_sql_cell_unfold.
  - by rewrite Hpd, Hconn.
  - unfold set_query. cbn [globals].
    rewrite !lookup_insert_ne by done. by rewrite Hpd, Hconn.
Qed.

Lemma query_before_connect_witness :
  let k := (cell_imports (boot demo_files)).2 in
  (@cell_exercise sqlite, sql_exercise) ∈ @queries sqlite
  ∧ globals k !! "pd" = Some (PyModule "pandas")
  ∧ globals k !! "conn" = None
  ∧ (@cell_exercise sqlite k).1 = inl (NameError "conn")
  ∧ trace (@cell_exercise sqlite k).2 = trace k
  ∧ files (@cell_exercise sqlite k).2 = files k
  ∧ conns (@cell_exercise sqlite k).2 = conns k.
Proof.
  cbn zeta.
  assert ((@cell_exercise sqlite, sql_exercise) ∈ @queries sqlite) as Hc
    by (unfold queries; repeat (apply elem_of_cons; (by left) || right)).
  assert (globals (cell_imports (boot demo_files)).2 !! "pd"
          = Some (PyModule "pandas")) as Hpd by reflexivity.
  assert (globals (cell_imports (boot demo_files)).2 !! "conn" = None) as Hconn
    by reflexivity.
  split; [exact Hc|]. split; [exact Hpd|]. split; [exact Hconn|].
  exact (@query_before_connect sqlite _ _ _ Hc Hpd Hconn).
Defined.

(** The import cell where [pandas] is missing: the first import raises, and
    the second is not reached, so that neither name is bound. *)
Lemma imports_without_pandas (k : kernel) :
  among (installed k) "pandas" = false →
  cell_imports k = (inl (ModuleNotFoundError "pandas"), k).
Proof.
  intros H. unfold cell_imports, import_as, mbind, py_bind. by rewrite H.
Qed.

(** X16: where [pandas] and [sqlite3] are installed, the import cell ends
    without exception, binds the two module names and nothing else, touches
    neither files nor connections, and running it again changes nothing. *)
Theorem imports_rerun (k : kernel) :
  among (installed k) "pandas" = true →
  among (installed k) "sqlite3" = true →
  let k' := (cell_imports k).2 in
  (cell_imports k).1 = inr None
  ∧ globals k' !! "pd" = Some (PyModule "pandas")
  ∧ globals k' !! "sqlite3" = Some (PyModule "sqlite3")
  ∧ (∀ x, x ≠ "pd" → x ≠ "sqlite3" → globals k' !! x = globals k !! x)
  ∧ (files k', conns k', trace k') = (files k, conns k, trace k)
  ∧ cell_imports k' = (inr None, k').
Proof.
  intros Hp Hs.
  unfold cell_imports, import_as, mbind, py_bind, store_name. cbn.
  rewrite Hp. cbn. rewrite Hs. cbn. rewrite Hp. cbn. rewrite Hs. cbn.
  split; [reflexivity|]. split.
  { rewrite lookup_insert_ne by done. by rewrite lookup_insert_eq. }
  split; [by rewrite lookup_insert_eq|]. split; [|split; [reflexivity|]].
  - intros x H1 H2. by rewrite !lookup_insert_ne.
  - do 2 f_equal. apply map_eq. intros x.
    rewrite !lookup_insert. repeat case_decide; congruence.
Qed.

Lemma imports_rerun_witness :
  let k := opened demo_files in
  among (installed k) "pandas" = true
  ∧ among (installed k) "sqlite3" = true
  ∧ let k' := (cell_imports k).2 in
    (cell_imports k).1 = inr None
    ∧ globals k' !! "pd" = Some (PyModule "pandas")
    ∧ globals k' !! "sqlite3" = Some (PyModule "sqlite3")
    ∧ (∀ x, x ≠ "pd" → x ≠ "sqlite3" → globals k' !! x = globals k !! x)
    ∧ (files k', conns k', trace k') = (files k, conns k, trace k)
    ∧ cell_imports k' = (inr None, k').
Proof.
  cbn zeta.
  assert (among (installed (opened demo_files)) "pandas" = true) as Hp
    by reflexivity.
  assert (among (installed (opened demo_files)) "sqlite3" = true) as Hs
    by reflexivity.
  split; [exact Hp|]. split; [exact Hs|].
  exact (imports_rerun _ Hp Hs).
Defined.

(** ** The cells of one run *)

(** Reads leave the database as it is, so each is answered on the database
    the run started with. *)
Lemma answers_selects sqls db :
  Forall (λ sql, is_select sql = true) sqls →
  @answers sqlite sqls db = map (λ sql, (sqlite_execute sql db).1) sqls.
Proof.
  induction 1 as [|sql sqls Hsql _ IH]; [reflexivity|].
  cbn [answers map]. change (@execute sqlite sql db) with (sqlite_execute sql db).
  by rewrite (select_read_only _ _ Hsql), IH.
Qed.

(** What the cells of a whole run show. *)
Lemma notebook_outputs fs :
  (run_all (@notebook sqlite) (boot fs)).1
  = [inr None; inr None]
    ++ map (λ sql,
              shown sql (sqlite_execute sql (default ∅ (fs !! "flights.db"))).1)
           notebook_sql.
Proof.
  rewrite notebook_split, run_all_app, run_preamble. cbn [fst snd].
  destruct (@run_queries sqlite (@queries sqlite) (@queries_read sqlite)
              _ _ _ _ (opened_session fs)) as (-> & _).
  change (map snd (@queries sqlite)) with notebook_sql.
  rewrite (answers_selects _ _ notebook_sql_select). reflexivity.
Qed.

(** X17: in a run of the whole notebook, when the cell with the common table
    expression shows a table, the cell with the subquery before it has shown
    the same table. *)
Theorem notebook_cte_cell_repeats (fs : gmap string database) (t : table) :
  (run_all (@notebook sqlite) (boot fs)).1 !! 7%nat = Some (inr (Some (PyFrame t))) →
  (run_all (@notebook sqlite) (boot fs)).1 !! 6%nat = Some (inr (Some (PyFrame t))).
Proof.
  rewrite notebook_outputs. unfold notebook_sql. cbn [app map lookup list_lookup].
  set (db := default ∅ (fs !! "flights.db")).
  intros H. f_equal.
  destruct (sqlite_execute sql_routes_cte db).1 as [e|t'] eqn:Hcte;
    [discriminate|].
  inversion H; subst t'.
  unfold sqlite_execute_under in Hcte |- *. rewrite parse_routes_cte in Hcte.
  rewrite parse_routes_subquery. cbn [exec_statement_under fst] in *.
  by rewrite (routes_cte_subquery _ _ Hcte).
Qed.

Lemma notebook_cte_cell_repeats_witness :
  (run_all (@notebook sqlite) (boot demo_files)).1 !! 7%nat
  = Some (inr (Some (PyFrame demo_routes)))
  ∧ (run_all (@notebook sqlite) (boot demo_files)).1 !! 6%nat
    = Some (inr (Some (PyFrame demo_routes))).
Proof.
  assert ((run_all (@notebook sqlite) (boot demo_files)).1 !! 7%nat
          = Some (inr (Some (PyFrame demo_routes)))) as H
    by (vm_compute; reflexivity).
  split; [exact H|].
  exact (notebook_cte_cell_repeats _ _ H).
Defined.

(** X18: in a run of the whole notebook, the average the second query shows
    is the average of the counts the first query has shown. *)
Theorem notebook_average_of_shown (fs : gmap string database) (t : table) :
  (run_all (@notebook sqlite) (boot fs)).1 !! 2%nat = Some (inr (Some (PyFrame t))) →
  (run_all (@notebook sqlite) (boot fs)).1 !! 3%nat
  = Some (inr (Some (PyFrame (Table ["AVG(number_of_departures)"]
                                [[avg (column 1 t)]])))).
Proof.
  rewrite notebook_outputs. unfold notebook_sql. cbn [app map lookup list_lookup].
  set (db := default ∅ (fs !! "flights.db")).
  intros H. f_equal.
  destruct (sqlite_execute sql_departures db).1 as [e|t'] eqn:Hdep;
    [discriminate|].
  inversion H; subst t'. by rewrite (avg_departures_answer _ _ Hdep).
Qed.

Lemma notebook_average_of_shown_witness :
  (run_all (@notebook sqlite) (boot demo_files)).1 !! 2%nat
  = Some (inr (Some (PyFrame demo_departures)))
  ∧ (run_all (@notebook sqlite) (boot demo_files)).1 !! 3%nat
    = Some (inr (Some (PyFrame (Table ["AVG(number_of_departures)"]
                                  [[avg (column 1 demo_departures)]])))).
Proof.
  assert ((run_all (@notebook sqlite) (boot demo_files)).1 !! 2%nat
          = Some (inr (Some (PyFrame demo_departures)))) as H
    by (vm_compute; reflexivity).
  split; [exact H|].
  exact (notebook_average_of_shown _ _ H).
Defined.

(** ** Rows that tie: what the rows of the tables fix, and what they do not *)

(** The sorter takes in the rows it is given, in one order or another. *)
Lemma arrange_perm {A} (p : plan) (dirs : list bool) (l : list A) :
  arrange p dirs l ≡ₚ l.
Proof.
  destruct p, dirs; cbn; try done. symmetry. apply Permutation_rev.
Qed.

(** In a sorted list the first element is before every other one, the order
    being transitive on the elements of the list. *)
Lemma Sorted_head_least {A} (R : A → A → Prop) (P : A → Prop) x l :
  (∀ a b c, P a → P b → P c → R a b → R b c → R a c) →
  P x → Forall P l → Sorted R (x :: l) → Forall (R x) l.
Proof.
  intros Htr Hx HP. revert x Hx.
  induction HP as [|y l Hy HP IH]; intros x Hx HS; [constructor|].
  apply Sorted_inv in HS as [HS Hhd]. apply HdRel_inv in Hhd.
  constructor; [exact Hhd|].
  specialize (IH y Hy HS). rewrite Forall_forall in IH, HP.
  apply Forall_forall. intros z Hz. apply (Htr x y z); auto.
Qed.

(** Where no two elements tie, there is one way to sort. *)
Lemma sorted_perm_eq {A} (R : A → A → Prop) (P : A → Prop) l1 l2 :
  (∀ a b c, P a → P b → P c → R a b → R b c → R a c) →
  (∀ a b, P a → P b → R a b → R b a → a = b) →
  Forall P l1 → l1 ≡ₚ l2 → Sorted R l1 → Sorted R l2 → l1 = l2.
Proof.
  intros Htr Hanti. revert l2.
  induction l1 as [|x l1 IH]; intros l2 HP Hperm HS1 HS2.
  - symmetry. by apply Permutation_nil.
  - destruct l2 as [|y l2]; [by apply Permutation_sym, Permutation_nil_cons in Hperm|].
    assert (Forall P (y :: l2)) as HP2 by (by rewrite <- Hperm).
    apply Forall_cons in HP as [Hx HP1]. pose proof HP2 as [Hy HP2']%Forall_cons.
    assert (x = y) as ->.
    { assert (x ∈ y :: l2) as Hxin by (rewrite <- Hperm; left).
      assert (y ∈ x :: l1) as Hyin by (rewrite Hperm; left).
      apply elem_of_cons in Hxin as [?|Hxin]; [done|].
      apply elem_of_cons in Hyin as [?|Hyin]; [done|].
      pose proof (Sorted_head_least R P _ _ Htr Hx HP1 HS1) as H1.
      pose proof (Sorted_head_least R P _ _ Htr Hy HP2' HS2) as H2.
      rewrite Forall_forall in H1, H2. apply Hanti; auto. }
    f_equal. apply IH; [done|by eapply Permutation_cons_inv| |].
    + by apply Sorted_inv in HS1 as [? _].
    + by apply Sorted_inv in HS2 as [? _].
Qed.

(** A SELECT that fails does so before its rows are sorted: under every plan
    alike. *)
Lemma run_select_under_error p p' ctes d names cols from joins w agg g o l db e :
  run_select_under p ctes d names cols from joins w agg g o l db = inl e →
  run_select_under p' ctes d names cols from joins w agg g o l db = inl e.
Proof.
  unfold run_select_under.
  destruct (with_ctes ctes db) as [?|db1]; [done|]. cbn [mbind result_bind].
  destruct (from db1) as [?|R0]; [done|]. cbn [mbind result_bind].
  destruct (apply_joins joins db1 R0) as [?|R1]; [done|].
  cbn [mbind result_bind].
  destruct (match w with Some _ => _ | None => _ end) as [?|rows]; [done|].
  cbn [mbind result_bind].
  destruct (units _ _ _) as [?|us]; [done|]. cbn [mbind result_bind].
  destruct (mapM _ us) as [?|outs]; [done|]. cbn [mbind result_bind].
  discriminate.
Qed.

(** Sorted on counts that differ, the rows come out in one order. *)
Lemma sort_counts_untied {A} (f : value → A) (vals : list value) p p'
    (outs : list (A * list value)) :
  untied vals →
  Forall (λ out, ∃ v, v ∈ vals ∧ out = (f v, [VInt (count_of v vals)])) outs →
  sort_by (λ x y : A * list value, keys_le [true] x.2 y.2) (arrange p [true] outs)
  = sort_by (λ x y : A * list value, keys_le [true] x.2 y.2)
      (arrange p' [true] outs).
Proof.
  intros Hno HP.
  set (le := λ x y : A * list value, keys_le [true] x.2 y.2).
  apply (sorted_perm_eq (λ x y, le x y = true)
           (λ out, ∃ v, v ∈ vals ∧ out = (f v, [VInt (count_of v vals)]))).
  - intros a b c (u & _ & ->) (v & _ & ->) (w & _ & ->). unfold le. cbn.
    destruct (Z.compare_spec (count_of u vals) (count_of v vals)),
             (Z.compare_spec (count_of v vals) (count_of w vals)),
             (Z.compare_spec (count_of u vals) (count_of w vals));
      try done; lia.
  - intros a b (u & Hu & ->) (v & Hv & ->). unfold le. cbn.
    rewrite (Z.compare_antisym (count_of u vals) (count_of v vals)).
    destruct (Z.compare_spec (count_of u vals) (count_of v vals))
      as [Heq| |]; cbn; try done.
    intros _ _. by rewrite (Hno u v Hu Hv Heq).
  - by rewrite sort_by_perm, arrange_perm.
  - by rewrite !sort_by_perm, !arrange_perm.
  - apply sort_by_sorted. intros a b. apply keys_le_total.
  - apply sort_by_sorted. intros a b. apply keys_le_total.
Qed.

(** The answer to [SELECT c FROM tbl GROUP BY c ORDER BY COUNT() DESC LIMIT n]
    under a plan: the values of [c], each sorted on its count. *)
Lemma ranked_answer_under p tbl c n db t :
  denote_select_under p
    (Select [] false [(ECol None c, None)] (FTable tbl None) [] None
       [ECol None c] [(ECount, true)] (Some n)) db = inr t →
  ∃ tb vals outs,
    db !! tbl = Some tb
    ∧ read_column tbl c tb = inr vals
    ∧ Forall (λ out : list value * list value,
                ∃ v, v ∈ vals ∧ out = ([v], [VInt (count_of v vals)])) outs
    ∧ ∀ q,
        denote_select_under q
          (Select [] false [(ECol None c, None)] (FTable tbl None) [] None
             [ECol None c] [(ECount, true)] (Some n)) db
        = inr (Table [c]
                 (map fst (apply_limit (Some n)
                    (sort_by (λ x y, keys_le [true] x.2 y.2)
                       (arrange q [true] outs))))).
Proof.
  rewrite denote_select_under_eq.
  intros (db' & R0 & R1 & rows & us & outs & Hdb & HR0 & HR1 & Hrows & Hus
          & Houts & -> & Hall)%run_select_under_inv.
  cbn in Hdb. inversion Hdb; subst db'. clear Hdb.
  cbn in HR0. apply bind_inr in HR0 as (tb & Htb%lookup_table_inr & HR0).
  inversion HR0; subst R0. clear HR0.
  cbn in HR1. inversion HR1; subst R1. clear HR1.
  inversion Hrows; subst rows. clear Hrows.
  unfold units in Hus.
  replace (is_aggregate _ _ _) with true in Hus by reflexivity.
  cbn [map] in Hus. cbn iota in Hus.
  apply bind_inr in Hus as (gs & Hgs & Hus). inversion Hus; subst us. clear Hus.
  apply group_rows_exact in Hgs as (keyed & kgs & Hkeyed & -> & Hnd & Hmem & Hcov).
  apply mapM_inr, Forall2_fmap_l in Houts.
  cbn [rel_names rel_rows] in Hkeyed.
  change (map (fit (length (t_cols tb))) (t_rows tb))
    with (rel_rows (scan tbl tb)) in Hkeyed.
  set (names := rel_names (scan tbl tb)) in *.
  assert (∃ vals,
            mapM (λ r, resolve names r None c) (rel_rows (scan tbl tb)) = inr vals
            ∧ Forall2 (λ s (kr : list value * list value), kr.1 = [s]) vals keyed
            ∧ Forall (λ kr : list value * list value,
                        ∃ s, kr.1 = [s] ∧ resolve names kr.2 None c = inr s
                             ∧ s ∈ vals) keyed)
    as (vals & Hvals & Hkv & Hks).
  { clear -Hkeyed. induction Hkeyed as [|r kr rows keyed [Hr Hk] _ IH].
    - exists []. by repeat split.
    - destruct IH as (vals & Hvals & Hkv & Hks).
      cbn [mapM denote_expr_under] in Hk.
      apply bind_inr in Hk as (s & Hs & Hk). inversion Hk as [Hk1].
      exists (s :: vals). split; [|split].
      + cbn [mapM]. by rewrite Hs, Hvals.
      + by constructor.
      + constructor.
        * exists s. split; [done|]. split; [by rewrite Hr|left].
        * eapply Forall_impl; [exact Hks|].
          intros kr' (s' & ? & ? & ?). exists s'.
          split; [done|]. split; [done|by right]. }
  exists tb, vals, outs. split; [exact Htb|]. split; [exact Hvals|].
  split; [|intros q; rewrite denote_select_under_eq; exact (Hall q (Some n))].
  clear Hnd Hcov Hall. revert outs Houts.
  induction Hmem as [|kg kgs [Hm (r0 & rest & Hrs & Hin)] _ IH];
    intros outs Houts.
  - inversion Houts. constructor.
  - inversion Houts as [|? out ? outs' Hout Houts']; subst.
    constructor; [|by apply IH].
    rewrite Forall_forall in Hks.
    destruct (Hks _ Hin) as (s & Hk1 & Hres & Hsv). cbn [fst snd] in Hk1, Hres.
    exists s. split; [exact Hsv|].
    unfold compose in Hout. cbn [map mapM fst snd denote_expr_under] in Hout.
    rewrite Hrs in Hout at 1. cbn [hd] in Hout. rewrite Hres in Hout.
    cbn [mbind result_bind mret result_ret order_key] in Hout.
    inversion Hout. do 4 f_equal. rewrite Hm, Hk1. by apply members_count.
Qed.

(** The values of a column ranked by their counts, where no two counts are
    equal: one answer, whatever the plan. *)
Lemma ranked_any_plan p p' tbl c n db :
  column_untied tbl c db →
  denote_select_under p
    (Select [] false [(ECol None c, None)] (FTable tbl None) [] None
       [ECol None c] [(ECount, true)] (Some n)) db
  = denote_select_under p'
      (Select [] false [(ECol None c, None)] (FTable tbl None) [] None
         [ECol None c] [(ECount, true)] (Some n)) db.
Proof.
  intros Hno.
  destruct (denote_select_under p _ db) as [e|t] eqn:Hp.
  - symmetry. rewrite denote_select_under_eq in Hp |- *.
    exact (run_select_under_error p p' _ _ _ _ _ _ _ _ _ _ _ _ _ Hp).
  - pose proof Hp as (tb & vals & outs & Htb & Hvals & HP & Hall)
      %ranked_answer_under.
    rewrite <- Hp, (Hall p), (Hall p'). do 4 f_equal.
    apply (sort_counts_untied (λ v, [v]) vals); [|exact HP].
    exact (Hno _ _ Htb Hvals).
Qed.

(** A text without ORDER BY is answered alike under every plan. *)
Lemma departures_any_plan (p p' : plan) (db : database) :
  sqlite_execute_under p sql_departures db
  = sqlite_execute_under p' sql_departures db.
Proof.
  unfold sqlite_execute_under. rewrite parse_departures.
  cbn [exec_statement_under]. f_equal.
  destruct p, p'; reflexivity.
Qed.

Lemma avg_departures_any_plan (p p' : plan) (db : database) :
  sqlite_execute_under p sql_avg_departures db
  = sqlite_execute_under p' sql_avg_departures db.
Proof.
  unfold sqlite_execute_under. rewrite parse_avg_departures.
  cbn [exec_statement_under]. f_equal.
  destruct p, p'; reflexivity.
Qed.

(** Without LIMIT, the plan changes the order of the rows and nothing else. *)
Lemma run_select_any_plan p p' ctes d names cols from joins w agg g o db t :
  run_select_under p ctes d names cols from joins w agg g o None db = inr t →
  ∃ t', run_select_under p' ctes d names cols from joins w agg g o None db
        = inr t'
        ∧ t_cols t' = t_cols t ∧ t_rows t' ≡ₚ t_rows t.
Proof.
  intros (db1 & R0 & R1 & rows & us & outs & _ & _ & _ & _ & _ & _ & -> & Hall)
    %run_select_under_inv.
  eexists. split; [exact (Hall p' None)|]. split; [reflexivity|].
  cbn [t_rows apply_limit]. apply fmap_Permutation.
  by rewrite !sort_by_perm, !arrange_perm.
Qed.

(** The third text, where no two countries have the same number of airports:
    one answer, whatever the plan. *)
Lemma top_countries_any_plan p p' db :
  column_untied "airports" "country" db →
  sqlite_execute_under p sql_top_countries db
  = sqlite_execute_under p' sql_top_countries db.
Proof.
  intros Hno. unfold sqlite_execute_under. rewrite parse_top_countries.
  cbn [exec_statement_under]. f_equal. unfold q_top_countries.
  destruct (denote_select_under p _ db) as [e|t] eqn:Hp.
  - symmetry. rewrite denote_select_under_eq in Hp |- *.
    exact (run_select_under_error p p' _ _ _ _ _ _ _ _ _ _ _ _ _ Hp).
  - pose proof Hp as (tb & vals & kgs & outs & Htb & Hvals & _ & _ & Houts & _
                      & Hall)%counted_answer_under.
    rewrite <- Hp, (Hall p (Some 5%nat) eq_refl), (Hall p' (Some 5%nat) eq_refl).
    do 4 f_equal. cbn [map snd].
    apply (sort_counts_untied (λ v, [v; VInt (count_of v vals)]) vals).
    + exact (Hno _ _ Htb Hvals).
    + apply Forall_forall. intros out Hout.
      apply list_elem_of_lookup in Hout as [i Hi].
      destruct (Forall2_lookup_r _ _ _ _ _ Houts Hi)
        as (kg & _ & v & _ & Hv & Ho & Hkeys).
      destruct out as [o1 o2]. cbn [fst snd] in *. subst o1.
      cbn in Hkeys. inversion Hkeys. by exists v.
Qed.

(** A SELECT reads its WITH clause and its WHERE clause through what they
    give on the database at hand. *)
Lemma run_select_ctes_ext p ctes ctes' d names cols from joins w agg g o l db :
  with_ctes ctes db = with_ctes ctes' db →
  run_select_under p ctes d names cols from joins w agg g o l db
  = run_select_under p ctes' d names cols from joins w agg g o l db.
Proof. unfold run_select_under. by intros ->. Qed.

Lemma run_select_where_ext p d names cols from joins w w' agg g o l db :
  (∀ ns r, w db ns None r = w' db ns None r) →
  run_select_under p [] d names cols from joins (Some w) agg g o l db
  = run_select_under p [] d names cols from joins (Some w') agg g o l db.
Proof.
  intros H. unfold run_select_under. cbn [with_ctes].
  change (mret db ≫= ?f) with (f db). cbn beta.
  apply bind_ext. intros R0. apply bind_ext. intros R1.
  rewrite (filterM_ext (holds (w db) (rel_names R1))
             (holds (w' db) (rel_names R1))); [reflexivity|].
  intros r _. unfold holds. by rewrite H.
Qed.

(** The listings of routes under a plan: the plan comes in with the WITH
    clause, with the condition, and where the rows are sorted. *)
Lemma routes_query_plan q ctes w :
  denote_select_under q (routes_query ctes w)
  = run_select_under q
      (map (λ c, (c.1, denote_select_under q c.2)) ctes) false
      (map out_name routes_cols)
      (map (λ c, denote_expr c.1) routes_cols)
      (denote_from (FTable "routes" (Some "rt")))
      (map (λ j, (j.1.1, denote_from j.1.2, denote_expr j.2)) routes_joins)
      (Some (denote_expr_under q w)) false []
      (map (λ c, (order_key c.1 (denote_expr c.1), c.2))
           [(ECol None "depart_country", false)])
      None.
Proof. destruct q; reflexivity. Qed.

(** The listings: the same routes under every plan, where the countries
    ranked do not tie. *)
Lemma routes_listed_any_plan p p' db t :
  denote_select_under p q_routes_listed db = inr t →
  ∃ t', denote_select_under p' q_routes_listed db = inr t'
        ∧ t_cols t' = t_cols t ∧ t_rows t' ≡ₚ t_rows t.
Proof.
  unfold q_routes_listed. rewrite !routes_query_plan.
  change (denote_expr_under p' (EInList ?a ?l))
    with (denote_expr_under p (EInList a l)).
  apply run_select_any_plan.
Qed.

Lemma routes_subquery_any_plan p p' db t :
  column_untied "airports" "country" db →
  denote_select_under p q_routes_subquery db = inr t →
  ∃ t', denote_select_under p' q_routes_subquery db = inr t'
        ∧ t_cols t' = t_cols t ∧ t_rows t' ≡ₚ t_rows t.
Proof.
  intros Hno. unfold q_routes_subquery. rewrite !routes_query_plan.
  cbn [map]. intros H.
  rewrite (run_select_where_ext p' _ _ _ _ _
             (denote_expr_under p' (EInSelect (ECol (Some "ap") "country") q_top5))
             (denote_expr_under p (EInSelect (ECol (Some "ap") "country") q_top5))).
  - by apply (run_select_any_plan p).
  - intros ns r. cbn [denote_expr_under]. unfold in_table.
    apply bind_ext. intros v. unfold q_top5.
    by rewrite (ranked_any_plan p' p _ _ _ _ Hno).
Qed.

Lemma routes_cte_any_plan p p' db t :
  column_untied "airports" "country" db →
  denote_select_under p q_routes_cte db = inr t →
  ∃ t', denote_select_under p' q_routes_cte db = inr t'
        ∧ t_cols t' = t_cols t ∧ t_rows t' ≡ₚ t_rows t.
Proof.
  intros Hno. unfold q_routes_cte. rewrite !routes_query_plan.
  intros H.
  rewrite (run_select_ctes_ext p' _
             (map (λ c, (c.1, denote_select_under p c.2))
                  [("top_5_countries", q_top5)])).
  - change (denote_expr_under p' (EInTable ?a ?n))
      with (denote_expr_under p (EInTable a n)).
    by apply (run_select_any_plan p).
  - cbn [map with_ctes fst snd]. unfold q_top5.
    by rewrite (ranked_any_plan p' p _ _ _ _ Hno).
Qed.

(** The exercise, where the airports ranked do not tie. *)
Lemma exercise_any_plan p p' db :
  column_untied "routes" "source_id" db →
  denote_select_under p q_exercise db = denote_select_under p' q_exercise db.
Proof.
  intros Hno. unfold q_exercise. rewrite !denote_select_under_eq.
  rewrite (run_select_ctes_ext p' _
             (map (λ c, (c.1, denote_select_under p c.2))
                  [("top_3_airports", q_top3)])).
  - destruct p, p'; reflexivity.
  - cbn [map with_ctes fst snd]. unfold q_top3.
    by rewrite (ranked_any_plan p' p _ _ _ _ Hno).
Qed.

(** Where LIMIT cuts through no tie, the rows of the tables fix the rows of
    every answer; their order they fix as far as ORDER BY tells them apart. *)
Lemma notebook_rows_any_plan p p' sql db t :
  sql ∈ notebook_sql →
  no_cut_ties sql db →
  (sqlite_execute_under p sql db).1 = inr t →
  ∃ t', (sqlite_execute_under p' sql db).1 = inr t'
        ∧ t_cols t' = t_cols t ∧ t_rows t' ≡ₚ t_rows t.
Proof.
  intros Hin [H5 H3] Ht. unfold notebook_sql in Hin.
  repeat (apply elem_of_cons in Hin as [->|Hin]).
  - exists t. by rewrite (departures_any_plan p' p).
  - exists t. by rewrite (avg_departures_any_plan p' p).
  - exists t. rewrite (top_countries_any_plan p' p); [done|]. apply H5. left.
  - revert Ht. unfold sqlite_execute_under. rewrite parse_routes_listed.
    apply routes_listed_any_plan.
  - revert Ht. unfold sqlite_execute_under. rewrite parse_routes_subquery.
    apply routes_subquery_any_plan, H5. right. left.
  - revert Ht. unfold sqlite_execute_under. rewrite parse_routes_cte.
    apply routes_cte_any_plan, H5. do 2 right. left.
  - exists t. split; [|done]. rewrite <- Ht.
    unfold sqlite_execute_under. rewrite parse_exercise.
    cbn [exec_statement_under fst]. by apply exercise_any_plan, H3.
  - by apply elem_of_nil in Hin.
Qed.


(** In the second example nothing ties. *)
Lemma demo_ranked_untied (sql : string) : no_cut_ties sql demo_ranked.
Proof.
  split; intros _ tb vs Htb Hvs.
  - vm_compute in Htb. injection Htb as <-.
    vm_compute in Hvs. injection Hvs as <-.
    intros v w Hv Hw Hc.
    repeat (apply elem_of_cons in Hv as [->|Hv]);
      try (by apply elem_of_nil in Hv);
      repeat (apply elem_of_cons in Hw as [->|Hw]);
      try (by apply elem_of_nil in Hw);
      first [reflexivity | vm_compute in Hc; discriminate Hc].
  - vm_compute in Htb. injection Htb as <-.
    vm_compute in Hvs. injection Hvs as <-.
    intros v w Hv Hw Hc.
    repeat (apply elem_of_cons in Hv as [->|Hv]);
      try (by apply elem_of_nil in Hv);
      repeat (apply elem_of_cons in Hw as [->|Hw]);
      try (by apply elem_of_nil in Hw);
      first [reflexivity | vm_compute in Hc; discriminate Hc].
Qed.



(** On the second example, where nothing ties, the two plans list the same
    routes, those that tie on the country in opposite orders, and show the
    same airlines. *)
Example ranked_under_either_plan :
  no_cut_ties sql_routes_cte demo_ranked
  ∧ no_cut_ties sql_exercise demo_ranked
  ∧ (∃ t t', (sqlite_execute_under AsRead sql_routes_cte demo_ranked).1 = inr t
             ∧ (sqlite_execute_under Reversed sql_routes_cte demo_ranked).1
               = inr t'
             ∧ t_rows t' ≡ₚ t_rows t ∧ t_rows t' ≠ t_rows t)
  ∧ (sqlite_execute_under AsRead sql_exercise demo_ranked).1
    = (sqlite_execute_under Reversed sql_exercise demo_ranked).1.
Proof.
  split; [apply demo_ranked_untied|]. split; [apply demo_ranked_untied|].
  split; [|vm_compute; reflexivity].
  destruct (sqlite_execute_under AsRead sql_routes_cte demo_ranked).1
    as [e|t] eqn:Ht; [vm_compute in Ht; discriminate Ht|].
  assert (sql_routes_cte ∈ notebook_sql) as Hin
    by (unfold notebook_sql; do 5 right; left).
  destruct (notebook_rows_any_plan AsRead Reversed _ _ _ Hin
              (demo_ranked_untied _) Ht) as (t' & Ht' & _ & Hperm).
  exists t, t'. split; [reflexivity|]. split; [exact Ht'|].
  split; [exact Hperm|].
  vm_compute in Ht, Ht'. injection Ht as <-. injection Ht' as <-.
  cbn [t_rows]. discriminate.
Qed.


